(** * freedns: a shallow embedding of [freedns/freedns.go]

    The forwarder races a fast upstream against a clean one, classifies the
    fast reply with [maybePolluted], and caches what it serves.  Go pointers
    that may be [nil] are [option]s, run-time panics are the [Panic] case of
    [result], the two LRU stores are explicit values threaded through the
    calls, and every call that leaves the package (the reply sink, the
    logger, the DNS client, the stores, [go] statements) is recorded in an
    event trace.  Messages are values; where the code reaches one message
    through two pointers (the reply [handle] stamps is the one the cache
    holds) the write is carried to both.  A query goroutine that has not
    sent when the deadline passes is left running and ends in a later
    step.  [Duration.Seconds] is computed in [float64], with its
    rounding. *)

From Stdlib Require Import ZArith List String Ascii Bool Lia.
From Stdlib Require Import DecimalString.
From Stdlib Require Floats.SpecFloat.
Import ListNotations.
Open Scope string_scope.
Open Scope Z_scope.

(** ** Machine integers *)

(** Go's [int] on the 64-bit targets the server is built for, and [uint32]
    for the TTL of a record.  Conversions wrap. *)
Definition wrap_int (z : Z) : Z := (z + 2 ^ 63) mod 2 ^ 64 - 2 ^ 63.
Definition wrap_uint32 (z : Z) : Z := z mod 2 ^ 32.

Definition is_uint32 (z : Z) : Prop := 0 <= z < 2 ^ 32.
Definition is_int (z : Z) : Prop := - 2 ^ 63 <= z < 2 ^ 63.

(** ** Panics *)

Inductive panic : Type :=
| IndexOutOfRange     (* xs[i] past the end *)
| TypeAssertion       (* x.(T) on a value of another type *)
| NilDereference.     (* a field of a nil pointer *)

Inductive result (A : Type) : Type :=
| Ok (a : A)
| Panic (p : panic).
Arguments Ok {A} a.
Arguments Panic {A} p.

Definition bind {A B : Type} (m : result A) (f : A -> result B) : result B :=
  match m with
  | Ok a => f a
  | Panic p => Panic p
  end.

Notation "x <- m ;; k" := (bind m (fun x => k))
  (at level 61, m at next level, right associativity).
Notation "' pat <- m ;; k" := (bind m (fun x => match x with pat => k end))
  (at level 61, pat pattern, m at next level, right associativity).

(** [xs[0]] on a Go slice. *)
Definition index0 {A : Type} (xs : list A) : result A :=
  match xs with
  | x :: _ => Ok x
  | [] => Panic IndexOutOfRange
  end.

(** [len(xs)] *)
Definition len {A : Type} (l : list A) : Z := Z.of_nat (List.length l).

(** ** DNS messages (the part of [dns.Msg] the server reads and writes) *)

(** An IPv4 address as its four octets; [IP_String] is [net.IP.String]. *)
Record IP : Type := mkIP { o1 : Z; o2 : Z; o3 : Z; o4 : Z }.

Definition itoa (z : Z) : string := NilZero.string_of_uint (N.to_uint (Z.to_N z)).

Definition IP_String (ip : IP) : string :=
  itoa (o1 ip) ++ "." ++ itoa (o2 ip) ++ "." ++ itoa (o3 ip) ++ "." ++ itoa (o4 ip).

Record Question : Type := mkQuestion {
  Name : string;
  Qtype : Z;
  Qclass : Z
}.

Record RR_Header : Type := mkHeader {
  Hdr_Name : string;
  Rrtype : Z;
  Class : Z;
  Ttl : Z;          (* uint32 *)
  Rdlength : Z
}.

(** [dns.RR] is an interface; the server only discriminates [*dns.A] from
    every other record type. *)
Inductive RR : Type :=
| RR_A (Hdr : RR_Header) (A : IP)
| RR_Other (Hdr : RR_Header) (rdata : string).

Definition Header (rr : RR) : RR_Header :=
  match rr with
  | RR_A h _ => h
  | RR_Other h _ => h
  end.

Definition set_Ttl (rr : RR) (ttl : Z) : RR :=
  let upd h := mkHeader (Hdr_Name h) (Rrtype h) (Class h) ttl (Rdlength h) in
  match rr with
  | RR_A h a => RR_A (upd h) a
  | RR_Other h d => RR_Other (upd h) d
  end.

Record Msg : Type := mkMsg {
  Id : Z;
  Response : bool;
  Opcode : Z;
  Authoritative : bool;
  Truncated : bool;
  RecursionDesired : bool;
  RecursionAvailable : bool;
  Zero : bool;
  AuthenticatedData : bool;
  CheckingDisabled : bool;
  Rcode : Z;
  Compress : bool;
  Questions : list Question;   (* the field [Question] of [dns.Msg] *)
  Answer : list RR;
  Ns : list RR;
  Extra : list RR
}.

(** [&dns.Msg{}] *)
Definition empty_Msg : Msg :=
  mkMsg 0 false 0 false false false false false false false 0 false [] [] [] [].

Definition RcodeSuccess : Z := 0.
Definition RcodeServerFailure : Z := 2.
Definition RcodeBadName : Z := 20.
Definition OpcodeQuery : Z := 0.

(** [dns.Msg.SetReply] and [dns.Msg.SetRcode] of the DNS library, applied to
    the receiver [m]. *)
Definition SetReply (m request : Msg) : Msg :=
  let opcode := Opcode request in
  let isq := Z.eqb opcode OpcodeQuery in
  mkMsg (Id request) true opcode
        (Authoritative m) (Truncated m)
        (if isq then RecursionDesired request else RecursionDesired m)
        (RecursionAvailable m) (Zero m) (AuthenticatedData m)
        (if isq then CheckingDisabled request else CheckingDisabled m)
        RcodeSuccess (Compress m)
        (match Questions request with
         | q :: _ => [q]
         | [] => Questions m
         end)
        (Answer m) (Ns m) (Extra m).

Definition set_Rcode (m : Msg) (rcode : Z) : Msg :=
  mkMsg (Id m) (Response m) (Opcode m) (Authoritative m) (Truncated m)
        (RecursionDesired m) (RecursionAvailable m) (Zero m)
        (AuthenticatedData m) (CheckingDisabled m) rcode (Compress m)
        (Questions m) (Answer m) (Ns m) (Extra m).

Definition SetRcode (m request : Msg) (rcode : Z) : Msg :=
  set_Rcode (SetReply m request) rcode.

Definition set_Id (m : Msg) (id : Z) : Msg :=
  mkMsg id (Response m) (Opcode m) (Authoritative m) (Truncated m)
        (RecursionDesired m) (RecursionAvailable m) (Zero m)
        (AuthenticatedData m) (CheckingDisabled m) (Rcode m) (Compress m)
        (Questions m) (Answer m) (Ns m) (Extra m).

Definition set_Questions (m : Msg) (qs : list Question) : Msg :=
  mkMsg (Id m) (Response m) (Opcode m) (Authoritative m) (Truncated m)
        (RecursionDesired m) (RecursionAvailable m) (Zero m)
        (AuthenticatedData m) (CheckingDisabled m) (Rcode m) (Compress m)
        qs (Answer m) (Ns m) (Extra m).

Definition set_sections (m : Msg) (an ns ex : list RR) : Msg :=
  mkMsg (Id m) (Response m) (Opcode m) (Authoritative m) (Truncated m)
        (RecursionDesired m) (RecursionAvailable m) (Zero m)
        (AuthenticatedData m) (CheckingDisabled m) (Rcode m) (Compress m)
        (Questions m) an ns ex.

(** The records of the three sections, in the order the server walks them. *)
Definition records (m : Msg) : list RR := Answer m ++ Ns m ++ Extra m.

(** ** Letter case of names, to compare requests up to case *)

Definition lower_ascii (c : ascii) : ascii :=
  let n := nat_of_ascii c in
  if (Nat.leb 65 n && Nat.leb n 90)%bool then ascii_of_nat (n + 32) else c.

Fixpoint ToLower (s : string) : string :=
  match s with
  | EmptyString => EmptyString
  | String c s' => String (lower_ascii c) (ToLower s')
  end.

Definition lower_Question (q : Question) : Question :=
  mkQuestion (ToLower (Name q)) (Qtype q) (Qclass q).

(** Two messages are the same up to transaction ID and case of the query
    names when erasing both makes them equal. *)
Definition erase_Id_and_case (m : Msg) : Msg :=
  set_Questions (set_Id m 0) (map lower_Question (Questions m)).

Definition same_up_to_Id_and_case (m1 m2 : Msg) : Prop :=
  erase_Id_and_case m1 = erase_Id_and_case m2.

Definition same_up_to_Id (m1 m2 : Msg) : Prop :=
  set_Id m1 0 = set_Id m2 0.

(** ** Tables and oracles of the packages the server imports *)

(** [dns.TypeToString] and [dns.RcodeToString]: Go maps, so a number
    without an entry reads as the empty string. *)
Class DnsTables : Type := {
  TypeToString : Z -> string;
  RcodeToString : Z -> string
}.

(** [chinaip.IsChinaIP], on the textual form of the address. *)
Class ChinaIP : Type := { IsChinaIP : string -> bool }.

(** ** [float64], as far as [Duration.Seconds] uses it *)

(** A finite binary64 value is a dyadic rational, [num / 2 ^ scale] with
    [0 <= scale].  The values that occur here are zero or normal numbers far
    from overflow (a count of seconds below [2 ^ 34], a fraction of a second
    that is zero or at least [1e-9]), so of the format only its 53-bit
    significand is represented: every operation computes the exact result
    and rounds it to the nearest number with 53 significant bits, ties to
    the even significand. *)
Record dyadic : Type := mkDyadic {
  num : Z;
  scale : Z
}.

(** [2 ^ k] for an exponent of either sign, as the fraction [up k / dn k]. *)
Definition up (k : Z) : Z := 2 ^ Z.max 0 k.
Definition dn (k : Z) : Z := 2 ^ Z.max 0 (- k).

(** The binary exponent of the positive fraction [n / d]: the [k] with
    [2 ^ k <= n / d < 2 ^ (k + 1)]. *)
Definition ilog2 (n d : Z) : Z :=
  let k := Z.log2 n - Z.log2 d in
  if d * up k <=? n * dn k then k else k - 1.

(** The integer nearest to [n / d], the even one of two that are equally
    near. *)
Definition round_half_even (n d : Z) : Z :=
  let q := n / d in
  let r := n mod d in
  match 2 * r ?= d with
  | Lt => q
  | Gt => q + 1
  | Eq => if Z.even q then q else q + 1
  end.

(** The binary64 nearest to the fraction [n / d], [0 < d]: the significand
    is [n / d] in units of [2 ^ e], [e] the exponent that leaves it 53 bits. *)
Definition rn64 (n d : Z) : dyadic :=
  if n =? 0 then mkDyadic 0 0
  else
    let a := Z.abs n in
    let e := ilog2 a d - 52 in
    mkDyadic (Z.sgn n * (round_half_even (a * dn e) (d * up e) * up e)) (Z.max 0 (- e)).

(** The conversion [float64(z)], the quotient [a / b] and the sum [a + b]
    of two [float64], and the conversion [int(a)], which drops the
    fraction. *)
Definition float64 (z : Z) : dyadic := rn64 z 1.

Definition fdiv (a b : dyadic) : dyadic :=
  rn64 (Z.sgn (num b) * num a * 2 ^ scale b) (Z.abs (num b) * 2 ^ scale a).

Definition fadd (a b : dyadic) : dyadic :=
  rn64 (num a * 2 ^ scale b + num b * 2 ^ scale a) (2 ^ (scale a + scale b)).

Definition trunc (a : dyadic) : Z := Z.quot (num a) (2 ^ scale a).

(** [a <= b] on the values of two dyadics. *)
Definition vle (a b : dyadic) : Prop := num a * 2 ^ scale b <= num b * 2 ^ scale a.

(** The fraction [n / d] is at least, or less than, [2 ^ k]. *)
Definition ge_pow2 (n d k : Z) : Prop := d * up k <= n * dn k.
Definition lt_pow2 (n d k : Z) : Prop := n * dn k < d * up k.

(** ** Time *)

(** Instants of the process clock and durations, in nanoseconds. *)
Definition Time : Type := Z.
Definition Duration : Type := Z.

Definition maxDuration : Z := 2 ^ 63 - 1.
Definition minDuration : Z := - 2 ^ 63.

Definition Second : Duration := 1000000000.

(** [t.Sub(u)]: the difference, saturated to the range of [Duration]. *)
Definition Time_Sub (t u : Time) : Duration :=
  Z.max minDuration (Z.min maxDuration (t - u)).

(** [d.Seconds()]: [sec := d / Second; nsec := d % Second;
    return float64(sec) + float64(nsec)/1e9], the integer division and
    remainder truncating towards zero. *)
Definition Seconds (d : Duration) : dyadic :=
  let sec := Z.quot d Second in
  let nsec := Z.rem d Second in
  fadd (float64 sec) (fdiv (float64 nsec) (float64 1000000000)).

(** [int(d.Seconds())], as [LookupCache] passes it to [subTTL]. *)
Definition Seconds_int (d : Duration) : Z := wrap_int (trunc (Seconds d)).

(** The fraction of a second, [float64(nsec)/1e9], and the largest one. *)
Definition frac (nsec : Z) : dyadic := fdiv (float64 nsec) (float64 1000000000).
Definition frac_max : dyadic := Eval vm_compute in frac 999999999.

(** The same conversion computed with the operations of the Standard
    Library's specification of IEEE 754 arithmetic at 53 bits of precision
    and maximal exponent 1024, to compare the two on sample durations. *)
Definition ieee_of_Z (z : Z) : SpecFloat.spec_float :=
  SpecFloat.binary_normalize 53 1024 z 0 false.

Definition ieee_trunc (f : SpecFloat.spec_float) : Z :=
  match f with
  | SpecFloat.S754_finite sign m e =>
      let v := if 0 <=? e then Z.pos m * 2 ^ e else Z.pos m / 2 ^ (- e) in
      if sign then - v else v
  | _ => 0
  end.

Definition Seconds_int_ieee (d : Duration) : Z :=
  let sec := Z.quot d Second in
  let nsec := Z.rem d Second in
  ieee_trunc (SpecFloat.SFadd 53 1024 (ieee_of_Z sec)
                (SpecFloat.SFdiv 53 1024 (ieee_of_Z nsec) (ieee_of_Z 1000000000))).

(** Durations [start], [start + step], ... *)
Fixpoint durations (n : nat) (start step : Z) : list Duration :=
  match n with
  | O => []
  | S n' => start :: durations n' (start + step) step
  end.

(** Around the first whole second that [float64] rounds up to, over the
    whole range of [Duration] in both directions, and around a larger
    count of seconds. *)
Definition sample_durations : list Duration :=
  (durations 600 16777216999999700 1 ++ durations 600 (- 2 ^ 63) 30744573456182587
   ++ durations 600 8388608999999700 1 ++ durations 600 134217728999999700 1
   ++ [0; 1; 999999999; 1000000000; 65000000000; 2 ^ 63 - 1])%list.

(** ** The bounded stores *)

Record cacheEntry : Type := mkEntry {
  putin : Time;
  reply : Msg
}.

(** Both stores hold [interface{}] values; these are the dynamic types the
    server puts in them. *)
Inductive value : Type :=
| VBool (b : bool)
| VEntry (e : cacheEntry).

(** A least-recently-used store as the cache library provides it: the most
    recently used key comes first, a read of a present key moves it to the
    front, a write puts the key in front and drops what exceeds the
    capacity. *)
Record Cache : Type := mkCache {
  capacity : nat;
  items : list (string * value)
}.

Definition NewCache (size : nat) : Cache := mkCache size [].

Fixpoint Cache_find (k : string) (l : list (string * value)) : option value :=
  match l with
  | [] => None
  | (k', v) :: l' => if String.eqb k' k then Some v else Cache_find k l'
  end.

Definition Cache_remove (k : string) (l : list (string * value)) : list (string * value) :=
  filter (fun kv => negb (String.eqb (fst kv) k)) l.

Definition Cache_Get (c : Cache) (k : string) : option value * Cache :=
  match Cache_find k (items c) with
  | Some v => (Some v, mkCache (capacity c) ((k, v) :: Cache_remove k (items c)))
  | None => (None, c)
  end.

Definition Cache_Set (c : Cache) (k : string) (v : value) : Cache :=
  mkCache (capacity c) (firstn (capacity c) ((k, v) :: Cache_remove k (items c))).

(** The type assertions [x.(bool)] and [x.(cacheEntry)]. *)
Definition assert_bool (v : value) : result bool :=
  match v with
  | VBool b => Ok b
  | _ => Panic TypeAssertion
  end.

Definition assert_cacheEntry (v : value) : result cacheEntry :=
  match v with
  | VEntry e => Ok e
  | _ => Panic TypeAssertion
  end.

(** ** The server *)

Record Config : Type := mkConfig {
  FastDNS : string;
  CleanDNS : string;
  Listen : string;
  CacheSize : Z
}.

(** The two listeners of [Server] are left out: they only call [handle]. *)
Record Server : Type := mkServer {
  config : Config;
  chinaDom : Cache;
  cache : Cache
}.

Definition with_chinaDom (s : Server) (c : Cache) : Server :=
  mkServer (config s) c (cache s).

Definition with_cache (s : Server) (c : Cache) : Server :=
  mkServer (config s) (chinaDom s) c.

(** What [c.Exchange] returned to one upstream query: the reply, possibly
    [nil], and whether the error is non-nil. *)
Record exchange : Type := mkExchange {
  ex_res : option Msg;
  ex_err : bool
}.

(** A goroutine that has more to do when the call that started it has
    returned: the detached refresh goroutine of [LookupCache], and the fast
    query goroutine of a [LookupNet] call whose exchange had not ended at
    the deadline. *)
Inductive task : Type :=
| Refresh (req : Msg) (net : string)
| Late (req : Msg) (net : string) (ex : exchange).

Inductive level : Type := Info | Warn | Error.

(** What leaves the package. *)
Inductive event : Type :=
| EvWriteMsg (m : Msg)                                  (* w.WriteMsg(m) *)
| EvLog (lvl : level) (fields : list (string * string)) (* log.WithFields(..).Lvl() *)
| EvLookupHosts                                         (* s.LookupHosts(req) *)
| EvCacheGet (key : string)                             (* s.cache.Get(key) *)
| EvCacheSet (key : string)                             (* s.cache.Set(key, ..) *)
| EvExchange (upstream net : string)                    (* c.Exchange(r, upstream) *)
| EvGo (t : task)                                       (* go func() {..}() *)
| EvLate (t : task).                                    (* a query still runs at return *)

(** [strings.Contains] *)
Fixpoint Contains (s substr : string) : bool :=
  if String.prefix substr s then true
  else match s with
       | EmptyString => false
       | String _ s' => Contains s' substr
       end.

Definition append_default_port (ip : string) : string :=
  if (Contains ip "." && negb (Contains ip ":"))%bool
  then ip ++ ":53"
  else ip.

(** [NewServer], without the listeners.  The stores start empty; a failure
    of the cache library's constructor ends the process and is not a server
    state. *)
Definition NewServer (cfg : Config) : Server :=
  let listen := if String.eqb (Listen cfg) "" then "127.0.0.1" else Listen cfg in
  let cfg := mkConfig (append_default_port (FastDNS cfg))
                      (append_default_port (CleanDNS cfg))
                      (append_default_port listen)
                      (CacheSize cfg) in
  mkServer cfg (NewCache (Z.to_nat (CacheSize cfg))) (NewCache (Z.to_nat (CacheSize cfg))).

(** ** The cache key *)

Section CacheKey.
Context `{DnsTables}.

Definition genCacheKey (r : Msg) (net : string) : result string :=
  q <- index0 (Questions r) ;;
  let s := Name q ++ "_" ++ TypeToString (Qtype q) in
  let s := if RecursionDesired r then s ++ "_1" else s ++ "_0" in
  let s := s ++ "_" ++ net in
  Ok s.

End CacheKey.

(** ** TTL rewriting *)

(** One iteration of the loop of the closure [S] in [subTTL]: the rewritten
    record and whether it was clamped. *)
Definition subTTL_rr (delta : Z) (rr : RR) : RR * bool :=
  let newTTL := wrap_int (Ttl (Header rr)) in
  let newTTL := wrap_int (newTTL - delta) in
  if newTTL <=? 0
  then (set_Ttl rr (wrap_uint32 3), true)
  else (set_Ttl rr (wrap_uint32 newTTL), false).

(** The closure [S]: rewrites a section in place and raises [needUpdate]. *)
Fixpoint subTTL_S (delta : Z) (rr : list RR) (needUpdate : bool) : list RR * bool :=
  match rr with
  | [] => ([], needUpdate)
  | r :: rest =>
      let '(r', clamped) := subTTL_rr delta r in
      let '(rest', needUpdate') := subTTL_S delta rest (needUpdate || clamped) in
      (r' :: rest', needUpdate')
  end.

Definition subTTL (res : Msg) (delta : Z) : Msg * bool :=
  let needUpdate := false in
  let '(an, needUpdate) := subTTL_S delta (Answer res) needUpdate in
  let '(ns, needUpdate) := subTTL_S delta (Ns res) needUpdate in
  let '(ex, needUpdate) := subTTL_S delta (Extra res) needUpdate in
  (set_sections res an ns ex, needUpdate).

(** ** The cache path *)

(** [dns.Msg.Copy] is a deep copy: on values, the identity. *)
Definition Copy (m : Msg) : Msg := m.

Section CachePath.
Context `{DnsTables}.

(** [now] is what [time.Now()] returns in this call.  The goroutine started
    on [needUpdate] is recorded as [EvGo]; its body is [refresh] below. *)
Definition LookupCache (s : Server) (req : Msg) (net : string) (now : Time)
  : result (option Msg * bool * Server * list event) :=
  key <- genCacheKey req net ;;
  let '(ci, cache') := Cache_Get (cache s) key in
  let s := with_cache s cache' in
  match ci with
  | Some ci =>
      c <- assert_cacheEntry ci ;;
      let delta := Time_Sub now (putin c) in
      let r := Copy (reply c) in
      let '(r, needUpdate) := subTTL r (Seconds_int delta) in
      let started := if needUpdate then [EvGo (Refresh req net)] else [] in
      Ok (Some r, true, s, EvCacheGet key :: started)
  | None => Ok (None, false, s, [EvCacheGet key])
  end.

Definition setCache (s : Server) (res : Msg) (net : string) (now : Time)
  : result (Server * list event) :=
  key <- genCacheKey res net ;;
  let e := mkEntry now res in
  Ok (with_cache s (Cache_Set (cache s) key (VEntry e)), [EvCacheSet key]).

Definition LookupHosts (s : Server) (req : Msg) : option Msg * bool * list event :=
  (None, false, [EvLookupHosts]).

End CachePath.

(** ** The cache read as the specification words it *)

(** The TTL served after [delta] seconds: the stored TTL less [delta], and 3
    when that is not positive. *)
Definition served_ttl (delta ttl : Z) : Z :=
  if ttl - delta <=? 0 then 3 else ttl - delta.

Definition clamped (delta : Z) (rr : RR) : bool :=
  Ttl (Header rr) - delta <=? 0.

Definition rewrite_rr (delta : Z) (rr : RR) : RR :=
  set_Ttl rr (served_ttl delta (Ttl (Header rr))).

Definition rewritten (delta : Z) (m : Msg) : Msg :=
  set_sections m (map (rewrite_rr delta) (Answer m))
                 (map (rewrite_rr delta) (Ns m))
                 (map (rewrite_rr delta) (Extra m)).

Definition refresh_needed (delta : Z) (m : Msg) : bool :=
  existsb (clamped delta) (records m).

(** Whole seconds between insertion and read, rounded down. *)
Definition elapsed_seconds (now inserted_at : Time) : Z :=
  (now - inserted_at) / 1000000000.

(** Every TTL of the message fits the 32 bits of its field. *)
Definition ttls_uint32 (m : Msg) : Prop :=
  Forall (fun rr => is_uint32 (Ttl (Header rr))) (records m).

(** ** The pollution classifier *)

Section Classifier.
Context `{ChinaIP}.

(** The loop of [containA] over the concatenated sections. *)
Fixpoint containA_loop (rrs : list RR) : bool :=
  match rrs with
  | [] => false
  | RR_A _ _ :: _ => true
  | RR_Other _ _ :: rest => containA_loop rest
  end.

Definition containA (res : Msg) : bool :=
  let rrs : list RR := [] in
  let rrs := (rrs ++ Answer res)%list in
  let rrs := (rrs ++ Ns res)%list in
  let rrs := (rrs ++ Extra res)%list in
  containA_loop rrs.

(** The loop of [containChinaIP]. *)
Fixpoint containChinaIP_loop (rrs : list RR) : bool :=
  match rrs with
  | [] => false
  | RR_A _ a :: rest =>
      let ip := IP_String a in
      if IsChinaIP ip then true else containChinaIP_loop rest
  | RR_Other _ _ :: rest => containChinaIP_loop rest
  end.

Definition containChinaIP (res : Msg) : bool :=
  let rrs : list RR := [] in
  let rrs := (rrs ++ Answer res)%list in
  let rrs := (rrs ++ Ns res)%list in
  let rrs := (rrs ++ Extra res)%list in
  containChinaIP_loop rrs.

(** [true] is "maybe polluted".  The hint store is the only part of the
    server it touches. *)
Definition maybePolluted (s : Server) (res : Msg) : result (bool * Server) :=
  if len (Answer res) + len (Ns res) + len (Extra res) =? 0 then Ok (true, s)
  else if containA res then
    let china := containChinaIP res in
    q <- index0 (Questions res) ;;
    let s := with_chinaDom s (Cache_Set (chinaDom s) (Name q) (VBool china)) in
    Ok (negb china, s)
  else
    q <- index0 (Questions res) ;;
    let '(china, dom') := Cache_Get (chinaDom s) (Name q) in
    let s := with_chinaDom s dom' in
    match china with
    | Some china =>
        b <- assert_bool china ;;
        Ok (negb b, s)
    | None => Ok (false, s)
    end.

End Classifier.

(** ** The race resolver *)

(** The environment of one call of [LookupNet]: the two exchanges, for each
    channel whether the query goroutine's send comes before the sentinel the
    deadline goroutine sends after two seconds, and the instant [setCache]
    reads. *)
Record netenv : Type := mkNetenv {
  fast_ex : exchange;
  clean_ex : exchange;
  fast_in_time : bool;
  clean_in_time : bool;
  now_set : Time
}.

Definition resolve (req : Msg) (upstream net : string) (ex : exchange)
  : option Msg * bool * list event :=
  (ex_res ex, ex_err ex, [EvExchange upstream net]).

Section Resolver.
Context `{DnsTables} `{ChinaIP}.

(** The closure [Q] of [LookupNet]; the result is the value it sends on its
    channel.  A panic in a goroutine ends the process, so it is the outcome
    of the whole call. *)
Definition Q (s : Server) (req : Msg) (net : string) (useClean : bool) (ex : exchange)
  : result (option Msg * Server * list event) :=
  let upstream := if useClean then CleanDNS (config s) else FastDNS (config s) in
  let '(res, err, ev) := resolve req upstream net ex in
  logged <- (if err
             then q <- index0 (Questions req) ;;
                  Ok [EvLog Error [("op", "Resolve"); ("upstream", upstream);
                                   ("domain", Name q)]]
             else Ok []) ;;
  let ev := (ev ++ logged)%list in
  match res with
  | None => Ok (None, s, ev)
  | Some res =>
      '(discard, s) <- (if negb useClean
                        then if (negb (Rcode res =? RcodeSuccess) || err)%bool
                             then Ok (true, s)
                             else maybePolluted s res
                        else Ok (false, s)) ;;
      if discard then Ok (None, s, ev) else Ok (Some res, s, ev)
  end.

(** [go Q(ch, useClean)] as the call sees it, with the value the call
    receives on [ch].  Each channel gets two values, one from the query
    goroutine and the sentinel from the deadline goroutine, and the call
    reads the first.  When the query's send is the first, the closure has
    run to its end.  When it is not, the call reads the sentinel while the
    exchange is still under way: nothing of the closure after [resolve]
    has happened by then.  The rest of a fast query, which may write the
    hint store, then runs after the call ([EvLate], and [step_late] below);
    the rest of a clean query only logs and is not followed.  A clean
    query touches no server state; when it is in time its log line is
    listed with the call also when the call returns on the fast reply
    without reading the clean channel. *)
Definition goQ (s : Server) (req : Msg) (net : string) (useClean in_time : bool)
           (ex : exchange) : result (option Msg * Server * list event) :=
  if in_time then Q s req net useClean ex
  else
    let upstream := if useClean then CleanDNS (config s) else FastDNS (config s) in
    Ok (None, s,
        EvExchange upstream net :: (if useClean then [] else [EvLate (Late req net ex)])).

(** The events of the two query goroutines are listed clean first, the
    order of the [go] statements; any interleaving is possible. *)
Definition LookupNet (s : Server) (req : Msg) (net : string) (env : netenv)
  : result (option Msg * string * bool * Server * list event) :=
  '(cleanMsg, s, evc) <- goQ s req net true (clean_in_time env) (clean_ex env) ;;
  '(fastMsg, s, evf) <- goQ s req net false (fast_in_time env) (fast_ex env) ;;
  let ev := (evc ++ evf)%list in
  match fastMsg with
  | Some res =>
      '(s, evs) <- setCache s res net (now_set env) ;;
      Ok (Some res, FastDNS (config s), false, s, (ev ++ evs)%list)
  | None =>
      let res := match cleanMsg with
                 | Some res => res
                 | None => SetRcode empty_Msg req RcodeServerFailure
                 end in
      '(s, evs) <- (if Rcode res =? RcodeSuccess
                    then setCache s res net (now_set env)
                    else Ok (s, [])) ;;
      Ok (Some res, CleanDNS (config s), false, s, (ev ++ evs)%list)
  end.

(** The body of the goroutine [LookupCache] starts when a TTL was clamped. *)
Definition refresh (s : Server) (req : Msg) (net : string) (env : netenv)
  : result (Server * list event) :=
  '(res, upstream, _, s, ev) <- LookupNet s req net env ;;
  q <- index0 (Questions req) ;;
  match res with
  | None => Panic NilDereference
  | Some res =>
      let fields := [("op", "LookupCache-LookupNet"); ("domain", Name q);
                     ("type", TypeToString (Qtype q)); ("upstream", upstream);
                     ("status", RcodeToString (Rcode res))] in
      let lvl := if negb (Rcode res =? RcodeSuccess) then Warn else Info in
      Ok (s, (ev ++ [EvLog lvl fields])%list)
  end.

(** ** The dispatcher *)

Record handleenv : Type := mkHandleenv {
  now_get : Time;      (* [time.Now()] in [LookupCache] *)
  net_env : netenv
}.

(** The key of the cache write in a trace of [LookupNet], when the call
    made one. *)
Fixpoint stored_key (tr : list event) : option string :=
  match tr with
  | [] => None
  | EvCacheSet key :: _ => Some key
  | _ :: rest => stored_key rest
  end.

(** Messages are values here, and [*dns.Msg] is a pointer.  [setCache]
    keeps the pointer it is given and [LookupNet] returns that same
    pointer, so when [handle] stamps the reply with [res.SetRcode] it
    writes to the message the new entry holds.  The entry is the one
    [s.cache.Set] has just put in front, under [key]; [m] is the message
    after the stamp. *)
Definition Cache_stamp (c : Cache) (key : string) (m : Msg) : Cache :=
  match items c with
  | (k, VEntry e) :: rest =>
      if String.eqb k key
      then mkCache (capacity c) ((k, VEntry (mkEntry (putin e) m)) :: rest)
      else c
  | _ => c
  end.

Definition stamp_stored (s : Server) (stored : option string) (m : Msg) : Server :=
  match stored with
  | Some key => with_cache s (Cache_stamp (cache s) key m)
  | None => s
  end.

(** [stored] is the key under which the reply in hand is also held by the
    cache: none for the copy [LookupCache] returns and for a reply made
    here. *)
Definition handle (s : Server) (req : Msg) (net : string) (env : handleenv)
  : result (Server * list event) :=
  let res := empty_Msg in
  if len (Questions req) <? 1 then
    let res := SetRcode res req RcodeBadName in
    Ok (s, [EvWriteMsg res;
            EvLog Warn [("op", "handle_request");
                        ("domain", "[request without questions]");
                        ("status", RcodeToString (Rcode res))]])
  else
    q <- index0 (Questions req) ;;
    let qname := Name q in
    let '(res, hit, evh) := LookupHosts s req in
    '(res, upstream, s, ev, stored) <-
      (if hit then Ok (res, "hosts", s, evh, None)
       else
         '(res, hit, s, evc) <- LookupCache s req net (now_get env) ;;
         if hit then Ok (res, "cache", s, (evh ++ evc)%list, None)
         else
           '(res, upstream, err, s, evn) <- LookupNet s req net (net_env env) ;;
           let everr := if err then [EvLog Error []] else [] in
           let '(res, stored) :=
             match res with
             | None => (Some (SetRcode empty_Msg req RcodeServerFailure), None)
             | Some _ => (res, stored_key evn)
             end in
           Ok (res, upstream, s, (evh ++ evc ++ evn ++ everr)%list, stored)) ;;
    match res with
    | None => Panic NilDereference
    | Some res =>
        let res := SetRcode res req (Rcode res) in
        let s := stamp_stored s stored res in
        let fields := [("op", "handle_request"); ("domain", qname);
                       ("type", TypeToString (Qtype q)); ("upstream", upstream);
                       ("status", RcodeToString (Rcode res))] in
        let lvl := if Rcode res =? RcodeSuccess then Info else Warn in
        Ok (s, (ev ++ [EvWriteMsg res; EvLog lvl fields])%list)
    end.

End Resolver.

(** ** The running server *)

(** The server value together with the goroutines that outlive the call
    that started them and have not run to their end yet. *)
Record system : Type := mkSystem {
  srv : Server;
  pending : list task
}.

(** The goroutines a trace starts. *)
Fixpoint spawned (tr : list event) : list task :=
  match tr with
  | [] => []
  | EvGo t :: rest => t :: spawned rest
  | _ :: rest => spawned rest
  end.

(** The query goroutines a trace leaves running. *)
Fixpoint left_running (tr : list event) : list task :=
  match tr with
  | [] => []
  | EvLate t :: rest => t :: left_running rest
  | _ :: rest => left_running rest
  end.

Section Running.
Context `{DnsTables} `{ChinaIP}.

(** One step: a listener hands a message to [handle], a pending refresh
    goroutine runs, or a fast query that was left running gets its reply
    and runs the rest of [Q] on the server as it is by then.  A call that
    panics ends the process and is no step. *)
Inductive step : system -> system -> Prop :=
| step_handle : forall sys req net env s' tr,
    handle (srv sys) req net env = Ok (s', tr) ->
    step sys (mkSystem s' (pending sys ++ spawned tr ++ left_running tr))
| step_refresh : forall sys pre post req net env s' tr,
    pending sys = (pre ++ Refresh req net :: post)%list ->
    refresh (srv sys) req net env = Ok (s', tr) ->
    step sys (mkSystem s' (pre ++ post ++ left_running tr))
| step_late : forall sys pre post req net ex m s' ev,
    pending sys = (pre ++ Late req net ex :: post)%list ->
    Q (srv sys) req net false ex = Ok (m, s', ev) ->
    step sys (mkSystem s' (pre ++ post)).

Inductive reachable (cfg : Config) : system -> Prop :=
| reach_init : reachable cfg (mkSystem (NewServer cfg) [])
| reach_step : forall sys sys',
    reachable cfg sys -> step sys sys' -> reachable cfg sys'.

End Running.

(** ** Sample tables, requests and replies for the worked examples *)

#[export] Instance sample_tables : DnsTables := {
  TypeToString t := match t with
                    | 1 => "A" | 2 => "NS" | 5 => "CNAME" | 15 => "MX"
                    | 16 => "TXT" | 28 => "AAAA" | _ => ""
                    end;
  RcodeToString r := match r with
                     | 0 => "NOERROR" | 2 => "SERVFAIL" | 3 => "NXDOMAIN"
                     | 20 => "BADNAME" | _ => ""
                     end
}.

(** An oracle that knows one China address. *)
#[export] Instance sample_chinaip : ChinaIP := {
  IsChinaIP ip := String.eqb ip "220.181.38.148"
}.

Definition TypeA : Z := 1.
Definition TypeAAAA : Z := 28.
Definition ClassINET : Z := 1.

Definition query (id : Z) (name : string) (qtype : Z) : Msg :=
  mkMsg id false OpcodeQuery false false true false false false false
        RcodeSuccess false [mkQuestion name qtype ClassINET] [] [] [].

Definition answer_to (q : Msg) (rcode : Z) (an : list RR) : Msg :=
  set_sections (set_Rcode (SetReply empty_Msg q) rcode) an [] [].

Definition sample_cfg : Config := mkConfig "114.114.114.114" "8.8.8.8" "" 16.

Definition sec : Z := 1000000000.

(** Scenario 5 of the specification: a reply with one A-record of TTL 60,
    put in the cache at instant 0. *)
Definition example_req : Msg := query 7 "example.com." TypeA.

Definition example_rr : RR :=
  RR_A (mkHeader "example.com." TypeA ClassINET 60 4) (mkIP 93 184 216 34).

Definition example_reply : Msg := answer_to example_req RcodeSuccess [example_rr].

Definition example_entry : cacheEntry := mkEntry 0 example_reply.

Definition cached_server : Server :=
  match setCache (NewServer sample_cfg) example_reply "udp" 0 with
  | Ok (s, _) => s
  | Panic _ => NewServer sample_cfg
  end.

(** The same question with the name in another letter case and another
    transaction ID. *)
Definition example_req_upper : Msg := query 8 "EXAMPLE.com." TypeA.

Definition ttls_of (m : Msg) : list Z := map (fun rr => Ttl (Header rr)) (records m).

(** Scenarios 2 and 3 of the specification: an A-reply for [baidu.com.]
    that points at the China address, then a reply to an AAAA question with
    no A-record in it. *)
Definition baidu_req_A : Msg := query 11 "baidu.com." TypeA.

Definition baidu_reply_A : Msg :=
  answer_to baidu_req_A RcodeSuccess
    [RR_A (mkHeader "baidu.com." TypeA ClassINET 300 4) (mkIP 220 181 38 148)].

Definition baidu_req_AAAA : Msg := query 12 "baidu.com." TypeAAAA.

Definition baidu_reply_AAAA : Msg :=
  answer_to baidu_req_AAAA RcodeSuccess
    [RR_Other (mkHeader "baidu.com." TypeAAAA ClassINET 300 16) "2400:da00::dbf:0:100"].

(** The server after it classified the A-reply. *)
Definition hinted_server : Server :=
  match maybePolluted (NewServer sample_cfg) baidu_reply_A with
  | Ok (_, s) => s
  | Panic _ => NewServer sample_cfg
  end.

(** Scenario 2: both upstreams answer in time, the fast one with the China
    address. *)
Definition clean_reply_A : Msg :=
  answer_to baidu_req_A RcodeSuccess
    [RR_A (mkHeader "baidu.com." TypeA ClassINET 300 4) (mkIP 1 2 3 4)].

Definition both_answer_env : netenv :=
  mkNetenv (mkExchange (Some baidu_reply_A) false)
           (mkExchange (Some clean_reply_A) false) true true (5 * sec).

(** Scenario 4: both exchanges fail with a transport error. *)
Definition both_fail_env : netenv :=
  mkNetenv (mkExchange None true) (mkExchange None true) true true (5 * sec).

(** The fast exchange fails and the clean upstream answers NOERROR with
    records and an empty question section. *)
Definition questionless_env : netenv :=
  mkNetenv (mkExchange None true)
           (mkExchange (Some (set_Questions clean_reply_A [])) false) true true (5 * sec).

(** Scenario 6: a message without a question. *)
Definition no_question_req : Msg := set_Questions (query 3 "" TypeA) [].

(** The server after it handled the A question of scenario 2. *)
Definition served_system : system :=
  match handle (NewServer sample_cfg) baidu_req_A "udp"
               (mkHandleenv (4 * sec) both_answer_env) with
  | Ok (s', tr) => mkSystem s' (spawned tr ++ left_running tr)
  | Panic _ => mkSystem (NewServer sample_cfg) []
  end.

(** ** The fast path rule as the specification words it *)

Section FastPathRule.
Context `{ChinaIP}.

(** The fast upstream's reply [r] is accepted: it came with no transport
    error, before the deadline, with response code NOERROR, and the
    classifier, run on the server [s], reports it trustworthy and leaves
    the server [s1]. *)
Definition fast_accepted (s : Server) (env : netenv) (r : Msg) (s1 : Server) : Prop :=
  ex_res (fast_ex env) = Some r /\
  ex_err (fast_ex env) = false /\
  fast_in_time env = true /\
  Rcode r = RcodeSuccess /\
  maybePolluted s r = Ok (false, s1).

End FastPathRule.

(** What the clean channel yields: the clean upstream's reply when it came
    before the deadline, the sentinel otherwise. *)
Definition clean_yield (env : netenv) : option Msg :=
  if clean_in_time env then ex_res (clean_ex env) else None.

(** A reply, when there is one, has a question section. *)
Definition has_question (ex : exchange) : Prop :=
  forall r, ex_res ex = Some r -> Questions r <> [].

(** ** Invariants of the stores *)

(** Every value held by a store satisfies [P]. *)
Definition all_values (P : value -> Prop) (c : Cache) : Prop :=
  Forall (fun kv => P (snd kv)) (items c).

Definition is_hint (v : value) : Prop := exists b, v = VBool b.

Definition is_noerror_entry (v : value) : Prop :=
  exists e, v = VEntry e /\ Rcode (reply e) = RcodeSuccess.

Definition stores_ok (s : Server) : Prop :=
  all_values is_hint (chinaDom s) /\ all_values is_noerror_entry (cache s).

(** ** Reading traces and messages *)

(** The replies a trace hands to the reply sink, in order. *)
Fixpoint writes (tr : list event) : list Msg :=
  match tr with
  | [] => []
  | EvWriteMsg m :: rest => m :: writes rest
  | _ :: rest => writes rest
  end.

Definition is_exchange (e : event) : bool :=
  match e with
  | EvExchange _ _ => true
  | _ => false
  end.

(** Two records that differ at most in their TTL. *)
Definition same_but_Ttl (a b : RR) : Prop := set_Ttl a 0 = set_Ttl b 0.

(** A message without its three sections: header bits and question. *)
Definition header_of (m : Msg) : Msg := set_sections m [] [] [].

Definition task_has_question (t : task) : Prop :=
  match t with
  | Refresh req _ => Questions req <> []
  | Late req _ _ => Questions req <> []
  end.

(** A question in the CHAOS class, otherwise as [example_req]. *)
Definition ClassCHAOS : Z := 3.

Definition example_req_chaos : Msg :=
  mkMsg 9 false OpcodeQuery false false true false false false true
        RcodeSuccess false
        [mkQuestion "example.com." TypeA ClassCHAOS;
         mkQuestion "other.org." TypeAAAA ClassINET] [] [] [].

(** A reply with an A-record that does not point into China, and a server
    whose hint store cannot hold anything. *)
Definition foreign_reply_A : Msg :=
  answer_to baidu_req_A RcodeSuccess
    [RR_Other (mkHeader "baidu.com." 5 ClassINET 300 9) "www.a.shifen.com.";
     RR_A (mkHeader "www.a.shifen.com." TypeA ClassINET 300 4) (mkIP 8 8 8 8)].

Definition empty_reply : Msg := answer_to baidu_req_AAAA RcodeSuccess [].

(** The server a hit leaves: the entry moved to the front. *)
Definition after_hit (s : Server) (key : string) (c : cacheEntry) : Server :=
  with_cache s (mkCache (capacity (cache s))
                        ((key, VEntry c) :: Cache_remove key (items (cache s)))).

(** Events of the resolver: exchanges, log lines, cache writes and
    queries left running. *)
Definition is_net_event (e : event) : bool :=
  match e with
  | EvExchange _ _ | EvLog _ _ | EvCacheSet _ | EvLate _ => true
  | _ => false
  end.

(** Scenario 1: the fast upstream answers with a foreign address, the clean
    one with another. *)
Definition polluted_env : netenv :=
  mkNetenv (mkExchange (Some foreign_reply_A) false)
           (mkExchange (Some clean_reply_A) false) true true (5 * sec).

(** The clean upstream answers SERVFAIL and the fast one fails. *)
Definition clean_servfail_env : netenv :=
  mkNetenv (mkExchange None true)
           (mkExchange (Some (answer_to baidu_req_A RcodeServerFailure [])) false)
           true true (5 * sec).

(** The cached example read at 65 seconds, and the server that read
    leaves. *)
Definition touched_server : Server :=
  match LookupCache cached_server example_req "udp" (65 * sec) with
  | Ok (_, _, s1, _) => s1
  | Panic _ => cached_server
  end.

(** The fast exchange fails and the clean upstream answers the example
    question at instant 0. *)
Definition clean_example_env : netenv :=
  mkNetenv (mkExchange None true) (mkExchange (Some example_reply) false) true true 0.

(** The system after the example question was answered from the network,
    and after it was asked again 65 seconds later: the second call is a
    stale hit and leaves one refresh pending. *)
Definition answered_system : system :=
  match handle (NewServer sample_cfg) example_req "udp" (mkHandleenv 0 clean_example_env) with
  | Ok (s', tr) => mkSystem s' (spawned tr ++ left_running tr)
  | Panic _ => mkSystem (NewServer sample_cfg) []
  end.

Definition stale_system : system :=
  match handle (srv answered_system) example_req "udp"
               (mkHandleenv (65 * sec) both_fail_env) with
  | Ok (s', tr) => mkSystem s' (pending answered_system ++ spawned tr ++ left_running tr)
  | Panic _ => answered_system
  end.

(** The server and the trace a returned call leaves; [d] and the empty
    trace stand for a call that did not return. *)
Definition server_after {A : Type} (o : result (A * Server * list event)) (d : Server)
  : Server :=
  match o with
  | Ok (_, s', _) => s'
  | Panic _ => d
  end.

Definition trace_of {A : Type} (o : result (A * Server * list event)) : list event :=
  match o with
  | Ok (_, _, tr) => tr
  | Panic _ => []
  end.

(** The upstreams echo the question: every reply they give has the key of
    the request. *)
Definition echoes `{DnsTables} (env : netenv) (net key : string) : Prop :=
  forall r,
    ex_res (fast_ex env) = Some r \/ ex_res (clean_ex env) = Some r ->
    genCacheKey r net = Ok key.

(** The same for a call of the dispatcher. *)
Definition state_of (o : result (Server * list event)) (d : Server) : Server :=
  match o with
  | Ok (s', _) => s'
  | Panic _ => d
  end.

Definition events_of (o : result (Server * list event)) : list event :=
  match o with
  | Ok (_, tr) => tr
  | Panic _ => []
  end.

(** Scenario 1 run on a new server, and the dispatcher's first call for the
    A question of scenario 2. *)
Definition polluted_outcome : result (option Msg * string * bool * Server * list event) :=
  LookupNet (NewServer sample_cfg) baidu_req_A "udp" polluted_env.

Definition first_call : result (Server * list event) :=
  handle (NewServer sample_cfg) baidu_req_A "udp" (mkHandleenv (4 * sec) both_answer_env).

Definition first_example_call : result (Server * list event) :=
  handle (NewServer sample_cfg) example_req "udp" (mkHandleenv 0 clean_example_env).

(** Scenario 2 with the fast reply after the deadline: the clean reply is
    served and the fast query is left running. *)
Definition late_fast_env : netenv :=
  mkNetenv (mkExchange (Some baidu_reply_A) false)
           (mkExchange (Some clean_reply_A) false) false true (5 * sec).


(** The system after the dispatcher's call with the late fast reply. *)
Definition late_system : system :=
  match handle (NewServer sample_cfg) baidu_req_A "udp"
               (mkHandleenv (4 * sec) late_fast_env) with
  | Ok (s', tr) => mkSystem s' (spawned tr ++ left_running tr)
  | Panic _ => mkSystem (NewServer sample_cfg) []
  end.

(** A reply with one A-record of TTL 16777217 seconds (a little over 194
    days), put in the cache at instant 0, and the instant one nanosecond
    short of 16777217 seconds later. *)
Definition aged_rr : RR :=
  RR_A (mkHeader "example.com." TypeA ClassINET 16777217 4) (mkIP 93 184 216 34).

Definition aged_reply : Msg := answer_to example_req RcodeSuccess [aged_rr].

Definition aged_server : Server :=
  match setCache (NewServer sample_cfg) aged_reply "udp" 0 with
  | Ok (s, _) => s
  | Panic _ => NewServer sample_cfg
  end.

Definition aged_now : Time := 16777216999999999.

(** * Properties *)

(** ** Machine integers *)

Lemma wrap_int_id (z : Z) : is_int z -> wrap_int z = z.
Proof.
  unfold is_int, wrap_int. intros Hz.
  rewrite Z.mod_small by lia. lia.
Qed.

Lemma wrap_uint32_id (z : Z) : is_uint32 z -> wrap_uint32 z = z.
Proof.
  unfold is_uint32, wrap_uint32. intros Hz. apply Z.mod_small. exact Hz.
Qed.

Lemma uint32_is_int (z : Z) : is_uint32 z -> is_int z.
Proof. unfold is_uint32, is_int. lia. Qed.

(** ** Rounding to binary64 *)

Lemma up_pos (k : Z) : 0 < up k.
Proof. unfold up. apply Z.pow_pos_nonneg; lia. Qed.

Lemma dn_pos (k : Z) : 0 < dn k.
Proof. unfold dn. apply Z.pow_pos_nonneg; lia. Qed.

Lemma up_nonneg (k : Z) : 0 <= k -> up k = 2 ^ k /\ dn k = 1.
Proof.
  intros H. unfold up, dn. rewrite Z.max_r by lia. rewrite Z.max_l by lia. auto.
Qed.

Lemma up_nonpos (k : Z) : k <= 0 -> up k = 1 /\ dn k = 2 ^ (- k).
Proof.
  intros H. unfold up, dn. rewrite Z.max_l by lia. rewrite Z.max_r by lia. auto.
Qed.

(** [2 ^ b = 2 ^ (b - a) * 2 ^ a] on the fractions. *)
Lemma up_dn_shift (a b : Z) : a <= b -> up b * dn a = 2 ^ (b - a) * (up a * dn b).
Proof.
  intros H. unfold up, dn.
  rewrite <- !Z.pow_add_r by lia. f_equal. lia.
Qed.

Lemma pow2_ge_1 (k : Z) : 0 <= k -> 1 <= 2 ^ k.
Proof. intros H. pose proof (Z.pow_pos_nonneg 2 k). lia. Qed.

Lemma pow2_ge_2 (k : Z) : 1 <= k -> 2 <= 2 ^ k.
Proof.
  intros H. replace k with (1 + (k - 1)) by lia. rewrite Z.pow_add_r by lia.
  pose proof (pow2_ge_1 (k - 1)). lia.
Qed.

Lemma ge_pow2_le (n d a b : Z) :
  0 < n -> 0 < d -> a <= b -> ge_pow2 n d b -> ge_pow2 n d a.
Proof.
  unfold ge_pow2. intros Hn Hd Hab H.
  pose proof (up_dn_shift a b Hab) as E.
  pose proof (pow2_ge_1 (b - a)) as P.
  pose proof (up_pos a). pose proof (dn_pos a). pose proof (up_pos b). pose proof (dn_pos b).
  assert (Hm : d * up b * dn a <= n * dn b * dn a) by (apply Z.mul_le_mono_nonneg_r; lia).
  assert (E2 : d * up b * dn a = 2 ^ (b - a) * (d * up a * dn b))
    by (rewrite <- Z.mul_assoc, E; ring).
  assert (Hm2 : d * up a * dn b <= n * dn a * dn b) by nia.
  apply Z.mul_le_mono_pos_r with (p := dn b); lia.
Qed.

Lemma ge_lt_pow2 (n d a b : Z) :
  0 < n -> 0 < d -> ge_pow2 n d a -> lt_pow2 n d b -> a < b.
Proof.
  intros Hn Hd Ha Hb. destruct (Z_lt_le_dec a b) as [|Hle]; [assumption|].
  pose proof (ge_pow2_le n d b a Hn Hd Hle Ha) as H. unfold ge_pow2, lt_pow2 in *. lia.
Qed.

(** [ilog2 n d] is the binary exponent of [n / d]. *)
Lemma ilog2_spec (n d : Z) : 0 < n -> 0 < d ->
  ge_pow2 n d (ilog2 n d) /\ lt_pow2 n d (ilog2 n d + 1).
Proof.
  intros Hn Hd. unfold ilog2.
  pose proof (Z.log2_spec n Hn) as [Ha1 Ha2].
  pose proof (Z.log2_spec d Hd) as [Hb1 Hb2].
  pose proof (Z.log2_nonneg n) as Ha0. pose proof (Z.log2_nonneg d) as Hb0.
  set (a := Z.log2 n) in *. set (b := Z.log2 d) in *.
  assert (Hi : lt_pow2 n d (a - b + 1)).
  { unfold lt_pow2. destruct (Z_le_gt_dec 0 (a - b + 1)) as [H|H].
    - destruct (up_nonneg _ H) as [-> ->].
      assert (E : 2 ^ Z.succ a = 2 ^ b * 2 ^ (a - b + 1))
        by (rewrite <- Z.pow_add_r by lia; f_equal; lia).
      pose proof (pow2_ge_1 (a - b + 1) H). nia.
    - destruct (up_nonpos (a - b + 1)) as [-> ->]; [lia|].
      assert (E : 2 ^ b = 2 ^ Z.succ a * 2 ^ (- (a - b + 1)))
        by (rewrite <- Z.pow_add_r by lia; f_equal; lia).
      pose proof (pow2_ge_1 (- (a - b + 1))). nia. }
  assert (Hii : ge_pow2 n d (a - b - 1)).
  { unfold ge_pow2. destruct (Z_le_gt_dec 0 (a - b - 1)) as [H|H].
    - destruct (up_nonneg _ H) as [-> ->].
      assert (E : 2 ^ a = 2 ^ Z.succ b * 2 ^ (a - b - 1))
        by (rewrite <- Z.pow_add_r by lia; f_equal; lia).
      pose proof (pow2_ge_1 (a - b - 1) H). nia.
    - destruct (up_nonpos (a - b - 1)) as [-> ->]; [lia|].
      assert (E : 2 ^ Z.succ b = 2 ^ a * 2 ^ (- (a - b - 1)))
        by (rewrite <- Z.pow_add_r by lia; f_equal; lia).
      pose proof (pow2_ge_1 (- (a - b - 1))). nia. }
  destruct (Z.leb_spec (d * up (a - b)) (n * dn (a - b))) as [H|H].
  - split; assumption.
  - split; [assumption|]. replace (a - b - 1 + 1) with (a - b) by lia. exact H.
Qed.

Lemma ilog2_mono (n1 d1 n2 d2 : Z) : 0 < n1 -> 0 < d1 -> 0 < n2 -> 0 < d2 ->
  n1 * d2 <= n2 * d1 -> ilog2 n1 d1 <= ilog2 n2 d2.
Proof.
  intros Hn1 Hd1 Hn2 Hd2 Hle.
  destruct (ilog2_spec n1 d1 Hn1 Hd1) as [H1 _].
  destruct (ilog2_spec n2 d2 Hn2 Hd2) as [_ H2].
  assert (H1' : ge_pow2 n2 d2 (ilog2 n1 d1)).
  { unfold ge_pow2 in *. pose proof (up_pos (ilog2 n1 d1)). pose proof (dn_pos (ilog2 n1 d1)).
    apply Z.mul_le_mono_pos_r with (p := d1); [lia|].
    set (u := up (ilog2 n1 d1)) in *. set (w := dn (ilog2 n1 d1)) in *.
    assert (d2 * (d1 * u) <= d2 * (n1 * w)) by (apply Z.mul_le_mono_nonneg_l; lia).
    assert (n1 * d2 * w <= n2 * d1 * w) by (apply Z.mul_le_mono_nonneg_r; lia).
    lia. }
  pose proof (ge_lt_pow2 n2 d2 _ _ Hn2 Hd2 H1' H2). lia.
Qed.

(** The four cases of rounding to the nearest integer. *)
Lemma rhe_cases (n d : Z) : 0 < d ->
  let q := n / d in let r := n mod d in
  n = d * q + r /\ 0 <= r < d /\
  ((2 * r < d /\ round_half_even n d = q) \/
   (2 * r > d /\ round_half_even n d = q + 1) \/
   (2 * r = d /\ Z.even q = true /\ round_half_even n d = q) \/
   (2 * r = d /\ Z.even q = false /\ round_half_even n d = q + 1)).
Proof.
  intros Hd q r. split; [apply Z.div_mod; lia|]. split; [apply Z.mod_pos_bound; lia|].
  unfold round_half_even. fold q r.
  destruct (Z.compare_spec (2 * r) d) as [E|E|E].
  - destruct (Z.even q) eqn:Ev; [right; right; left|right; right; right]; auto.
  - left; auto.
  - right; left; split; [lia|reflexivity].
Qed.

(** Rounding does not cross an integer. *)
Lemma rhe_lower (n d G : Z) : 0 < d -> G * d <= n -> G <= round_half_even n d.
Proof.
  intros Hd H. destruct (rhe_cases n d Hd) as (E & Hr & C).
  assert (G <= n / d) by (apply Z.div_le_lower_bound; lia).
  destruct C as [[_ ->]|[[_ ->]|[(_ & _ & ->)|(_ & _ & ->)]]]; lia.
Qed.

Lemma rhe_upper (n d G : Z) : 0 < d -> n <= G * d -> round_half_even n d <= G.
Proof.
  intros Hd H. destruct (rhe_cases n d Hd) as (E & Hr & C).
  set (q := n / d) in *. set (r := n mod d) in *.
  assert (q < G \/ (q = G /\ r = 0)) by nia.
  destruct C as [[? ->]|[[? ->]|[(? & _ & ->)|(? & _ & ->)]]]; lia.
Qed.

(** Below the midpoint of [G - 1] and [G] the result is at most [G - 1]. *)
Lemma rhe_below (n d G : Z) :
  0 < d -> 2 * n < (2 * G - 1) * d -> round_half_even n d <= G - 1.
Proof.
  intros Hd H. destruct (rhe_cases n d Hd) as (E & Hr & C).
  set (q := n / d) in *. set (r := n mod d) in *.
  assert (q < G - 1 \/ (q = G - 1 /\ 2 * r < d)) by nia.
  destruct C as [[? ->]|[[? ->]|[(? & _ & ->)|(? & _ & ->)]]]; lia.
Qed.

(** Rounding is monotone in the fraction. *)
Lemma rhe_mono (n1 d1 n2 d2 : Z) : 0 < d1 -> 0 < d2 -> n1 * d2 <= n2 * d1 ->
  round_half_even n1 d1 <= round_half_even n2 d2.
Proof.
  intros Hd1 Hd2 H.
  destruct (rhe_cases n1 d1 Hd1) as (E1 & Hr1 & C1).
  destruct (rhe_cases n2 d2 Hd2) as (E2 & Hr2 & C2).
  set (q1 := n1 / d1) in *. set (r1 := n1 mod d1) in *.
  set (q2 := n2 / d2) in *. set (r2 := n2 mod d2) in *.
  assert (Hq : q1 < q2 \/ (q1 = q2 /\ r1 * d2 <= r2 * d1)).
  { destruct (Z_lt_le_dec q1 q2) as [|Hge]; [left; assumption|right].
    assert (q1 = q2).
    { destruct (Z.eq_dec q1 q2) as [|Hne]; [assumption|exfalso].
      assert (q2 + 1 <= q1) by lia.
      assert (d1 * d2 * (q2 + 1) <= d1 * d2 * q1) by (apply Z.mul_le_mono_nonneg_l; nia).
      nia. }
    split; [assumption|]. subst q2. nia. }
  destruct Hq as [Hq|[Hq Hr]].
  - destruct C1 as [[? ->]|[[? ->]|[(? & _ & ->)|(? & _ & ->)]]];
    destruct C2 as [[? ->]|[[? ->]|[(? & _ & ->)|(? & _ & ->)]]]; lia.
  - destruct C1 as [[? ->]|[[? ->]|[(? & Ev1 & ->)|(? & Ev1 & ->)]]];
    destruct C2 as [[? ->]|[[? ->]|[(? & Ev2 & ->)|(? & Ev2 & ->)]]]; try lia; try nia.
    rewrite Hq in Ev1. congruence.
Qed.

Lemma dn_scale (e : Z) : 2 ^ Z.max 0 (- e) = dn e.
Proof. reflexivity. Qed.

Lemma rn64_pos (n d : Z) : 0 < n ->
  rn64 n d = mkDyadic (round_half_even (n * dn (ilog2 n d - 52)) (d * up (ilog2 n d - 52))
                       * up (ilog2 n d - 52)) (Z.max 0 (- (ilog2 n d - 52))).
Proof.
  intros H. unfold rn64. destruct (Z.eqb_spec n 0); [lia|].
  rewrite Z.abs_eq by lia. rewrite Z.sgn_pos by lia. rewrite Z.mul_1_l. reflexivity.
Qed.

(** The significand has 53 bits. *)
Lemma mantissa_bounds (n d : Z) : 0 < n -> 0 < d ->
  let e := ilog2 n d - 52 in
  2 ^ 52 * (d * up e) <= n * dn e /\ n * dn e <= 2 ^ 53 * (d * up e).
Proof.
  intros Hn Hd e. destruct (ilog2_spec n d Hn Hd) as [H1 H2].
  unfold ge_pow2, lt_pow2 in *. set (k := ilog2 n d) in *.
  pose proof (up_dn_shift e k ltac:(unfold e; lia)) as S1.
  pose proof (up_dn_shift e (k + 1) ltac:(unfold e; lia)) as S2.
  replace (k - e) with 52 in S1 by (unfold e; lia).
  replace (k + 1 - e) with 53 in S2 by (unfold e; lia).
  pose proof (up_pos e). pose proof (dn_pos e). pose proof (up_pos k). pose proof (dn_pos k).
  pose proof (up_pos (k + 1)). pose proof (dn_pos (k + 1)).
  split.
  - apply Z.mul_le_mono_pos_r with (p := dn k); [lia|].
    assert (d * up k * dn e <= n * dn k * dn e) by (apply Z.mul_le_mono_nonneg_r; lia).
    assert (d * up k * dn e = d * (2 ^ 52 * (up e * dn k))) by (rewrite <- S1; ring).
    lia.
  - apply Z.mul_le_mono_pos_r with (p := dn (k + 1)); [lia|].
    assert (n * dn (k + 1) * dn e <= d * up (k + 1) * dn e)
      by (apply Z.mul_le_mono_nonneg_r; lia).
    assert (d * up (k + 1) * dn e = d * (2 ^ 53 * (up e * dn (k + 1))))
      by (rewrite <- S2; ring).
    lia.
Qed.

Lemma mantissa_range (n d : Z) : 0 < n -> 0 < d ->
  let e := ilog2 n d - 52 in
  2 ^ 52 <= round_half_even (n * dn e) (d * up e) <= 2 ^ 53.
Proof.
  intros Hn Hd e. destruct (mantissa_bounds n d Hn Hd) as [H1 H2]. fold e in H1, H2.
  pose proof (up_pos e).
  split; [apply rhe_lower|apply rhe_upper]; nia.
Qed.

Lemma rn64_nonneg (n d : Z) :
  0 <= n -> 0 < d -> 0 <= num (rn64 n d) /\ 0 <= scale (rn64 n d).
Proof.
  intros Hn Hd. destruct (Z.eq_dec n 0) as [->|Hne]; [simpl; lia|].
  rewrite rn64_pos by lia. cbn [num scale].
  pose proof (mantissa_range n d ltac:(lia) Hd) as [H _]. cbv zeta in H.
  pose proof (up_pos (ilog2 n d - 52)). split; [nia|lia].
Qed.

(** Rounding to binary64 is monotone: within one binade by [rhe_mono],
    across binades because a significand lies between [2 ^ 52] and
    [2 ^ 53]. *)
Lemma rn64_mono (n1 d1 n2 d2 : Z) :
  0 <= n1 -> 0 < d1 -> 0 < d2 -> n1 * d2 <= n2 * d1 ->
  vle (rn64 n1 d1) (rn64 n2 d2).
Proof.
  intros Hn1 Hd1 Hd2 H.
  assert (Hn2 : 0 <= n2) by nia.
  destruct (Z.eq_dec n1 0) as [->|Hz1].
  { unfold vle. change (rn64 0 d1) with (mkDyadic 0 0). cbn [num scale].
    pose proof (rn64_nonneg n2 d2 Hn2 Hd2). lia. }
  assert (Hp2 : 0 < n2) by nia.
  rewrite (rn64_pos n1 d1), (rn64_pos n2 d2) by lia.
  unfold vle. cbn [num scale]. rewrite !dn_scale.
  pose proof (ilog2_mono n1 d1 n2 d2 ltac:(lia) Hd1 Hp2 Hd2 H) as Hk.
  pose proof (mantissa_range n1 d1 ltac:(lia) Hd1) as [_ M1].
  pose proof (mantissa_range n2 d2 Hp2 Hd2) as [M2 _]. cbv zeta in M1, M2.
  set (e1 := ilog2 n1 d1 - 52) in *. set (e2 := ilog2 n2 d2 - 52) in *.
  pose proof (up_pos e1). pose proof (dn_pos e1). pose proof (up_pos e2). pose proof (dn_pos e2).
  destruct (Z.eq_dec e1 e2) as [E|E].
  - rewrite <- E. apply Z.mul_le_mono_nonneg_r; [lia|]. apply Z.mul_le_mono_nonneg_r; [lia|].
    apply rhe_mono; nia.
  - assert (Hlt : e1 <= e2) by (unfold e1, e2; lia).
    pose proof (up_dn_shift e1 e2 Hlt) as S.
    pose proof (pow2_ge_2 (e2 - e1) ltac:(lia)) as P.
    set (m1 := round_half_even _ _) in *. set (m2 := round_half_even (n2 * _) _) in *.
    assert (A : m1 * up e1 * dn e2 <= 2 ^ 53 * (up e1 * dn e2)) by nia.
    assert (B : 2 ^ 53 * (up e1 * dn e2) <= 2 ^ 52 * (up e2 * dn e1)) by nia.
    assert (C : 2 ^ 52 * (up e2 * dn e1) <= m2 * up e2 * dn e1) by nia.
    lia.
Qed.

Lemma rhe_one (n : Z) : round_half_even n 1 = n.
Proof.
  unfold round_half_even. rewrite Z.div_1_r, Z.mod_1_r. reflexivity.
Qed.

(** An integer below [2 ^ 53] converts without rounding. *)
Lemma float64_exact (z : Z) : 0 <= z < 2 ^ 53 ->
  num (float64 z) = z * 2 ^ scale (float64 z) /\ 0 <= scale (float64 z).
Proof.
  intros Hz. unfold float64. destruct (Z.eq_dec z 0) as [->|Hne]; [simpl; lia|].
  rewrite rn64_pos by lia. cbn [num scale]. rewrite dn_scale.
  destruct (ilog2_spec z 1 ltac:(lia) ltac:(lia)) as [H1 _].
  assert (Hk : ilog2 z 1 < 53).
  { apply (ge_lt_pow2 z 1 _ 53 ltac:(lia) ltac:(lia) H1). unfold lt_pow2.
    destruct (up_nonneg 53 ltac:(lia)) as [-> ->]. lia. }
  destruct (up_nonpos (ilog2 z 1 - 52) ltac:(lia)) as [-> E].
  rewrite Z.mul_1_r, rhe_one. split; lia.
Qed.

Lemma trunc_div (a : dyadic) : 0 <= num a -> 0 <= scale a -> trunc a = num a / 2 ^ scale a.
Proof.
  intros Hn Hs. unfold trunc. apply Z.quot_div_nonneg; [assumption|].
  apply Z.pow_pos_nonneg; lia.
Qed.

Lemma trunc_mono (a b : dyadic) :
  0 <= num a -> 0 <= scale a -> 0 <= scale b -> vle a b ->
  trunc a <= trunc b.
Proof.
  unfold vle. intros Hn Ha Hb H.
  pose proof (Z.pow_pos_nonneg 2 (scale a) ltac:(lia) Ha) as Pa.
  pose proof (Z.pow_pos_nonneg 2 (scale b) ltac:(lia) Hb) as Pb.
  assert (Hnb : 0 <= num b) by nia.
  rewrite !trunc_div by assumption.
  set (x := 2 ^ scale a) in *. set (y := 2 ^ scale b) in *.
  apply Z.div_le_lower_bound; [lia|].
  pose proof (Z.mul_div_le (num a) x Pa).
  assert (y * (x * (num a / x)) <= y * num a) by (apply Z.mul_le_mono_nonneg_l; lia).
  nia.
Qed.

(** ** Elapsed time *)

Lemma Time_Sub_nonneg (now t : Time) : t <= now -> 0 <= Time_Sub now t <= maxDuration.
Proof. unfold Time_Sub, maxDuration, minDuration. lia. Qed.

Lemma Time_Sub_exact (now t : Time) :
  t <= now -> now - t <= maxDuration -> Time_Sub now t = now - t.
Proof. unfold Time_Sub, maxDuration, minDuration. lia. Qed.

Lemma Time_Sub_mono (now1 now2 t : Time) :
  now1 <= now2 -> Time_Sub now1 t <= Time_Sub now2 t.
Proof. unfold Time_Sub. lia. Qed.

Lemma pow2_pos (k : Z) : 0 <= k -> 0 < 2 ^ k.
Proof. intros H. apply Z.pow_pos_nonneg; lia. Qed.

(** The fraction of a second is a [float64] between 0 and the one of
    999999999 nanoseconds, which is below 1. *)
Lemma frac_spec (nanos : Z) : 0 <= nanos < Second ->
  0 <= num (frac nanos) /\ 0 <= scale (frac nanos) /\ vle (frac nanos) frac_max.
Proof.
  intros H. unfold Second in H.
  destruct (float64_exact nanos ltac:(lia)) as [En Hs].
  assert (Ef : frac nanos = rn64 (num (float64 nanos) * 2 ^ 23)
                                (8388608000000000 * 2 ^ scale (float64 nanos))).
  { unfold frac, fdiv. change (float64 1000000000) with (mkDyadic 8388608000000000 23).
    cbn [num scale]. change (Z.sgn 8388608000000000) with 1.
    change (Z.abs 8388608000000000) with 8388608000000000. rewrite Z.mul_1_l. reflexivity. }
  pose proof (pow2_pos _ Hs) as P.
  destruct (rn64_nonneg (num (float64 nanos) * 2 ^ 23)
              (8388608000000000 * 2 ^ scale (float64 nanos)) ltac:(nia) ltac:(lia)) as [N S].
  rewrite <- Ef in N, S. split; [assumption|]. split; [assumption|].
  rewrite Ef.
  change frac_max with (rn64 (8388607991611392 * 2 ^ 23) (8388608000000000 * 2 ^ 23)).
  apply rn64_mono; [nia|lia|lia|].
  rewrite En. set (p := 2 ^ scale (float64 nanos)) in *. nia.
Qed.

Lemma frac_lt_1 (nanos : Z) :
  0 <= nanos < Second -> num (frac nanos) < 2 ^ scale (frac nanos).
Proof.
  intros H. destruct (frac_spec nanos H) as (N & S & V).
  unfold vle in V. change frac_max with (mkDyadic 9007199245733793 53) in V.
  cbn [num scale] in V. pose proof (pow2_pos _ S). lia.
Qed.

(** [Seconds] of a duration that is not negative. *)
Section Seconds_nonneg.
Variable d : Duration.
Hypothesis Hd : 0 <= d <= maxDuration.

Lemma Seconds_split : Seconds d = fadd (float64 (d / Second)) (frac (d mod Second)).
Proof.
  unfold Seconds. rewrite Z.quot_div_nonneg, Z.rem_mod_nonneg by (unfold Second; lia).
  reflexivity.
Qed.

Lemma Seconds_parts :
  0 <= d / Second < 2 ^ 34 /\ 0 <= d mod Second < Second /\
  d = Second * (d / Second) + d mod Second.
Proof.
  unfold maxDuration, Second in *.
  pose proof (Z.div_mod d 1000000000 ltac:(lia)).
  pose proof (Z.mod_pos_bound d 1000000000 ltac:(lia)).
  assert (d / 1000000000 <= (2 ^ 63 - 1) / 1000000000) by (apply Z.div_le_mono; lia).
  change ((2 ^ 63 - 1) / 1000000000) with 9223372036 in *.
  assert (0 <= d / 1000000000) by (apply Z.div_pos; lia).
  lia.
Qed.

(** The sum before its rounding is the count of whole seconds plus a
    fraction below 1. *)
Lemma Seconds_sum :
  let s := scale (float64 (d / Second)) in
  let f := frac (d mod Second) in
  Seconds d = rn64 (2 ^ s * (d / Second * 2 ^ scale f + num f)) (2 ^ s * 2 ^ scale f) /\
  0 <= s /\ 0 <= scale f /\ 0 <= num f < 2 ^ scale f.
Proof.
  intros s f. destruct Seconds_parts as (Hs & Hn & _).
  destruct (float64_exact (d / Second) ltac:(lia)) as [E S].
  destruct (frac_spec (d mod Second) Hn) as (N & Sf & _).
  pose proof (frac_lt_1 (d mod Second) Hn). fold f in N, Sf, H. fold s in S.
  split; [|lia].
  rewrite Seconds_split. unfold fadd. fold f. rewrite E. fold s.
  rewrite Z.pow_add_r by lia. f_equal. ring.
Qed.

(** Both neighbouring integers are [float64]s, so the rounded sum stays
    between them. *)
Lemma Seconds_bounds : d / Second <= trunc (Seconds d) <= d / Second + 1.
Proof.
  destruct Seconds_sum as (E & S & Sf & N). cbv zeta in E, S, Sf, N.
  destruct Seconds_parts as (Hs & Hn & _).
  set (s := scale (float64 (d / Second))) in *. set (f := frac (d mod Second)) in *.
  pose proof (pow2_pos _ S) as Ps. pose proof (pow2_pos _ Sf) as Pf.
  assert (T : forall z, 0 <= z < 2 ^ 53 -> trunc (float64 z) = z).
  { intros z Hz. destruct (float64_exact z Hz) as [Ez Sz].
    rewrite trunc_div; [|rewrite Ez; pose proof (pow2_pos _ Sz); nia|assumption].
    rewrite Ez. apply Z.div_mul. pose proof (pow2_pos _ Sz). lia. }
  split.
  - rewrite <- (T (d / Second)) at 1 by lia.
    destruct (float64_exact (d / Second) ltac:(lia)) as [Ez Sz].
    apply trunc_mono; [fold s in Ez; rewrite Ez; nia|assumption| |].
    + rewrite E. apply rn64_nonneg; nia.
    + rewrite E. unfold float64. apply rn64_mono; [lia|lia|nia|].
      set (pf := 2 ^ scale f) in *. set (ps := 2 ^ s) in *. nia.
  - rewrite <- (T (d / Second + 1)) by lia.
    destruct (float64_exact (d / Second + 1) ltac:(lia)) as [Ez Sz].
    apply trunc_mono; [rewrite E; apply rn64_nonneg; nia|rewrite E; apply rn64_nonneg; nia
                      |assumption|].
    rewrite E. unfold float64. apply rn64_mono; [nia|nia|lia|].
    set (pf := 2 ^ scale f) in *. set (ps := 2 ^ s) in *. nia.
Qed.

(** Below [2 ^ 24] seconds the spacing of [float64] is at most [2 ^ -29],
    and the largest fraction is more than half of that away from 1: the sum
    does not round up to the next integer. *)
Lemma Seconds_exact : d < 2 ^ 24 * Second -> trunc (Seconds d) = d / Second.
Proof.
  intros Hlt. pose proof Seconds_bounds as [Lo _].
  destruct Seconds_sum as (E & S & Sf & N). cbv zeta in E, S, Sf, N.
  destruct Seconds_parts as (Hs & Hn & Ed).
  assert (Hs24 : d / Second < 2 ^ 24) by (unfold Second in *; lia).
  destruct (frac_spec (d mod Second) Hn) as (_ & _ & V).
  set (s := scale (float64 (d / Second))) in *. set (f := frac (d mod Second)) in *.
  pose proof (pow2_pos _ S) as Ps. pose proof (pow2_pos _ Sf) as Pf.
  unfold vle in V. change frac_max with (mkDyadic 9007199245733793 53) in V.
  cbn [num scale] in V.
  set (pf := 2 ^ scale f) in *. set (ps := 2 ^ s) in *. set (F := num f) in *.
  destruct (Z.eq_dec (d / Second) 0) as [Z0|NZ].
  { (* below one second: the fraction is rounded once more and stays below 1 *)
    apply Z.le_antisymm; [|exact Lo]. rewrite Z0.
    apply Z.le_trans with (trunc (mkDyadic 9007199245733793 53)); [|vm_compute; discriminate].
    apply trunc_mono; [rewrite E; apply rn64_nonneg; nia|rewrite E; apply rn64_nonneg; nia
                      |simpl; lia|].
    rewrite E.
    change (mkDyadic 9007199245733793 53) with (rn64 9007199245733793 (2 ^ 53)).
    apply rn64_mono; [nia|nia|lia|]. rewrite Z0. nia. }
  apply Z.le_antisymm; [|exact Lo].
  set (n := ps * (d / Second * pf + F)) in *. set (dd := ps * pf) in *.
  assert (Hn0 : 0 < n) by (unfold n; nia).
  assert (Hd0 : 0 < dd) by (unfold dd; nia).
  destruct (ilog2_spec n dd Hn0 Hd0) as [K1 _].
  assert (Hk : ilog2 n dd < 24).
  { apply (ge_lt_pow2 n dd _ 24 Hn0 Hd0 K1). unfold lt_pow2.
    destruct (up_nonneg 24 ltac:(lia)) as [-> ->]. unfold n, dd.
    assert (d / Second * pf + F < 2 ^ 24 * pf) by nia. nia. }
  rewrite E, rn64_pos by assumption.
  set (e := ilog2 n dd - 52) in *.
  destruct (up_nonpos e ltac:(unfold e; lia)) as [U D].
  pose proof (mantissa_range n dd Hn0 Hd0) as [M1 _]. cbv zeta in M1. fold e in M1.
  rewrite U in M1. rewrite U. rewrite !Z.mul_1_r in M1. rewrite !Z.mul_1_r.
  rewrite trunc_div; cbn [num scale]; [|lia|lia].
  rewrite dn_scale.
  assert (HD : 2 ^ 29 <= dn e).
  { rewrite D. apply Z.pow_le_mono_r; unfold e; lia. }
  pose proof (dn_pos e) as PD. set (DD := dn e) in *.
  assert (HM : round_half_even (n * DD) dd <= (d / Second + 1) * DD - 1).
  { apply rhe_below; [assumption|]. unfold n, dd.
    assert (A : 2 * F * DD * 2 ^ 53 <= 2 * DD * (9007199245733793 * pf)).
    { pose proof (Z.mul_le_mono_nonneg_l _ _ (2 * DD) ltac:(lia) V). lia. }
    assert (B : 2 * DD * (9007199245733793 * pf) < (2 * DD - 1) * pf * 2 ^ 53).
    { assert (2 * DD * 9007199245733793 < (2 * DD - 1) * 2 ^ 53) by lia. nia. }
    assert (C : 2 * F * DD < (2 * DD - 1) * pf) by nia.
    nia. }
  apply Z.lt_succ_r. apply Z.div_lt_upper_bound; [lia|]. nia.
Qed.

End Seconds_nonneg.

Lemma Seconds_int_bounds (d : Duration) : 0 <= d <= maxDuration ->
  d / Second <= Seconds_int d <= d / Second + 1.
Proof.
  intros H. pose proof (Seconds_bounds d H). pose proof (Seconds_parts d H) as (Hs & _).
  unfold Seconds_int. rewrite wrap_int_id by (unfold is_int; lia). lia.
Qed.

Lemma Seconds_int_exact (d : Duration) :
  0 <= d < 2 ^ 24 * Second -> Seconds_int d = d / Second.
Proof.
  intros H. assert (Hd : 0 <= d <= maxDuration) by (unfold maxDuration, Second in *; lia).
  pose proof (Seconds_exact d Hd ltac:(lia)) as E. pose proof (Seconds_parts d Hd) as (Hs & _).
  unfold Seconds_int. rewrite E. apply wrap_int_id. unfold is_int. lia.
Qed.

Lemma Seconds_int_mono (d1 d2 : Duration) :
  0 <= d1 -> d1 <= d2 -> d2 <= maxDuration ->
  Seconds_int d1 <= Seconds_int d2.
Proof.
  intros H0 H12 H2.
  assert (Hd1 : 0 <= d1 <= maxDuration) by lia.
  assert (Hd2 : 0 <= d2 <= maxDuration) by lia.
  pose proof (Seconds_int_bounds d1 Hd1) as B1. pose proof (Seconds_int_bounds d2 Hd2) as B2.
  assert (Hq : d1 / Second <= d2 / Second) by (apply Z.div_le_mono; unfold Second; lia).
  destruct (Z.eq_dec (d1 / Second) (d2 / Second)) as [Eq|Ne]; [|lia].
  pose proof (Seconds_parts d1 Hd1) as (Hs1 & Hn1 & E1).
  pose proof (Seconds_parts d2 Hd2) as (Hs2 & Hn2 & E2).
  unfold Seconds_int.
  pose proof (Seconds_bounds d1 Hd1). pose proof (Seconds_bounds d2 Hd2).
  rewrite !wrap_int_id by (unfold is_int; lia).
  destruct (Seconds_sum d1 Hd1) as (S1 & A1 & F1 & N1).
  destruct (Seconds_sum d2 Hd2) as (S2 & A2 & F2 & N2). cbv zeta in *.
  destruct (frac_spec _ Hn1) as (_ & _ & _).
  assert (V : vle (frac (d1 mod Second)) (frac (d2 mod Second))).
  { unfold frac, fdiv. change (float64 1000000000) with (mkDyadic 8388608000000000 23).
    cbn [num scale]. change (Z.sgn 8388608000000000) with 1.
    change (Z.abs 8388608000000000) with 8388608000000000. rewrite !Z.mul_1_l.
    destruct (float64_exact (d1 mod Second) ltac:(unfold Second in *; lia)) as [X1 Y1].
    destruct (float64_exact (d2 mod Second) ltac:(unfold Second in *; lia)) as [X2 Y2].
    pose proof (pow2_pos _ Y1). pose proof (pow2_pos _ Y2).
    apply rn64_mono; [nia|lia|lia|]. rewrite X1, X2.
    set (p1 := 2 ^ scale (float64 (d1 mod Second))) in *.
    set (p2 := 2 ^ scale (float64 (d2 mod Second))) in *.
    assert (Hm : d1 mod Second <= d2 mod Second) by (unfold Second in *; lia).
    pose proof (Z.mul_le_mono_nonneg_r _ _ (p1 * p2) ltac:(nia) Hm). lia. }
  apply trunc_mono; [rewrite S1; apply rn64_nonneg; pose proof (pow2_pos _ A1);
                     pose proof (pow2_pos _ F1); nia
                    |rewrite S1; apply rn64_nonneg; pose proof (pow2_pos _ A1);
                     pose proof (pow2_pos _ F1); nia
                    |rewrite S2; apply rn64_nonneg; pose proof (pow2_pos _ A2);
                     pose proof (pow2_pos _ F2); nia|].
  rewrite S1, S2. rewrite <- Eq.
  set (s := 2 ^ scale (float64 (d1 / Second))) in *.
  pose proof (pow2_pos _ A1) as Ps. fold s in Ps.
  pose proof (pow2_pos _ F1) as P1. pose proof (pow2_pos _ F2) as P2.
  unfold vle in V.
  set (f1 := frac (d1 mod Second)) in *. set (f2 := frac (d2 mod Second)) in *.
  set (p1 := 2 ^ scale f1) in *. set (p2 := 2 ^ scale f2) in *.
  apply rn64_mono; [nia|nia|nia|].
  assert (num f1 * p2 * (s * s) <= num f2 * p1 * (s * s)) by (apply Z.mul_le_mono_nonneg_r; nia).
  nia.
Qed.

(** One nanosecond short of 16777217 seconds: the sum rounds up. *)
Lemma Seconds_int_rounds_up : Seconds_int 16777216999999999 = 16777217.
Proof. vm_compute. reflexivity. Qed.

Lemma Seconds_int_nonneg (d : Duration) :
  0 <= d <= maxDuration -> 0 <= Seconds_int d /\ is_int (Seconds_int d).
Proof.
  intros Hd. pose proof (Seconds_int_bounds d Hd) as [Lo Hi].
  pose proof (Seconds_parts d Hd) as (Hs & _).
  unfold is_int. lia.
Qed.

(** The two computations of [int(d.Seconds())] agree on the sample
    durations. *)
Remark Seconds_int_ieee_agree :
  forallb (fun d => Seconds_int d =? Seconds_int_ieee d) sample_durations = true.
Proof. vm_compute. reflexivity. Qed.

(** ** [subTTL] against the specification's wording *)

Lemma Header_set_Ttl (rr : RR) (t : Z) : Ttl (Header (set_Ttl rr t)) = t.
Proof. destruct rr; reflexivity. Qed.

Lemma subTTL_rr_spec (delta : Z) (rr : RR) :
  is_uint32 (Ttl (Header rr)) -> 0 <= delta -> is_int delta ->
  subTTL_rr delta rr = (rewrite_rr delta rr, clamped delta rr).
Proof.
  intros Ht Hd Hi. unfold subTTL_rr, rewrite_rr, clamped, served_ttl.
  rewrite (wrap_int_id (Ttl (Header rr))) by (apply uint32_is_int; exact Ht).
  assert (Hr : is_int (Ttl (Header rr) - delta)).
  { unfold is_uint32 in Ht. unfold is_int in *. lia. }
  rewrite wrap_int_id by exact Hr.
  destruct (Ttl (Header rr) - delta <=? 0) eqn:E.
  - reflexivity.
  - apply Z.leb_gt in E. rewrite wrap_uint32_id; [reflexivity|].
    unfold is_uint32 in *. lia.
Qed.

Lemma subTTL_S_spec (delta : Z) (rrs : list RR) (b : bool) :
  Forall (fun rr => is_uint32 (Ttl (Header rr))) rrs -> 0 <= delta -> is_int delta ->
  subTTL_S delta rrs b = (map (rewrite_rr delta) rrs, (b || existsb (clamped delta) rrs)%bool).
Proof.
  intros HF Hd Hi. revert b.
  induction HF as [|rr rrs Hrr _ IH]; intros b; simpl.
  - now rewrite orb_false_r.
  - rewrite (subTTL_rr_spec delta rr Hrr Hd Hi), IH.
    now rewrite orb_assoc.
Qed.

Lemma subTTL_spec (delta : Z) (m : Msg) :
  ttls_uint32 m -> 0 <= delta -> is_int delta ->
  subTTL m delta = (rewritten delta m, refresh_needed delta m).
Proof.
  unfold ttls_uint32, records. intros HF Hd Hi.
  apply Forall_app in HF as [Ha HF]. apply Forall_app in HF as [Hn He].
  unfold subTTL, rewritten, refresh_needed, records.
  rewrite (subTTL_S_spec delta _ false Ha Hd Hi).
  rewrite (subTTL_S_spec delta _ _ Hn Hd Hi).
  rewrite (subTTL_S_spec delta _ _ He Hd Hi).
  now rewrite !existsb_app, orb_false_l, orb_assoc.
Qed.

Lemma records_rewritten (delta : Z) (m : Msg) :
  records (rewritten delta m) = map (rewrite_rr delta) (records m).
Proof. unfold records, rewritten. simpl. now rewrite !map_app. Qed.

(** ** The cache key *)

Section CacheKeyFacts.
Context `{DnsTables}.

Lemma genCacheKey_reads (r1 r2 : Msg) (net : string) :
  Questions r1 = Questions r2 -> RecursionDesired r1 = RecursionDesired r2 ->
  genCacheKey r1 net = genCacheKey r2 net.
Proof. unfold genCacheKey. intros -> ->. reflexivity. Qed.

(** C4 (amended): two requests that are identical except for their
    transaction ID have the same cache key on the same transport. *)
Theorem genCacheKey_same_up_to_Id (m1 m2 : Msg) (net : string) :
  same_up_to_Id m1 m2 -> genCacheKey m1 net = genCacheKey m2 net.
Proof.
  unfold same_up_to_Id. intros E.
  apply genCacheKey_reads.
  - exact (f_equal Questions E).
  - exact (f_equal RecursionDesired E).
Qed.

End CacheKeyFacts.

(** C4 (as stated, refuted): the key keeps the query name as it was sent, so
    two requests that differ in transaction ID and letter case of the name
    get different keys. *)
Lemma genCacheKey_case_sensitive :
  same_up_to_Id_and_case example_req example_req_upper /\
  genCacheKey example_req "udp" = Ok "example.com._A_1_udp" /\
  genCacheKey example_req_upper "udp" = Ok "EXAMPLE.com._A_1_udp" /\
  genCacheKey example_req "udp" <> genCacheKey example_req_upper "udp".
Proof.
  split; [reflexivity|]. split; [reflexivity|]. split; [reflexivity|].
  vm_compute. discriminate.
Qed.

Lemma genCacheKey_same_up_to_Id_witness :
  same_up_to_Id example_req (set_Id example_req 4242) /\
  genCacheKey example_req "udp" = genCacheKey (set_Id example_req 4242) "udp".
Proof.
  split; [reflexivity|].
  apply (genCacheKey_same_up_to_Id example_req (set_Id example_req 4242) "udp").
  reflexivity.
Defined.

(** ** The cache read *)

Section CacheReadFacts.
Context `{DnsTables}.

Lemma Cache_Get_hit (c : Cache) (k : string) (v : value) :
  Cache_find k (items c) = Some v ->
  Cache_Get c k = (Some v, mkCache (capacity c) ((k, v) :: Cache_remove k (items c))).
Proof. unfold Cache_Get. intros ->. reflexivity. Qed.

Lemma LookupCache_hit (s : Server) (req : Msg) (net : string) (now : Time)
      (key : string) (c : cacheEntry) :
  genCacheKey req net = Ok key ->
  Cache_find key (items (cache s)) = Some (VEntry c) ->
  LookupCache s req net now =
    let d := Seconds_int (Time_Sub now (putin c)) in
    Ok (Some (fst (subTTL (reply c) d)), true,
        with_cache s (mkCache (capacity (cache s))
                              ((key, VEntry c) :: Cache_remove key (items (cache s)))),
        EvCacheGet key :: (if snd (subTTL (reply c) d) then [EvGo (Refresh req net)] else [])).
Proof.
  intros Hk Hf. unfold LookupCache. rewrite Hk. simpl.
  rewrite (Cache_Get_hit _ _ _ Hf). simpl. unfold Copy.
  destruct (subTTL (reply c) _) as [r nu]. reflexivity.
Qed.

Lemma elapsed_delta (now t : Time) :
  t <= now ->
  let d := Seconds_int (Time_Sub now t) in 0 <= d /\ is_int d.
Proof.
  intros Hle. apply (Seconds_int_nonneg (Time_Sub now t)).
  apply Time_Sub_nonneg. exact Hle.
Qed.

Lemma served_ttl_positive (delta ttl : Z) : 1 <= served_ttl delta ttl.
Proof.
  unfold served_ttl. destruct (ttl - delta <=? 0) eqn:E; [lia|].
  apply Z.leb_gt in E. lia.
Qed.

Lemma served_ttl_mono (d1 d2 ttl : Z) :
  d1 <= d2 -> served_ttl d2 ttl <= served_ttl d1 ttl \/ served_ttl d2 ttl = 3.
Proof.
  intros Hd. unfold served_ttl.
  destruct (ttl - d2 <=? 0) eqn:E2; [now right|].
  apply Z.leb_gt in E2.
  destruct (ttl - d1 <=? 0) eqn:E1; [apply Z.leb_le in E1; lia|].
  left. lia.
Qed.

Lemma elapsed_young (now t : Time) :
  t <= now -> now - t < 2 ^ 24 * Second ->
  Seconds_int (Time_Sub now t) = elapsed_seconds now t.
Proof.
  intros Hle Hy. rewrite Time_Sub_exact by (unfold maxDuration, Second in *; lia).
  rewrite Seconds_int_exact by lia. reflexivity.
Qed.

(** C3 (amended): on a hit read no earlier than the entry was stored, every
    record of the returned reply, in all three sections, has a TTL of at
    least 1 second. *)
Theorem LookupCache_ttl_positive (s : Server) (req : Msg) (net : string)
        (now : Time) (key : string) (c : cacheEntry) :
  genCacheKey req net = Ok key ->
  Cache_find key (items (cache s)) = Some (VEntry c) ->
  ttls_uint32 (reply c) ->
  putin c <= now ->
  exists r s' tr,
    LookupCache s req net now = Ok (Some r, true, s', tr) /\
    Forall (fun rr => 1 <= Ttl (Header rr)) (records r).
Proof.
  intros Hk Hf Hu Hle.
  rewrite (LookupCache_hit s req net now key c Hk Hf). cbv zeta.
  destruct (elapsed_delta now (putin c) Hle) as [H0 Hi].
  rewrite (subTTL_spec _ (reply c) Hu H0 Hi). simpl.
  do 3 eexists. split; [reflexivity|].
  rewrite records_rewritten. apply Forall_map, Forall_forall.
  intros rr _. unfold rewrite_rr. rewrite Header_set_Ttl. apply served_ttl_positive.
Qed.

(** C7: for a stored reply read at two instants, the later after the
    earlier and neither before the insertion, each record's TTL in the
    later reply is at most its TTL in the earlier reply, or is 3. *)
Theorem LookupCache_ttl_monotone (s : Server) (req : Msg) (net : string)
        (now1 now2 : Time) (key : string) (c : cacheEntry) :
  genCacheKey req net = Ok key ->
  Cache_find key (items (cache s)) = Some (VEntry c) ->
  ttls_uint32 (reply c) ->
  putin c <= now1 -> now1 < now2 ->
  exists r1 r2 s1 s2 tr1 tr2,
    LookupCache s req net now1 = Ok (Some r1, true, s1, tr1) /\
    LookupCache s req net now2 = Ok (Some r2, true, s2, tr2) /\
    Forall2 (fun rr1 rr2 =>
               Ttl (Header rr2) <= Ttl (Header rr1) \/ Ttl (Header rr2) = 3)
            (records r1) (records r2).
Proof.
  intros Hk Hf Hu Hle Hlt.
  rewrite !(LookupCache_hit s req net _ key c Hk Hf). cbv zeta.
  destruct (elapsed_delta now1 (putin c) Hle) as [H1 Hi1].
  destruct (elapsed_delta now2 (putin c)) as [H2 Hi2]; [lia|].
  rewrite (subTTL_spec _ (reply c) Hu H1 Hi1), (subTTL_spec _ (reply c) Hu H2 Hi2).
  simpl. do 6 eexists. split; [reflexivity|]. split; [reflexivity|].
  assert (Hd : Seconds_int (Time_Sub now1 (putin c)) <= Seconds_int (Time_Sub now2 (putin c))).
  { apply Seconds_int_mono.
    - apply Time_Sub_nonneg; exact Hle.
    - apply Time_Sub_mono; lia.
    - apply Time_Sub_nonneg; lia. }
  rewrite !records_rewritten.
  induction (records (reply c)) as [|rr rrs IH]; simpl; constructor; [|exact IH].
  unfold rewrite_rr. rewrite !Header_set_Ttl. apply served_ttl_mono. exact Hd.
Qed.

End CacheReadFacts.

(** *** Worked reads of the cached example reply *)

Lemma example_entry_stored :
  genCacheKey example_req "udp" = Ok "example.com._A_1_udp" /\
  Cache_find "example.com._A_1_udp" (items (cache cached_server)) = Some (VEntry example_entry).
Proof. split; reflexivity. Qed.

Lemma example_ttls_uint32 : ttls_uint32 (reply example_entry).
Proof.
  unfold ttls_uint32. simpl. constructor; [|constructor].
  unfold is_uint32. simpl. lia.
Defined.

(** C3 (as stated, refuted): stored with TTL 60 and read 58 seconds later,
    the record is served with TTL 2, which is below 3. *)
Lemma LookupCache_serves_ttl_2 :
  exists r s' tr,
    LookupCache cached_server example_req "udp" (58 * sec) = Ok (Some r, true, s', tr) /\
    ttls_of r = [2] /\
    ~ Forall (fun rr => 3 <= Ttl (Header rr)) (records r).
Proof.
  do 3 eexists. split; [vm_compute; reflexivity|]. split; [reflexivity|].
  intros HF. inversion HF as [|rr rrs Hrr _]. vm_compute in Hrr. apply Hrr. reflexivity.
Qed.

Lemma LookupCache_ttl_positive_witness :
  exists r s' tr,
    LookupCache cached_server example_req "udp" (58 * sec) = Ok (Some r, true, s', tr) /\
    Forall (fun rr => 1 <= Ttl (Header rr)) (records r).
Proof.
  apply (LookupCache_ttl_positive cached_server example_req "udp" (58 * sec)
           "example.com._A_1_udp" example_entry).
  - reflexivity.
  - reflexivity.
  - exact example_ttls_uint32.
  - vm_compute. discriminate.
Defined.

(** C5 (the code at the failing input): an entry whose record has TTL
    16777217 is stored at instant 0 and read 16777216.999999999 seconds
    later.  The whole seconds elapsed are 16777216, so the reply in the
    specification's words carries TTL 1 and no refresh is due.  The code
    converts the duration with [Seconds], whose [float64] sum rounds up to
    16777217.0: it subtracts 16777217, finds a TTL that is not positive,
    serves 3 and starts the refresh goroutine. *)
Theorem LookupCache_aged_hit_rounds_up :
  ttls_uint32 aged_reply /\
  Cache_find "example.com._A_1_udp" (items (cache aged_server)) =
    Some (VEntry (mkEntry 0 aged_reply)) /\
  elapsed_seconds aged_now 0 = 16777216 /\
  ttls_of (rewritten (elapsed_seconds aged_now 0) aged_reply) = [1] /\
  refresh_needed (elapsed_seconds aged_now 0) aged_reply = false /\
  Seconds_int (Time_Sub aged_now 0) = 16777217 /\
  exists r s',
    LookupCache aged_server example_req "udp" aged_now =
      Ok (Some r, true, s',
          [EvCacheGet "example.com._A_1_udp"; EvGo (Refresh example_req "udp")]) /\
    ttls_of r = [3].
Proof.
  split.
  { unfold ttls_uint32. simpl. constructor; [|constructor].
    unfold is_uint32. simpl. lia. }
  split; [reflexivity|]. split; [reflexivity|]. split; [reflexivity|].
  split; [reflexivity|]. split; [vm_compute; reflexivity|].
  do 2 eexists. split; [vm_compute; reflexivity|]. reflexivity.
Qed.

Lemma LookupCache_ttl_monotone_witness :
  exists r1 r2 s1 s2 tr1 tr2,
    LookupCache cached_server example_req "udp" (10 * sec) = Ok (Some r1, true, s1, tr1) /\
    LookupCache cached_server example_req "udp" (65 * sec) = Ok (Some r2, true, s2, tr2) /\
    Forall2 (fun rr1 rr2 =>
               Ttl (Header rr2) <= Ttl (Header rr1) \/ Ttl (Header rr2) = 3)
            (records r1) (records r2).
Proof.
  apply (LookupCache_ttl_monotone cached_server example_req "udp" (10 * sec) (65 * sec)
           "example.com._A_1_udp" example_entry).
  - reflexivity.
  - reflexivity.
  - exact example_ttls_uint32.
  - vm_compute. discriminate.
  - reflexivity.
Defined.

(** ** The stores *)

Section StoreFacts.
Variable P : value -> Prop.

Lemma all_values_NewCache (n : nat) : all_values P (NewCache n).
Proof. constructor. Qed.

Lemma Cache_find_all_values (k : string) (l : list (string * value)) (v : value) :
  Forall (fun kv => P (snd kv)) l -> Cache_find k l = Some v -> P v.
Proof.
  induction 1 as [|[k' v'] l Hkv _ IH]; simpl; [discriminate|].
  destruct (String.eqb k' k); [|exact IH].
  intros [= <-]. exact Hkv.
Qed.

Lemma Cache_remove_all_values (k : string) (l : list (string * value)) :
  Forall (fun kv => P (snd kv)) l -> Forall (fun kv => P (snd kv)) (Cache_remove k l).
Proof.
  unfold Cache_remove. induction 1 as [|kv l Hkv _ IH]; simpl; [constructor|].
  destruct (negb (String.eqb (fst kv) k)); [constructor|]; assumption.
Qed.

Lemma firstn_Forall {A : Type} (Q : A -> Prop) (n : nat) (l : list A) :
  Forall Q l -> Forall Q (firstn n l).
Proof.
  intros HF. revert n. induction HF as [|x l Hx _ IH]; intros [|n]; simpl;
    constructor; auto.
Qed.

Lemma Cache_Set_all_values (c : Cache) (k : string) (v : value) :
  all_values P c -> P v -> all_values P (Cache_Set c k v).
Proof.
  unfold all_values, Cache_Set. simpl. intros Hc Hv.
  apply firstn_Forall. constructor; [exact Hv|].
  apply Cache_remove_all_values. exact Hc.
Qed.

Lemma Cache_Get_all_values (c : Cache) (k : string) :
  all_values P c ->
  all_values P (snd (Cache_Get c k)) /\
  (forall v, fst (Cache_Get c k) = Some v -> P v).
Proof.
  unfold all_values, Cache_Get. intros Hc.
  destruct (Cache_find k (items c)) as [v|] eqn:E; simpl.
  - pose proof (Cache_find_all_values k _ v Hc E) as Hv. split.
    + constructor; [exact Hv|]. apply Cache_remove_all_values. exact Hc.
    + intros v' [= <-]. exact Hv.
  - split; [exact Hc|discriminate].
Qed.

End StoreFacts.

(** ** The classifier *)

Section ClassifierFacts.
Context `{ChinaIP}.

(** What a call of the classifier does to the server: the answer cache and
    the configuration are left alone, and the hint store either receives
    the verdict of [containChinaIP] under the reply's query name, in the
    A-record branch, or is read. *)
Lemma maybePolluted_effect (s : Server) (res : Msg) (p : bool) (s' : Server) :
  maybePolluted s res = Ok (p, s') ->
  config s' = config s /\ cache s' = cache s /\
  (s' = s \/
   (exists q, containA res = true /\ index0 (Questions res) = Ok q /\
              chinaDom s' = Cache_Set (chinaDom s) (Name q) (VBool (containChinaIP res))) \/
   (exists q, containA res = false /\ index0 (Questions res) = Ok q /\
              chinaDom s' = snd (Cache_Get (chinaDom s) (Name q)))).
Proof.
  unfold maybePolluted.
  destruct (len (Answer res) + len (Ns res) + len (Extra res) =? 0).
  { intros [= <- <-]. auto. }
  destruct (containA res) eqn:EA.
  - destruct (index0 (Questions res)) as [q|] eqn:Eq; simpl; [|discriminate].
    intros [= <- <-]. simpl. repeat split. right. left. exists q. auto.
  - destruct (index0 (Questions res)) as [q|] eqn:Eq; simpl; [|discriminate].
    destruct (Cache_Get (chinaDom s) (Name q)) as [china dom'] eqn:EG.
    assert (Hs : config (with_chinaDom s dom') = config s /\
                 cache (with_chinaDom s dom') = cache s /\
                 (with_chinaDom s dom' = s \/
                  (exists q, false = true /\ index0 (Questions res) = Ok q /\
                     chinaDom (with_chinaDom s dom') =
                       Cache_Set (chinaDom s) (Name q) (VBool (containChinaIP res))) \/
                  (exists q, false = false /\ index0 (Questions res) = Ok q /\
                     chinaDom (with_chinaDom s dom') = snd (Cache_Get (chinaDom s) (Name q))))).
    { simpl. repeat split. right. right. exists q. rewrite EG. auto. }
    rewrite Eq in Hs.
    destruct china as [[b|e]|]; cbn [bind assert_bool].
    + intros [= _ <-]. exact Hs.
    + discriminate.
    + intros [= _ <-]. exact Hs.
Qed.

Lemma maybePolluted_keeps_hints (s : Server) (res : Msg) (p : bool) (s' : Server) :
  all_values is_hint (chinaDom s) ->
  maybePolluted s res = Ok (p, s') ->
  all_values is_hint (chinaDom s').
Proof.
  intros Hs Hm.
  destruct (maybePolluted_effect s res p s' Hm)
    as (_ & _ & [-> | [(q & _ & _ & E) | (q & _ & _ & E)]]).
  - exact Hs.
  - rewrite E. apply Cache_Set_all_values; [exact Hs|]. eexists; reflexivity.
  - rewrite E. apply Cache_Get_all_values. exact Hs.
Qed.

(** The two ways the classifier can panic. *)
Lemma maybePolluted_panics (s : Server) (res : Msg) (p : panic) :
  maybePolluted s res = Panic p ->
  (p = IndexOutOfRange /\ Questions res = []) \/
  (p = TypeAssertion /\ ~ all_values is_hint (chinaDom s)).
Proof.
  unfold maybePolluted.
  destruct (len (Answer res) + len (Ns res) + len (Extra res) =? 0); [discriminate|].
  destruct (Questions res) as [|q qs]; simpl.
  - destruct (containA res); simpl; intros [= <-]; left; auto.
  - destruct (containA res); simpl; [discriminate|].
    destruct (Cache_Get (chinaDom s) (Name q)) as [[[b|e]|] dom'] eqn:EG;
      simpl; try discriminate.
    intros [= <-]. right. split; [reflexivity|]. intros Hs.
    destruct (Cache_Get_all_values is_hint (chinaDom s) (Name q) Hs) as [_ Hv].
    rewrite EG in Hv. destruct (Hv _ eq_refl) as [b Hb]. discriminate.
Qed.

Lemma maybePolluted_assertion_holds (s : Server) (res : Msg) :
  all_values is_hint (chinaDom s) ->
  maybePolluted s res <> Panic TypeAssertion.
Proof.
  intros Hs E. destruct (maybePolluted_panics s res _ E) as [[? _]|[_ Hn]].
  - discriminate.
  - exact (Hn Hs).
Qed.

(** C1 (amended): for a reply whose three sections together are not empty
    and hold no A-record, when the hint store has an entry for the reply's
    query name the classifier returns polluted exactly when the stored hint
    is false, that is when the name is not known to be a China domain. *)
Theorem maybePolluted_follows_hint (s : Server) (res : Msg) (q : Question)
        (qs : list Question) (hint : bool) :
  len (Answer res) + len (Ns res) + len (Extra res) <> 0 ->
  containA res = false ->
  Questions res = q :: qs ->
  Cache_find (Name q) (items (chinaDom s)) = Some (VBool hint) ->
  maybePolluted s res =
    Ok (negb hint, with_chinaDom s (snd (Cache_Get (chinaDom s) (Name q)))).
Proof.
  intros Hn HA HQ Hf. unfold maybePolluted.
  apply Z.eqb_neq in Hn. rewrite Hn, HA, HQ. simpl.
  rewrite (Cache_Get_hit _ _ _ Hf). reflexivity.
Qed.

End ClassifierFacts.

(** C1 (as stated, refuted): with the hint [baidu.com. -> true] stored, a
    reply that carries records but no A-record is reported trustworthy, not
    polluted. *)
Lemma maybePolluted_china_hint_trusted :
  len (Answer baidu_reply_AAAA) + len (Ns baidu_reply_AAAA) + len (Extra baidu_reply_AAAA) <> 0 /\
  containA baidu_reply_AAAA = false /\
  Cache_find "baidu.com." (items (chinaDom hinted_server)) = Some (VBool true) /\
  maybePolluted hinted_server baidu_reply_AAAA = Ok (false, hinted_server).
Proof.
  split; [vm_compute; discriminate|]. repeat split; reflexivity.
Qed.

Lemma maybePolluted_follows_hint_witness :
  maybePolluted hinted_server baidu_reply_AAAA =
    Ok (negb true,
        with_chinaDom hinted_server (snd (Cache_Get (chinaDom hinted_server) "baidu.com."))).
Proof.
  apply (maybePolluted_follows_hint hinted_server baidu_reply_AAAA
           (mkQuestion "baidu.com." TypeAAAA ClassINET) [] true).
  - vm_compute. discriminate.
  - reflexivity.
  - reflexivity.
  - reflexivity.
Defined.

(** ** The race resolver *)

Section ResolverFacts.
Context `{DnsTables} `{ChinaIP}.

Lemma index0_nonempty {A : Type} (l : list A) :
  l <> [] -> exists x, index0 l = Ok x.
Proof. destruct l as [|x l]; [contradiction|]. intros _. exists x. reflexivity. Qed.

Lemma index0_Ok {A : Type} (l : list A) (x : A) : index0 l = Ok x -> l <> [].
Proof. destruct l; simpl; [discriminate|]. intros _. discriminate. Qed.

Lemma setCache_inv (s : Server) (res : Msg) (net : string) (now : Time)
      (s' : Server) (ev : list event) :
  setCache s res net now = Ok (s', ev) ->
  exists key, genCacheKey res net = Ok key /\
    s' = with_cache s (Cache_Set (cache s) key (VEntry (mkEntry now res))) /\
    ev = [EvCacheSet key].
Proof.
  unfold setCache. destruct (genCacheKey res net) as [key|] eqn:E; simpl; [|discriminate].
  intros [= <- <-]. exists key. auto.
Qed.

Lemma setCache_Ok (s : Server) (res : Msg) (net : string) (now : Time) :
  Questions res <> [] ->
  exists key, genCacheKey res net = Ok key /\
    setCache s res net now =
      Ok (with_cache s (Cache_Set (cache s) key (VEntry (mkEntry now res))), [EvCacheSet key]).
Proof.
  intros Hq. destruct (index0_nonempty _ Hq) as [q Eq].
  unfold setCache, genCacheKey. rewrite Eq. simpl. eexists. split; reflexivity.
Qed.

Lemma maybePolluted_trust_has_question (s : Server) (r : Msg) (s1 : Server) :
  maybePolluted s r = Ok (false, s1) -> Questions r <> [].
Proof.
  unfold maybePolluted.
  destruct (len (Answer r) + len (Ns r) + len (Extra r) =? 0); [discriminate|].
  destruct (Questions r); [|discriminate].
  destruct (containA r); simpl; discriminate.
Qed.

Lemma Q_clean_inv (s : Server) (req : Msg) (net : string) (ex : exchange)
      (m : option Msg) (s' : Server) (ev : list event) :
  Q s req net true ex = Ok (m, s', ev) -> m = ex_res ex /\ s' = s.
Proof.
  unfold Q, resolve.
  destruct (if ex_err ex then _ else _) as [logged|]; simpl; [|discriminate].
  destruct (ex_res ex); simpl; intros [= <- <- _]; auto.
Qed.

Lemma Q_clean_Ok (s : Server) (req : Msg) (net : string) (ex : exchange) :
  Questions req <> [] -> exists ev, Q s req net true ex = Ok (ex_res ex, s, ev).
Proof.
  intros Hq. destruct (index0_nonempty _ Hq) as [q Eq].
  unfold Q, resolve. rewrite Eq.
  destruct (ex_err ex); simpl; destruct (ex_res ex); simpl; eauto.
Qed.

Lemma Q_fast_inv (s : Server) (req : Msg) (net : string) (ex : exchange)
      (m : option Msg) (s' : Server) (ev : list event) :
  Q s req net false ex = Ok (m, s', ev) ->
  config s' = config s /\ cache s' = cache s /\
  (all_values is_hint (chinaDom s) -> all_values is_hint (chinaDom s')) /\
  (forall r, m = Some r ->
     ex_res ex = Some r /\ ex_err ex = false /\ Rcode r = RcodeSuccess /\
     maybePolluted s r = Ok (false, s')).
Proof.
  unfold Q, resolve.
  destruct (if ex_err ex then _ else _) as [logged|]; simpl; [|discriminate].
  destruct (ex_res ex) as [res|]; simpl.
  2:{ intros [= <- <- _]. split; [|split; [|split]]; auto. discriminate. }
  destruct (Rcode res =? RcodeSuccess) eqn:ER; simpl.
  2:{ intros [= <- <- _]. split; [|split; [|split]]; auto. discriminate. }
  destruct (ex_err ex) eqn:EE; simpl.
  { intros [= <- <- _]. split; [|split; [|split]]; auto. discriminate. }
  destruct (maybePolluted s res) as [[p s1]|] eqn:EM; simpl; [|discriminate].
  destruct (maybePolluted_effect s res p s1 EM) as (Hc & Hk & _).
  pose proof (fun Hs => maybePolluted_keeps_hints s res p s1 Hs EM) as Hh.
  destruct p; intros [= <- <- _]; (split; [|split; [|split]]); auto; try discriminate.
  intros r [= <-]. apply Z.eqb_eq in ER. auto.
Qed.

Lemma Q_fast_accept (s : Server) (req : Msg) (net : string) (ex : exchange)
      (r : Msg) (s1 : Server) :
  ex_res ex = Some r -> ex_err ex = false -> Rcode r = RcodeSuccess ->
  maybePolluted s r = Ok (false, s1) ->
  Q s req net false ex = Ok (Some r, s1, [EvExchange (FastDNS (config s)) net]).
Proof.
  intros Er Ee Ec Em. unfold Q, resolve. rewrite Er, Ee. simpl.
  rewrite Ec, Em. reflexivity.
Qed.

Lemma Q_fast_Ok (s : Server) (req : Msg) (net : string) (ex : exchange) :
  Questions req <> [] -> has_question ex -> all_values is_hint (chinaDom s) ->
  exists m s1 ev, Q s req net false ex = Ok (m, s1, ev).
Proof.
  intros Hq Hx Hs. destruct (index0_nonempty _ Hq) as [q Eq].
  unfold Q, resolve. rewrite Eq.
  assert (Hl : exists logged,
             (if ex_err ex
              then bind (Ok q) (fun q0 => Ok [EvLog Error [("op", "Resolve");
                     ("upstream", FastDNS (config s)); ("domain", Name q0)]])
              else Ok []) = Ok logged).
  { destruct (ex_err ex); simpl; eauto. }
  destruct Hl as [logged ->]. simpl.
  destruct (ex_res ex) as [res|] eqn:Er; simpl; [|eauto].
  destruct (Rcode res =? RcodeSuccess); simpl; [|eauto].
  destruct (ex_err ex); simpl; [eauto|].
  destruct (maybePolluted s res) as [[[|] s1]|p] eqn:EM; simpl; eauto.
  exfalso. destruct (maybePolluted_panics s res p EM) as [[_ Hn]|[_ Hn]].
  - exact (Hx res Er Hn).
  - exact (Hn Hs).
Qed.

Lemma goQ_clean_inv (s : Server) (req : Msg) (net : string) (in_time : bool)
      (ex : exchange) (m : option Msg) (s' : Server) (ev : list event) :
  goQ s req net true in_time ex = Ok (m, s', ev) ->
  m = (if in_time then ex_res ex else None) /\ s' = s.
Proof.
  unfold goQ. destruct in_time.
  - apply Q_clean_inv.
  - intros [= <- <- _]. auto.
Qed.

Lemma goQ_clean_Ok (s : Server) (req : Msg) (net : string) (in_time : bool)
      (ex : exchange) :
  Questions req <> [] ->
  exists ev, goQ s req net true in_time ex = Ok (if in_time then ex_res ex else None, s, ev).
Proof.
  intros Hq. unfold goQ. destruct in_time.
  - apply Q_clean_Ok. exact Hq.
  - eexists. reflexivity.
Qed.

Lemma goQ_fast_inv (s : Server) (req : Msg) (net : string) (in_time : bool)
      (ex : exchange) (m : option Msg) (s' : Server) (ev : list event) :
  goQ s req net false in_time ex = Ok (m, s', ev) ->
  config s' = config s /\ cache s' = cache s /\
  (all_values is_hint (chinaDom s) -> all_values is_hint (chinaDom s')) /\
  (forall r, m = Some r ->
     in_time = true /\
     ex_res ex = Some r /\ ex_err ex = false /\ Rcode r = RcodeSuccess /\
     maybePolluted s r = Ok (false, s')).
Proof.
  unfold goQ. destruct in_time.
  - intros E. destruct (Q_fast_inv _ _ _ _ _ _ _ E) as (Hc & Hk & Hh & Hacc).
    split; [exact Hc|]. split; [exact Hk|]. split; [exact Hh|].
    intros r Hr. split; [reflexivity|]. exact (Hacc r Hr).
  - intros [= <- <- _]. split; [|split; [|split]]; auto. discriminate.
Qed.

Lemma goQ_fast_accept (s : Server) (req : Msg) (net : string) (ex : exchange)
      (r : Msg) (s1 : Server) :
  ex_res ex = Some r -> ex_err ex = false -> Rcode r = RcodeSuccess ->
  maybePolluted s r = Ok (false, s1) ->
  goQ s req net false true ex = Ok (Some r, s1, [EvExchange (FastDNS (config s)) net]).
Proof. apply Q_fast_accept. Qed.

Lemma goQ_fast_Ok (s : Server) (req : Msg) (net : string) (in_time : bool)
      (ex : exchange) :
  Questions req <> [] -> has_question ex -> all_values is_hint (chinaDom s) ->
  exists m s1 ev, goQ s req net false in_time ex = Ok (m, s1, ev).
Proof.
  intros Hq Hx Hs. unfold goQ. destruct in_time.
  - apply Q_fast_Ok; assumption.
  - do 3 eexists. reflexivity.
Qed.

(** The reply of the clean path: what the clean channel yielded, or the
    synthesized SERVFAIL. *)
Lemma LookupNet_Qs (s : Server) (req : Msg) (net : string) (env : netenv)
      (out : option Msg * string * bool * Server * list event) :
  LookupNet s req net env = Ok out ->
  exists evc fastMsg s1 evf,
    goQ s req net true (clean_in_time env) (clean_ex env) = Ok (clean_yield env, s, evc) /\
    goQ s req net false (fast_in_time env) (fast_ex env) = Ok (fastMsg, s1, evf).
Proof.
  unfold LookupNet.
  destruct (goQ s req net true (clean_in_time env) (clean_ex env))
    as [[[cleanMsg s0] evc]|] eqn:EC; simpl; [|discriminate].
  destruct (goQ_clean_inv _ _ _ _ _ _ _ _ EC) as [-> ->].
  destruct (goQ s req net false (fast_in_time env) (fast_ex env))
    as [[[fastMsg s1] evf]|] eqn:EF; simpl; [|discriminate].
  intros _. eauto 6.
Qed.

Lemma LookupNet_unfold (s : Server) (req : Msg) (net : string) (env : netenv)
      (evc : list event) (fastMsg : option Msg) (s1 : Server) (evf : list event) :
  goQ s req net true (clean_in_time env) (clean_ex env) = Ok (clean_yield env, s, evc) ->
  goQ s req net false (fast_in_time env) (fast_ex env) = Ok (fastMsg, s1, evf) ->
  LookupNet s req net env =
    match fastMsg with
    | Some res =>
        '(s2, evs) <- setCache s1 res net (now_set env) ;;
        Ok (Some res, FastDNS (config s2), false, s2, (evc ++ evf ++ evs)%list)
    | None =>
        let res := match clean_yield env with
                   | Some res => res
                   | None => SetRcode empty_Msg req RcodeServerFailure
                   end in
        '(s2, evs) <- (if Rcode res =? RcodeSuccess
                       then setCache s1 res net (now_set env)
                       else Ok (s1, [])) ;;
        Ok (Some res, CleanDNS (config s2), false, s2, (evc ++ evf ++ evs)%list)
    end.
Proof.
  intros EC EF. unfold LookupNet. rewrite EC. simpl. rewrite EF. simpl.
  destruct fastMsg as [res|].
  - destruct (setCache s1 res net (now_set env)) as [[s2 evs]|]; simpl; [|reflexivity].
    now rewrite app_assoc.
  - destruct (if Rcode _ =? RcodeSuccess then _ else _) as [[s2 evs]|]; simpl; [|reflexivity].
    now rewrite app_assoc.
Qed.

Lemma setCache_config (s : Server) (res : Msg) (net : string) (now : Time)
      (s' : Server) (ev : list event) :
  setCache s res net now = Ok (s', ev) ->
  config s' = config s /\ chinaDom s' = chinaDom s.
Proof.
  intros E. destruct (setCache_inv _ _ _ _ _ _ E) as (key & _ & -> & _). auto.
Qed.

(** What one call of the resolver does to the answer cache: nothing, or one
    insertion of the reply it returns, whose response code is NOERROR. *)
Lemma LookupNet_effect (s : Server) (req : Msg) (net : string) (env : netenv)
      (m : option Msg) (label : string) (err : bool) (s' : Server) (tr : list event) :
  LookupNet s req net env = Ok (m, label, err, s', tr) ->
  config s' = config s /\
  (all_values is_hint (chinaDom s) -> all_values is_hint (chinaDom s')) /\
  (cache s' = cache s \/
   exists r key, m = Some r /\ Rcode r = RcodeSuccess /\
     genCacheKey r net = Ok key /\
     cache s' = Cache_Set (cache s) key (VEntry (mkEntry (now_set env) r))).
Proof.
  intros E. destruct (LookupNet_Qs _ _ _ _ _ E) as (evc & fastMsg & s1 & evf & EC & EF).
  rewrite (LookupNet_unfold _ _ _ _ _ _ _ _ EC EF) in E.
  destruct (goQ_fast_inv _ _ _ _ _ _ _ _ EF) as (Hc & Hk & Hh & Hacc).
  destruct fastMsg as [res|].
  - destruct (Hacc res eq_refl) as (_ & _ & _ & Hr & _).
    destruct (setCache s1 res net (now_set env)) as [[s2 evs]|] eqn:ES;
      simpl in E; [|discriminate].
    injection E as <- <- <- <- <-.
    destruct (setCache_inv _ _ _ _ _ _ ES) as (key & Ek & -> & _). simpl.
    split; [exact Hc|]. split; [exact Hh|].
    right. exists res, key. rewrite Hk. auto.
  - cbv zeta in E.
    set (res := match clean_yield env with
                | Some res => res
                | None => SetRcode empty_Msg req RcodeServerFailure
                end) in *.
    destruct (Rcode res =? RcodeSuccess) eqn:Hr.
    + destruct (setCache s1 res net (now_set env)) as [[s2 evs]|] eqn:ES;
        simpl in E; [|discriminate].
      injection E as <- <- <- <- <-.
      destruct (setCache_inv _ _ _ _ _ _ ES) as (key & Ek & -> & _). simpl.
      split; [exact Hc|]. split; [exact Hh|].
      right. exists res, key. rewrite Hk. apply Z.eqb_eq in Hr. auto.
    + simpl in E. injection E as <- <- <- <- <-.
      split; [exact Hc|]. split; [exact Hh|]. left. exact Hk.
Qed.

(** C2: the fast upstream's reply is served exactly when it is accepted
    (no transport error, before the deadline, NOERROR, classified
    trustworthy).  When it is accepted, whatever the clean upstream did, the
    resolver puts it in the cache and returns it with the fast upstream's
    address as label; when it is not, whatever the resolver returns is the
    clean channel's reply or the synthesized SERVFAIL, under the clean
    upstream's address. *)
Theorem LookupNet_fast_first (s : Server) (req : Msg) (net : string) (env : netenv) :
  Questions req <> [] ->
  (forall r s1, fast_accepted s env r s1 ->
     exists key tr,
       genCacheKey r net = Ok key /\
       LookupNet s req net env =
         Ok (Some r, FastDNS (config s), false,
             with_cache s1 (Cache_Set (cache s) key (VEntry (mkEntry (now_set env) r))),
             tr) /\
       In (EvCacheSet key) tr) /\
  ((forall r s1, ~ fast_accepted s env r s1) ->
     forall m label err s' tr,
       LookupNet s req net env = Ok (m, label, err, s', tr) ->
       label = CleanDNS (config s) /\
       m = Some (match clean_yield env with
                 | Some res => res
                 | None => SetRcode empty_Msg req RcodeServerFailure
                 end)).
Proof.
  intros Hq. split.
  - intros r s1 (Er & Ee & Et & Ec & Em).
    destruct (goQ_clean_Ok s req net (clean_in_time env) (clean_ex env) Hq) as [evc EC].
    pose proof (goQ_fast_accept s req net (fast_ex env) r s1 Er Ee Ec Em) as EF.
    rewrite <- Et in EF.
    rewrite (LookupNet_unfold _ _ _ _ _ _ _ _ EC EF).
    destruct (setCache_Ok s1 r net (now_set env)) as (key & Ek & ->).
    { exact (maybePolluted_trust_has_question _ _ _ Em). }
    destruct (maybePolluted_effect _ _ _ _ Em) as (Hc & Hk & _).
    simpl. rewrite Hc, Hk. exists key. eexists. split; [exact Ek|].
    split; [reflexivity|]. apply in_or_app. right. simpl. auto.
  - intros Hno m label err s' tr E.
    destruct (LookupNet_Qs _ _ _ _ _ E) as (evc & fastMsg & s1 & evf & EC & EF).
    rewrite (LookupNet_unfold _ _ _ _ _ _ _ _ EC EF) in E.
    destruct (goQ_fast_inv _ _ _ _ _ _ _ _ EF) as (Hc & _ & _ & Hacc).
    destruct fastMsg as [r|].
    + exfalso. destruct (Hacc r eq_refl) as (Et & Er & Ee & Ec & Em).
      apply (Hno r s1). repeat split; assumption.
    + cbv zeta in E.
      destruct (if Rcode _ =? RcodeSuccess then _ else _) as [[s2 evs]|] eqn:ES;
        simpl in E; [|discriminate].
      injection E as <- <- <- <- <-. split; [|reflexivity].
      destruct (Rcode _ =? RcodeSuccess).
      * destruct (setCache_config _ _ _ _ _ _ ES) as [-> _]. now rewrite Hc.
      * injection ES as <- <-. now rewrite Hc.
Qed.

Lemma Rcode_SetRcode (m req : Msg) (rcode : Z) : Rcode (SetRcode m req rcode) = rcode.
Proof. reflexivity. Qed.

Lemma SetRcode_same_code (m req : Msg) :
  Rcode (SetRcode m req (Rcode m)) = Rcode m /\
  records (SetRcode m req (Rcode m)) = records m.
Proof. split; reflexivity. Qed.

Lemma Q_events (s : Server) (req : Msg) (net : string) (useClean : bool)
      (ex : exchange) (m : option Msg) (s' : Server) (ev : list event) :
  Q s req net useClean ex = Ok (m, s', ev) ->
  forall key, ~ In (EvCacheSet key) ev.
Proof.
  unfold Q, resolve. intros E key.
  assert (Hev : forall logged : list event,
            (logged = [] \/ exists f, logged = [EvLog Error f]) ->
            ~ In (EvCacheSet key)
                ([EvExchange (if useClean then CleanDNS (config s) else FastDNS (config s)) net]
                   ++ logged)%list).
  { intros logged [-> | [f ->]]; simpl; intros [Hx | Hx]; try discriminate;
      try contradiction. destruct Hx as [Hx|[]]. discriminate. }
  destruct (if ex_err ex then _ else _) as [logged|] eqn:EL; simpl in E; [|discriminate].
  assert (Hl : logged = [] \/ exists f, logged = [EvLog Error f]).
  { destruct (ex_err ex).
    - destruct (index0 (Questions req)); simpl in EL; [|discriminate].
      injection EL as <-. right. eexists. reflexivity.
    - injection EL as <-. now left. }
  specialize (Hev logged Hl).
  destruct (ex_res ex) as [res|]; simpl in E.
  - destruct (if negb useClean then _ else _) as [[d s1]|]; simpl in E; [|discriminate].
    destruct d; injection E as _ _ <-; exact Hev.
  - injection E as _ _ <-. exact Hev.
Qed.

Lemma goQ_events (s : Server) (req : Msg) (net : string) (useClean in_time : bool)
      (ex : exchange) (m : option Msg) (s' : Server) (ev : list event) :
  goQ s req net useClean in_time ex = Ok (m, s', ev) ->
  forall key, ~ In (EvCacheSet key) ev.
Proof.
  unfold goQ. destruct in_time.
  - apply Q_events.
  - intros [= _ _ <-] key [Hx|Hin]; [discriminate|].
    destruct useClean; [contradiction|].
    destruct Hin as [Hx|[]]. discriminate.
Qed.

Lemma Q_trace (s : Server) (req : Msg) (net : string) (useClean : bool)
      (ex : exchange) (m : option Msg) (s' : Server) (ev : list event) :
  Q s req net useClean ex = Ok (m, s', ev) ->
  exists logged,
    ev = EvExchange (if useClean then CleanDNS (config s) else FastDNS (config s)) net
           :: logged /\
    forallb is_net_event logged = true.
Proof.
  unfold Q, resolve. intros E.
  destruct (if ex_err ex then _ else _) as [logged|] eqn:EL; simpl in E; [|discriminate].
  assert (Hl : forallb is_net_event logged = true).
  { destruct (ex_err ex).
    - destruct (index0 (Questions req)); simpl in EL; [|discriminate].
      injection EL as <-. reflexivity.
    - injection EL as <-. reflexivity. }
  exists logged. split; [|exact Hl].
  destruct (ex_res ex) as [res|]; simpl in E.
  - destruct (if negb useClean then _ else _) as [[d s1]|]; simpl in E; [|discriminate].
    destruct d; injection E as _ _ <-; reflexivity.
  - injection E as _ _ <-. reflexivity.
Qed.

Lemma goQ_trace (s : Server) (req : Msg) (net : string) (useClean in_time : bool)
      (ex : exchange) (m : option Msg) (s' : Server) (ev : list event) :
  goQ s req net useClean in_time ex = Ok (m, s', ev) ->
  exists logged,
    ev = EvExchange (if useClean then CleanDNS (config s) else FastDNS (config s)) net
           :: logged /\
    forallb is_net_event logged = true.
Proof.
  unfold goQ. destruct in_time.
  - apply Q_trace.
  - intros [= _ _ <-]. eexists. split; [reflexivity|]. destruct useClean; reflexivity.
Qed.

(** The shape of a returned call: the reply, where it came from, and the
    one cache write it may have made. *)
Lemma LookupNet_shape (s : Server) (req : Msg) (net : string) (env : netenv)
      (m : option Msg) (label : string) (err : bool) (s' : Server) (tr : list event) :
  LookupNet s req net env = Ok (m, label, err, s', tr) ->
  exists evc fastMsg s1 evf r evs,
    goQ s req net true (clean_in_time env) (clean_ex env) = Ok (clean_yield env, s, evc) /\
    goQ s req net false (fast_in_time env) (fast_ex env) = Ok (fastMsg, s1, evf) /\
    m = Some r /\ err = false /\ tr = (evc ++ evf ++ evs)%list /\
    ((fast_in_time env = true /\ fastMsg = Some r /\ label = FastDNS (config s))
     \/
     (fastMsg = None /\
      label = CleanDNS (config s) /\
      r = match clean_yield env with
          | Some res => res
          | None => SetRcode empty_Msg req RcodeServerFailure
          end)) /\
    ((Rcode r = RcodeSuccess /\ exists key,
        genCacheKey r net = Ok key /\ evs = [EvCacheSet key] /\
        s' = with_cache s1 (Cache_Set (cache s1) key (VEntry (mkEntry (now_set env) r))))
     \/
     (Rcode r <> RcodeSuccess /\ evs = [] /\ s' = s1)).
Proof.
  intros E. destruct (LookupNet_Qs _ _ _ _ _ E) as (evc & fastMsg & s1 & evf & EC & EF).
  rewrite (LookupNet_unfold _ _ _ _ _ _ _ _ EC EF) in E.
  destruct (goQ_fast_inv _ _ _ _ _ _ _ _ EF) as (Hc & Hk & _ & Hacc).
  exists evc, fastMsg, s1, evf.
  destruct fastMsg as [res|].
  - destruct (Hacc res eq_refl) as (Ht & _ & _ & Hr & _).
    destruct (setCache s1 res net (now_set env)) as [[s2 evs]|] eqn:ES;
      simpl in E; [|discriminate].
    injection E as <- <- <- <- <-.
    destruct (setCache_inv _ _ _ _ _ _ ES) as (key & Ek & -> & ->).
    exists res, [EvCacheSet key]. simpl. rewrite Hc.
    do 5 (split; [solve [auto]|]). split; [left; auto|].
    left. split; [exact Hr|]. exists key. auto.
  - cbv zeta in E.
    set (res := match clean_yield env with
                | Some res => res
                | None => SetRcode empty_Msg req RcodeServerFailure
                end) in *.
    destruct (Rcode res =? RcodeSuccess) eqn:Hr.
    + destruct (setCache s1 res net (now_set env)) as [[s2 evs]|] eqn:ES;
        simpl in E; [|discriminate].
      injection E as <- <- <- <- <-.
      destruct (setCache_inv _ _ _ _ _ _ ES) as (key & Ek & -> & ->).
      exists res, [EvCacheSet key]. simpl. rewrite Hc.
      do 5 (split; [solve [auto]|]). split; [right; auto|].
      left. apply Z.eqb_eq in Hr. split; [exact Hr|]. exists key. auto.
    + simpl in E. injection E as <- <- <- <- <-.
      exists res, []. rewrite Hc.
      do 5 (split; [solve [auto]|]). split; [right; auto|].
      right. apply Z.eqb_neq in Hr. auto.
Qed.

Lemma LookupNet_trace (s : Server) (req : Msg) (net : string) (env : netenv)
      (m : option Msg) (label : string) (err : bool) (s' : Server) (tr : list event) :
  LookupNet s req net env = Ok (m, label, err, s', tr) ->
  forallb is_net_event tr = true /\
  In (EvExchange (CleanDNS (config s)) net) tr /\
  In (EvExchange (FastDNS (config s)) net) tr.
Proof.
  intros E.
  destruct (LookupNet_shape _ _ _ _ _ _ _ _ _ E)
    as (evc & fastMsg & s1 & evf & r & evs & EC & EF & _ & _ & -> & _ & Hs).
  destruct (goQ_trace _ _ _ _ _ _ _ _ _ EC) as (lc & -> & Hlc).
  destruct (goQ_trace _ _ _ _ _ _ _ _ _ EF) as (lf & -> & Hlf).
  assert (Hevs : forallb is_net_event evs = true).
  { destruct Hs as [(_ & key & _ & -> & _) | (_ & -> & _)]; reflexivity. }
  rewrite !forallb_app. simpl. rewrite Hlc, Hlf, Hevs.
  split; [reflexivity|]. split.
  - now left.
  - right. apply in_or_app. right. now left.
Qed.

Lemma stored_key_app (a b : list event) :
  (forall key, ~ In (EvCacheSet key) a) -> stored_key (a ++ b) = stored_key b.
Proof.
  induction a as [|e a IH]; intros Hn; [reflexivity|].
  assert (Ha : forall key, ~ In (EvCacheSet key) a).
  { intros key Hin. apply (Hn key). now right. }
  destruct e; simpl; try exact (IH Ha).
  exfalso. apply (Hn key). now left.
Qed.

(** The cache write of a returned call, read off its trace: the call wrote
    the cache exactly when the reply it returns has code NOERROR, and then
    it put that reply in front, under the reply's key. *)
Lemma LookupNet_stored_key (s : Server) (req : Msg) (net : string) (env : netenv)
      (r : Msg) (label : string) (err : bool) (s' : Server) (tr : list event) :
  LookupNet s req net env = Ok (Some r, label, err, s', tr) ->
  (Rcode r = RcodeSuccess /\
   exists key, genCacheKey r net = Ok key /\ stored_key tr = Some key /\
     cache s' = Cache_Set (cache s) key (VEntry (mkEntry (now_set env) r)))
  \/
  (Rcode r <> RcodeSuccess /\ stored_key tr = None /\ cache s' = cache s).
Proof.
  intros E.
  destruct (LookupNet_shape _ _ _ _ _ _ _ _ _ E)
    as (evc & fastMsg & s1 & evf & r' & evs & EC & EF & Hr' & _ & -> & _ & Hs).
  injection Hr' as <-.
  destruct (goQ_fast_inv _ _ _ _ _ _ _ _ EF) as (_ & Hk & _).
  assert (Hst : stored_key (evc ++ evf ++ evs) = stored_key evs).
  { rewrite stored_key_app by exact (goQ_events _ _ _ _ _ _ _ _ _ EC).
    apply stored_key_app. exact (goQ_events _ _ _ _ _ _ _ _ _ EF). }
  rewrite Hst.
  destruct Hs as [(Hr & key & Ek & -> & ->) | (Hn & -> & ->)].
  - left. split; [exact Hr|]. exists key. simpl. rewrite Hk. auto.
  - right. auto.
Qed.

End ResolverFacts.

(** ** The dispatcher and the running server *)

Section ServerFacts.
Context `{DnsTables} `{ChinaIP}.

(** A cache read only reorders the answer cache. *)
Lemma LookupCache_effect (s : Server) (req : Msg) (net : string) (now : Time)
      (m : option Msg) (hit : bool) (s' : Server) (tr : list event) :
  LookupCache s req net now = Ok (m, hit, s', tr) ->
  exists key, s' = with_cache s (snd (Cache_Get (cache s) key)).
Proof.
  unfold LookupCache.
  destruct (genCacheKey req net) as [key|]; simpl; [|discriminate].
  destruct (Cache_Get (cache s) key) as [[[b|c]|] cache'] eqn:EG; simpl; try discriminate.
  - destruct (subTTL (Copy (reply c)) _) as [r nu].
    intros [= _ _ <- _]. exists key. now rewrite EG.
  - intros [= _ _ <- _]. exists key. now rewrite EG.
Qed.

Lemma LookupCache_keeps_stores (s : Server) (req : Msg) (net : string) (now : Time)
      (m : option Msg) (hit : bool) (s' : Server) (tr : list event) :
  stores_ok s -> LookupCache s req net now = Ok (m, hit, s', tr) -> stores_ok s'.
Proof.
  intros [Hh Hc] E. destruct (LookupCache_effect _ _ _ _ _ _ _ _ E) as [key ->].
  split; [exact Hh|]. simpl. apply Cache_Get_all_values. exact Hc.
Qed.

Lemma LookupNet_keeps_stores (s : Server) (req : Msg) (net : string) (env : netenv)
      (m : option Msg) (label : string) (err : bool) (s' : Server) (tr : list event) :
  stores_ok s -> LookupNet s req net env = Ok (m, label, err, s', tr) -> stores_ok s'.
Proof.
  intros [Hh Hc] E.
  destruct (LookupNet_effect _ _ _ _ _ _ _ _ _ E)
    as (_ & Hh' & [Hk | (r & key & _ & Hr & _ & Hk)]).
  - split; [exact (Hh' Hh)|]. rewrite Hk. exact Hc.
  - split; [exact (Hh' Hh)|]. rewrite Hk.
    apply Cache_Set_all_values; [exact Hc|].
    eexists. split; [reflexivity|exact Hr].
Qed.

Lemma refresh_keeps_stores (s : Server) (req : Msg) (net : string) (env : netenv)
      (s' : Server) (tr : list event) :
  stores_ok s -> refresh s req net env = Ok (s', tr) -> stores_ok s'.
Proof.
  intros Hs. unfold refresh.
  destruct (LookupNet s req net env) as [[[[[m label] err] s1] ev]|] eqn:E;
    simpl; [|discriminate].
  destruct (index0 (Questions req)); simpl; [|discriminate].
  destruct m; [|discriminate].
  intros [= <- _]. exact (LookupNet_keeps_stores _ _ _ _ _ _ _ _ _ Hs E).
Qed.

Lemma Cache_stamp_noerror (c : Cache) (key : string) (m : Msg) :
  Rcode m = RcodeSuccess ->
  all_values is_noerror_entry c -> all_values is_noerror_entry (Cache_stamp c key m).
Proof.
  unfold all_values, Cache_stamp. intros Hm Hc.
  destruct (items c) as [|[k [b|e]] rest] eqn:Ei; try (rewrite Ei; exact Hc).
  destruct (String.eqb k key); [|rewrite Ei; exact Hc].
  simpl. inversion Hc as [|kv l _ Hrest]. constructor; [|exact Hrest].
  eexists. split; [reflexivity|exact Hm].
Qed.

(** The stamp of the dispatcher keeps the stores well formed: it reaches
    the cache only after a call of the resolver that stored its reply, and
    it leaves the response code as it is. *)
Lemma stamp_stored_keeps_stores (s : Server) (req : Msg) (net : string) (env : netenv)
      (r : Msg) (label : string) (err : bool) (s' : Server) (tr : list event) :
  LookupNet s req net env = Ok (Some r, label, err, s', tr) ->
  stores_ok s' ->
  stores_ok (stamp_stored s' (stored_key tr) (SetRcode r req (Rcode r))).
Proof.
  intros E [Hh Hc].
  destruct (LookupNet_stored_key _ _ _ _ _ _ _ _ _ E)
    as [(Hr & key & _ & -> & _) | (_ & -> & _)]; [|split; assumption].
  split; [exact Hh|]. simpl. apply Cache_stamp_noerror; [exact Hr|exact Hc].
Qed.

Lemma handle_keeps_stores (s : Server) (req : Msg) (net : string) (env : handleenv)
      (s' : Server) (tr : list event) :
  stores_ok s -> handle s req net env = Ok (s', tr) -> stores_ok s'.
Proof.
  intros Hs. unfold handle, LookupHosts.
  destruct (len (Questions req) <? 1).
  { intros [= <- _]. exact Hs. }
  destruct (index0 (Questions req)) as [q|]; simpl; [|discriminate].
  destruct (LookupCache s req net (now_get env)) as [[[[m hit] s1] evc]|] eqn:EC;
    simpl; [|discriminate].
  pose proof (LookupCache_keeps_stores _ _ _ _ _ _ _ _ Hs EC) as Hs1.
  destruct hit; simpl.
  - destruct m; [|discriminate]. intros [= <- _]. exact Hs1.
  - destruct (LookupNet s1 req net (net_env env)) as [[[[[m' label] err] s2] evn]|] eqn:EN;
      simpl; [|discriminate].
    pose proof (LookupNet_keeps_stores _ _ _ _ _ _ _ _ _ Hs1 EN) as Hs2.
    destruct m' as [r|]; intros [= <- _].
    + exact (stamp_stored_keeps_stores _ _ _ _ _ _ _ _ _ EN Hs2).
    + exact Hs2.
Qed.

Lemma Q_fast_keeps_stores (s : Server) (req : Msg) (net : string) (ex : exchange)
      (m : option Msg) (s' : Server) (ev : list event) :
  stores_ok s -> Q s req net false ex = Ok (m, s', ev) -> stores_ok s'.
Proof.
  intros [Hh Hc] E. destruct (Q_fast_inv _ _ _ _ _ _ _ E) as (_ & Hk & Hh' & _).
  split; [exact (Hh' Hh)|]. rewrite Hk. exact Hc.
Qed.

Lemma NewServer_stores (cfg : Config) : stores_ok (NewServer cfg).
Proof. split; apply all_values_NewCache. Qed.

Lemma reachable_stores_ok (cfg : Config) (sys : system) :
  reachable cfg sys -> stores_ok (srv sys).
Proof.
  induction 1 as [|sys sys' _ IH Hstep].
  - apply NewServer_stores.
  - destruct Hstep as [sys req net env s' tr E | sys pre post req net env s' tr _ E
                      | sys pre post req net ex m s' ev _ E]; simpl.
    + exact (handle_keeps_stores _ _ _ _ _ _ IH E).
    + exact (refresh_keeps_stores _ _ _ _ _ _ IH E).
    + exact (Q_fast_keeps_stores _ _ _ _ _ _ _ IH E).
Qed.

(** C8: in every state the server reaches, every entry of the answer cache
    holds a reply with response code NOERROR; and one call of the resolver
    either leaves the cache alone or inserts the reply it returns, whose
    response code is NOERROR. *)
Theorem cache_holds_noerror (cfg : Config) (sys : system) :
  reachable cfg sys ->
  all_values is_noerror_entry (cache (srv sys)) /\
  (forall req net env m label err s' tr,
     LookupNet (srv sys) req net env = Ok (m, label, err, s', tr) ->
     cache s' = cache (srv sys) \/
     exists r key, m = Some r /\ Rcode r = RcodeSuccess /\
       genCacheKey r net = Ok key /\
       cache s' = Cache_Set (cache (srv sys)) key (VEntry (mkEntry (now_set env) r))).
Proof.
  intros Hr. split.
  - apply (reachable_stores_ok cfg sys Hr).
  - intros req net env m label err s' tr E.
    apply (LookupNet_effect _ _ _ _ _ _ _ _ _ E).
Qed.

(** C10: in every state the server reaches, every value of the hint store
    is a boolean, so the assertion [china.(bool)] of the classifier does not
    panic; and a call of the classifier writes the store only in its
    A-record branch, with the verdict of [containChinaIP]. *)
Theorem hint_assertion_never_panics (cfg : Config) (sys : system) :
  reachable cfg sys ->
  all_values is_hint (chinaDom (srv sys)) /\
  (forall res, maybePolluted (srv sys) res <> Panic TypeAssertion) /\
  (forall res p s',
     maybePolluted (srv sys) res = Ok (p, s') ->
     (containA res = true /\
      exists q, index0 (Questions res) = Ok q /\
        chinaDom s' = Cache_Set (chinaDom (srv sys)) (Name q) (VBool (containChinaIP res))) \/
     (exists k, chinaDom s' = snd (Cache_Get (chinaDom (srv sys)) k)) \/
     chinaDom s' = chinaDom (srv sys)).
Proof.
  intros Hr. destruct (reachable_stores_ok cfg sys Hr) as [Hh _].
  split; [exact Hh|]. split.
  - intros res. apply maybePolluted_assertion_holds. exact Hh.
  - intros res p s' E.
    destruct (maybePolluted_effect _ _ _ _ E)
      as (_ & _ & [-> | [(q & HA & Hq & Hd) | (q & _ & _ & Hd)]]).
    + right. right. reflexivity.
    + left. split; [exact HA|]. exists q. auto.
    + right. left. exists (Name q). exact Hd.
Qed.

(** C9: for a message with an empty question section the dispatcher writes
    one reply, with the bad-name response code, logs a warning and returns;
    the hosts stub, the cache and the upstreams are not touched and the
    server is as before. *)
Theorem handle_empty_question (s : Server) (req : Msg) (net : string) (env : handleenv) :
  Questions req = [] ->
  handle s req net env =
    Ok (s, [EvWriteMsg (SetRcode empty_Msg req RcodeBadName);
            EvLog Warn [("op", "handle_request");
                        ("domain", "[request without questions]");
                        ("status", RcodeToString RcodeBadName)]]) /\
  Rcode (SetRcode empty_Msg req RcodeBadName) = RcodeBadName.
Proof.
  intros Hq. unfold handle. rewrite Hq. simpl. split; reflexivity.
Qed.

End ServerFacts.

(** *** Worked calls of the resolver and the dispatcher *)

Lemma baidu_req_has_question : Questions baidu_req_A <> [].
Proof. simpl. discriminate. Defined.

Lemma baidu_reply_accepted :
  fast_accepted (NewServer sample_cfg) both_answer_env baidu_reply_A hinted_server.
Proof. repeat split; reflexivity. Defined.

(** Scenario 2: the fast reply is served and cached although the clean
    upstream answered too. *)
Lemma LookupNet_fast_first_witness :
  exists key tr,
    genCacheKey baidu_reply_A "udp" = Ok key /\
    LookupNet (NewServer sample_cfg) baidu_req_A "udp" both_answer_env =
      Ok (Some baidu_reply_A, FastDNS (config (NewServer sample_cfg)), false,
          with_cache hinted_server
            (Cache_Set (cache (NewServer sample_cfg)) key
                       (VEntry (mkEntry (now_set both_answer_env) baidu_reply_A))),
          tr) /\
    In (EvCacheSet key) tr.
Proof.
  apply (proj1 (LookupNet_fast_first (NewServer sample_cfg) baidu_req_A "udp"
                  both_answer_env baidu_req_has_question)
               baidu_reply_A hinted_server).
  exact baidu_reply_accepted.
Defined.

(** C6 (the code at the failing input): the fast exchange fails and the
    clean upstream answers in time, with code NOERROR, records and an empty
    question section.  The resolver hands that reply to [setCache], whose
    [genCacheKey] indexes [Question[0]] past the end of the section: the
    call does not return a reply, it panics. *)
Theorem LookupNet_questionless_reply_panics :
  ex_res (clean_ex questionless_env) = Some (set_Questions clean_reply_A []) /\
  Rcode (set_Questions clean_reply_A []) = RcodeSuccess /\
  LookupNet (NewServer sample_cfg) baidu_req_A "udp" questionless_env = Panic IndexOutOfRange.
Proof. repeat split; reflexivity. Qed.

Lemma served_system_reachable : reachable sample_cfg served_system.
Proof.
  unfold served_system.
  destruct (handle (NewServer sample_cfg) baidu_req_A "udp"
                   (mkHandleenv (4 * sec) both_answer_env)) as [[s' tr]|p] eqn:E.
  - apply (reach_step sample_cfg (mkSystem (NewServer sample_cfg) [])).
    + apply reach_init.
    + exact (step_handle (mkSystem (NewServer sample_cfg) []) baidu_req_A "udp"
                         (mkHandleenv (4 * sec) both_answer_env) s' tr E).
  - apply reach_init.
Defined.

Lemma cache_holds_noerror_witness :
  all_values is_noerror_entry (cache (srv served_system)) /\
  (forall req net env m label err s' tr,
     LookupNet (srv served_system) req net env = Ok (m, label, err, s', tr) ->
     cache s' = cache (srv served_system) \/
     exists r key, m = Some r /\ Rcode r = RcodeSuccess /\
       genCacheKey r net = Ok key /\
       cache s' = Cache_Set (cache (srv served_system)) key
                            (VEntry (mkEntry (now_set env) r))).
Proof.
  apply (cache_holds_noerror sample_cfg served_system).
  exact served_system_reachable.
Defined.

Lemma hint_assertion_never_panics_witness :
  all_values is_hint (chinaDom (srv served_system)) /\
  maybePolluted (srv served_system) baidu_reply_AAAA <> Panic TypeAssertion.
Proof.
  destruct (hint_assertion_never_panics sample_cfg served_system served_system_reachable)
    as (Hh & Hp & _).
  split; [exact Hh | exact (Hp baidu_reply_AAAA)].
Defined.

(** Scenario 6. *)
Lemma handle_empty_question_witness :
  handle (NewServer sample_cfg) no_question_req "udp" (mkHandleenv 0 both_fail_env) =
    Ok (NewServer sample_cfg,
        [EvWriteMsg (SetRcode empty_Msg no_question_req RcodeBadName);
         EvLog Warn [("op", "handle_request");
                     ("domain", "[request without questions]");
                     ("status", "BADNAME")]]) /\
  Rcode (SetRcode empty_Msg no_question_req RcodeBadName) = 20.
Proof.
  exact (handle_empty_question (NewServer sample_cfg) no_question_req "udp"
           (mkHandleenv 0 both_fail_env) eq_refl).
Defined.

(** * Further properties of the code *)

(** ** Address normalisation and construction *)

Lemma Contains_app_r (a b sub : string) :
  Contains b sub = true -> Contains (a ++ b) sub = true.
Proof.
  intros Hb. induction a as [|c a IH]; [exact Hb|].
  change (String c a ++ b)%string with (String c (a ++ b)).
  cbn [Contains]. rewrite IH. now destruct (String.prefix sub (String c (a ++ b))).
Qed.

Lemma append_default_port_cases (ip : string) :
  (append_default_port ip = ip /\
   (Contains ip "." = true -> Contains ip ":" = true)) \/
  (append_default_port ip = ip ++ ":53" /\
   Contains ip "." = true /\ Contains ip ":" = false).
Proof.
  unfold append_default_port.
  destruct (Contains ip ".") eqn:Ed, (Contains ip ":") eqn:Ec; simpl; auto.
Qed.

Lemma append_default_port_post (ip : string) :
  Contains (append_default_port ip) "." = true ->
  Contains (append_default_port ip) ":" = true.
Proof.
  destruct (append_default_port_cases ip) as [[-> Hk] | [-> _]]; [exact Hk|].
  intros _. apply Contains_app_r. reflexivity.
Qed.

Lemma append_default_port_twice (ip : string) :
  append_default_port (append_default_port ip) = append_default_port ip.
Proof.
  destruct (append_default_port_cases (append_default_port ip))
    as [[E _] | [_ [Hd Hc]]]; [exact E|].
  rewrite (append_default_port_post ip Hd) in Hc. discriminate.
Qed.

(** X1: [append_default_port] is idempotent, and in its result every
    address with a dot has a colon. *)
Theorem append_default_port_idempotent (ip : string) :
  append_default_port (append_default_port ip) = append_default_port ip /\
  (Contains (append_default_port ip) "." = true ->
   Contains (append_default_port ip) ":" = true).
Proof.
  split.
  - destruct (append_default_port_cases (append_default_port ip))
      as [[E _] | [_ [Hd Hc]]]; [exact E|].
    destruct (append_default_port_cases ip) as [[Ei Hk] | [Ei _]].
    + rewrite Ei in Hd, Hc. rewrite (Hk Hd) in Hc. discriminate.
    + rewrite Ei in Hc. rewrite (Contains_app_r ip ":53" ":" eq_refl) in Hc. discriminate.
  - destruct (append_default_port_cases ip) as [[-> Hk] | [-> _]]; [exact Hk|].
    intros _. apply Contains_app_r. reflexivity.
Qed.

Lemma append_default_port_nonempty (ip : string) :
  ip <> "" -> append_default_port ip <> "".
Proof.
  intros Hn. destruct (append_default_port_cases ip) as [[-> _] | [-> _]]; [exact Hn|].
  destruct ip; simpl; [contradiction|discriminate].
Qed.

(** X2: the configuration [NewServer] keeps is a fixed point of its own
    normalisation, its listen address is never empty, and both stores
    start empty with the configured capacity. *)
Theorem NewServer_normalises (cfg : Config) :
  config (NewServer (config (NewServer cfg))) = config (NewServer cfg) /\
  Listen (config (NewServer cfg)) <> "" /\
  items (cache (NewServer cfg)) = [] /\
  items (chinaDom (NewServer cfg)) = [] /\
  capacity (cache (NewServer cfg)) = Z.to_nat (CacheSize cfg) /\
  capacity (chinaDom (NewServer cfg)) = Z.to_nat (CacheSize cfg).
Proof.
  assert (Hl : append_default_port
                 (if String.eqb (Listen cfg) "" then "127.0.0.1" else Listen cfg) <> "").
  { apply append_default_port_nonempty.
    destruct (String.eqb_spec (Listen cfg) ""); [discriminate|assumption]. }
  split; [|split; [exact Hl|repeat split]].
  unfold NewServer. cbn [config FastDNS CleanDNS Listen CacheSize].
  destruct (String.eqb_spec
              (append_default_port
                 (if String.eqb (Listen cfg) "" then "127.0.0.1" else Listen cfg)) "")
    as [E|_]; [contradiction|].
  f_equal; apply append_default_port_twice.
Qed.

(** ** The cache key, beyond the transaction ID *)

Section CacheKeyMore.
Context `{DnsTables}.

(** X3: the key reads the first question's name, the table's string for
    its type, the recursion-desired bit and the transport, and nothing
    else: requests that agree on these get the same key whatever their
    class, further questions and other header bits are; and the key is
    computed exactly when there is a question. *)
Theorem genCacheKey_reads_only (r1 r2 : Msg) (q1 q2 : Question)
        (rest1 rest2 : list Question) (net : string) :
  Questions r1 = q1 :: rest1 -> Questions r2 = q2 :: rest2 ->
  Name q1 = Name q2 ->
  TypeToString (Qtype q1) = TypeToString (Qtype q2) ->
  RecursionDesired r1 = RecursionDesired r2 ->
  genCacheKey r1 net = genCacheKey r2 net /\
  exists key, genCacheKey r1 net = Ok key.
Proof.
  intros E1 E2 Hn Ht Hr. unfold genCacheKey. rewrite E1, E2. simpl.
  rewrite Hn, Ht, Hr. split; [reflexivity|]. eexists. reflexivity.
Qed.

(** Without a question the key computation panics on the index, and that
    is its only failure. *)
Lemma genCacheKey_panics_iff (r : Msg) (net : string) :
  (Questions r = [] <-> genCacheKey r net = Panic IndexOutOfRange) /\
  (forall p, genCacheKey r net = Panic p -> p = IndexOutOfRange).
Proof.
  unfold genCacheKey. destruct (Questions r) as [|q qs]; simpl.
  - split; [split; reflexivity|]. intros p [= <-]. reflexivity.
  - split; [split; discriminate|]. discriminate.
Qed.

End CacheKeyMore.

Lemma genCacheKey_reads_only_witness :
  genCacheKey example_req "udp" = genCacheKey example_req_chaos "udp" /\
  exists key, genCacheKey example_req "udp" = Ok key.
Proof.
  apply (genCacheKey_reads_only example_req example_req_chaos
           (mkQuestion "example.com." TypeA ClassINET)
           (mkQuestion "example.com." TypeA ClassCHAOS)
           [] [mkQuestion "other.org." TypeAAAA ClassINET] "udp");
    reflexivity.
Defined.

(** ** The classifier, rule by rule *)

Lemma Cache_find_Set (c : Cache) (k : string) (v : value) :
  (1 <= capacity c)%nat -> Cache_find k (items (Cache_Set c k v)) = Some v.
Proof.
  unfold Cache_Set. destruct (capacity c) as [|n]; [lia|]. intros _.
  simpl. now rewrite String.eqb_refl.
Qed.

Lemma len_sections_zero (res : Msg) :
  (len (Answer res) + len (Ns res) + len (Extra res) =? 0) = true <-> records res = [].
Proof.
  unfold len, records. rewrite Z.eqb_eq.
  destruct (Answer res), (Ns res), (Extra res); simpl; split;
    try reflexivity; try discriminate; lia.
Qed.

Section ClassifierRules.
Context `{ChinaIP}.

Lemma containA_loop_In (rrs : list RR) :
  containA_loop rrs = true <-> exists h a, In (RR_A h a) rrs.
Proof.
  induction rrs as [|[h a|h d] rrs IH]; simpl.
  - split; [discriminate|]. intros (h & a & []).
  - split; [|reflexivity]. intros _. exists h, a. now left.
  - rewrite IH. split.
    + intros (h' & a' & Hin). exists h', a'. now right.
    + intros (h' & a' & [Hd|Hin]); [discriminate|]. exists h', a'. exact Hin.
Qed.

Lemma containChinaIP_loop_In (rrs : list RR) :
  containChinaIP_loop rrs = true <->
  exists h a, In (RR_A h a) rrs /\ IsChinaIP (IP_String a) = true.
Proof.
  induction rrs as [|[h a|h d] rrs IH]; simpl.
  - split; [discriminate|]. intros (h & a & [] & _).
  - destruct (IsChinaIP (IP_String a)) eqn:E.
    + split; [|reflexivity]. intros _. exists h, a. auto.
    + rewrite IH. split.
      * intros (h' & a' & Hin & Hc). exists h', a'. auto.
      * intros (h' & a' & [Hd|Hin] & Hc).
        -- injection Hd as <- <-. congruence.
        -- exists h', a'. auto.
  - rewrite IH. split.
    + intros (h' & a' & Hin & Hc). exists h', a'. auto.
    + intros (h' & a' & [Hd|Hin] & Hc); [discriminate|]. exists h', a'. auto.
Qed.

Lemma sections_concat (res : Msg) :
  ((([] ++ Answer res) ++ Ns res) ++ Extra res)%list = records res.
Proof. unfold records. simpl. now rewrite app_assoc. Qed.

Lemma containA_In (res : Msg) :
  containA res = true <-> exists h a, In (RR_A h a) (records res).
Proof.
  unfold containA. cbv zeta. rewrite sections_concat. apply containA_loop_In.
Qed.

Lemma containChinaIP_In (res : Msg) :
  containChinaIP res = true <->
  exists h a, In (RR_A h a) (records res) /\ IsChinaIP (IP_String a) = true.
Proof.
  unfold containChinaIP. cbv zeta. rewrite sections_concat.
  apply containChinaIP_loop_In.
Qed.

(** X4: [containA] holds exactly when one of the three sections has an
    A-record, [containChinaIP] exactly when one of them has an A-record
    whose address the oracle places in China; so a reply with a China
    address is a reply with an A-record. *)
Theorem containChinaIP_containA (res : Msg) :
  (containA res = true <-> exists h a, In (RR_A h a) (records res)) /\
  (containChinaIP res = true <->
   exists h a, In (RR_A h a) (records res) /\ IsChinaIP (IP_String a) = true) /\
  (containChinaIP res = true -> containA res = true).
Proof.
  split; [apply containA_In|]. split; [apply containChinaIP_In|].
  rewrite containA_In, containChinaIP_In.
  intros (h & a & Hin & _). exists h, a. exact Hin.
Qed.

(** X5: a reply whose three sections are all empty is polluted, and one
    with records, no A-record and no hint for its query name is
    trustworthy; in both cases the server is left exactly as it was, and
    the first needs no question section. *)
Theorem maybePolluted_without_A (s : Server) (res : Msg) :
  (records res = [] -> maybePolluted s res = Ok (true, s)) /\
  (forall q qs,
     records res <> [] -> containA res = false -> Questions res = q :: qs ->
     Cache_find (Name q) (items (chinaDom s)) = None ->
     maybePolluted s res = Ok (false, s)).
Proof.
  split.
  - intros He. unfold maybePolluted.
    now rewrite (proj2 (len_sections_zero res) He).
  - intros q qs Hn HA HQ Hf. unfold maybePolluted.
    destruct (len (Answer res) + len (Ns res) + len (Extra res) =? 0) eqn:E.
    { apply len_sections_zero in E. contradiction. }
    rewrite HA, HQ. simpl. unfold Cache_Get. rewrite Hf.
    destruct s; reflexivity.
Qed.

(** The A-record branch as an equation. *)
Lemma maybePolluted_with_A (s : Server) (res : Msg) (q : Question) (qs : list Question) :
  containA res = true -> Questions res = q :: qs ->
  maybePolluted s res =
    Ok (negb (containChinaIP res),
        with_chinaDom s (Cache_Set (chinaDom s) (Name q) (VBool (containChinaIP res)))).
Proof.
  intros HA HQ. unfold maybePolluted.
  destruct (len (Answer res) + len (Ns res) + len (Extra res) =? 0) eqn:E.
  { apply len_sections_zero in E.
    apply containA_In in HA as (h & a & Hin).
    rewrite E in Hin. destruct Hin. }
  rewrite HA, HQ. reflexivity.
Qed.

(** X6: for a reply with an A-record and a question, the verdict is
    polluted exactly when no A-record points into China, and the hint the
    call stores under the query name is read back by the next lookup of
    that name when the store has room for one entry. *)
Theorem maybePolluted_learns (s : Server) (res : Msg) (q : Question)
        (qs : list Question) :
  containA res = true -> Questions res = q :: qs ->
  exists s',
    maybePolluted s res = Ok (negb (containChinaIP res), s') /\
    cache s' = cache s /\
    ((1 <= capacity (chinaDom s))%nat ->
     Cache_find (Name q) (items (chinaDom s')) = Some (VBool (containChinaIP res))).
Proof.
  intros HA HQ. rewrite (maybePolluted_with_A s res q qs HA HQ).
  eexists. split; [reflexivity|]. split; [reflexivity|].
  intros Hcap. simpl. apply Cache_find_Set. exact Hcap.
Qed.

(** X7: the verdict on a name's A-reply carries over: once a reply with an
    A-record has been classified, a later reply for the same query name
    that has records but no A-record gets the same verdict, when the hint
    store has room for one entry. *)
Theorem maybePolluted_verdict_carries_over (s : Server) (resA resB : Msg)
        (qA qB : Question) (qsA qsB : list Question) (p : bool) (s1 : Server) :
  (1 <= capacity (chinaDom s))%nat ->
  containA resA = true -> Questions resA = qA :: qsA ->
  maybePolluted s resA = Ok (p, s1) ->
  records resB <> [] -> containA resB = false ->
  Questions resB = qB :: qsB -> Name qB = Name qA ->
  exists s2, maybePolluted s1 resB = Ok (p, s2).
Proof.
  intros Hcap HA HQ E Hn HB HQB Hname.
  rewrite (maybePolluted_with_A s resA qA qsA HA HQ) in E. injection E as <- <-.
  assert (Hf : Cache_find (Name qB)
                 (items (chinaDom (with_chinaDom s
                    (Cache_Set (chinaDom s) (Name qA) (VBool (containChinaIP resA))))))
               = Some (VBool (containChinaIP resA))).
  { rewrite Hname. simpl. apply Cache_find_Set. exact Hcap. }
  unfold maybePolluted.
  destruct (len (Answer resB) + len (Ns resB) + len (Extra resB) =? 0) eqn:Ez.
  { apply len_sections_zero in Ez. contradiction. }
  rewrite HB, HQB. cbn [bind index0]. rewrite (Cache_Get_hit _ _ _ Hf).
  cbn [bind assert_bool]. eexists. reflexivity.
Qed.

End ClassifierRules.

Lemma maybePolluted_without_A_witness :
  maybePolluted hinted_server empty_reply = Ok (true, hinted_server) /\
  maybePolluted (NewServer sample_cfg) baidu_reply_AAAA = Ok (false, NewServer sample_cfg).
Proof.
  split.
  - apply (proj1 (maybePolluted_without_A hinted_server empty_reply)). reflexivity.
  - apply (proj2 (maybePolluted_without_A (NewServer sample_cfg) baidu_reply_AAAA)
             (mkQuestion "baidu.com." TypeAAAA ClassINET) []).
    + simpl. discriminate.
    + reflexivity.
    + reflexivity.
    + reflexivity.
Defined.

Lemma maybePolluted_learns_witness :
  exists s',
    maybePolluted (NewServer sample_cfg) foreign_reply_A =
      Ok (negb (containChinaIP foreign_reply_A), s') /\
    cache s' = cache (NewServer sample_cfg) /\
    ((1 <= capacity (chinaDom (NewServer sample_cfg)))%nat ->
     Cache_find "baidu.com." (items (chinaDom s')) =
       Some (VBool (containChinaIP foreign_reply_A))).
Proof.
  apply (maybePolluted_learns (NewServer sample_cfg) foreign_reply_A
           (mkQuestion "baidu.com." TypeA ClassINET) []); reflexivity.
Defined.

Lemma maybePolluted_verdict_carries_over_witness :
  exists s2, maybePolluted hinted_server baidu_reply_AAAA = Ok (false, s2).
Proof.
  apply (maybePolluted_verdict_carries_over (NewServer sample_cfg)
           baidu_reply_A baidu_reply_AAAA
           (mkQuestion "baidu.com." TypeA ClassINET)
           (mkQuestion "baidu.com." TypeAAAA ClassINET) [] [] false hinted_server).
  - vm_compute. lia.
  - reflexivity.
  - reflexivity.
  - reflexivity.
  - simpl. discriminate.
  - reflexivity.
  - reflexivity.
  - reflexivity.
Defined.

(** ** TTL rewriting, beyond the bounds *)

Lemma same_but_Ttl_set (rr : RR) (t : Z) : same_but_Ttl rr (set_Ttl rr t).
Proof. unfold same_but_Ttl. destruct rr; reflexivity. Qed.

Lemma wrap_uint32_range (z : Z) : is_uint32 (wrap_uint32 z).
Proof. unfold is_uint32, wrap_uint32. apply Z.mod_pos_bound. lia. Qed.

Lemma subTTL_rr_only_Ttl (delta : Z) (rr : RR) :
  same_but_Ttl rr (fst (subTTL_rr delta rr)) /\
  is_uint32 (Ttl (Header (fst (subTTL_rr delta rr)))).
Proof.
  unfold subTTL_rr. cbv zeta.
  destruct (wrap_int (wrap_int (Ttl (Header rr)) - delta) <=? 0); simpl;
    rewrite Header_set_Ttl; split;
    try apply same_but_Ttl_set; apply wrap_uint32_range.
Qed.

Lemma subTTL_S_only_Ttl (delta : Z) (rrs : list RR) (b : bool) :
  Forall2 same_but_Ttl rrs (fst (subTTL_S delta rrs b)) /\
  Forall (fun rr => is_uint32 (Ttl (Header rr))) (fst (subTTL_S delta rrs b)).
Proof.
  revert b. induction rrs as [|rr rrs IH]; intros b; simpl.
  - split; constructor.
  - destruct (subTTL_rr_only_Ttl delta rr) as [Hs Hu].
    destruct (subTTL_rr delta rr) as [r' c]. simpl in Hs, Hu.
    destruct (IH (b || c)%bool) as [Hs' Hu'].
    destruct (subTTL_S delta rrs (b || c)) as [rest' nu]. simpl in *.
    split; constructor; assumption.
Qed.

(** X8: [subTTL] rewrites TTLs and nothing else: the header bits and the
    question are kept, each section keeps its length and order, every
    record keeps its name, type, class and data, and every TTL it writes
    fits 32 bits, for every message and every delta. *)
Theorem subTTL_only_Ttl (res : Msg) (delta : Z) :
  header_of (fst (subTTL res delta)) = header_of res /\
  Forall2 same_but_Ttl (Answer res) (Answer (fst (subTTL res delta))) /\
  Forall2 same_but_Ttl (Ns res) (Ns (fst (subTTL res delta))) /\
  Forall2 same_but_Ttl (Extra res) (Extra (fst (subTTL res delta))) /\
  ttls_uint32 (fst (subTTL res delta)).
Proof.
  unfold subTTL. cbv zeta.
  destruct (subTTL_S_only_Ttl delta (Answer res) false) as [Ha Ua].
  destruct (subTTL_S delta (Answer res) false) as [an b1].
  destruct (subTTL_S_only_Ttl delta (Ns res) b1) as [Hn Un].
  destruct (subTTL_S delta (Ns res) b1) as [ns b2].
  destruct (subTTL_S_only_Ttl delta (Extra res) b2) as [He Ue].
  destruct (subTTL_S delta (Extra res) b2) as [ex b3].
  simpl in *. repeat split; try assumption.
  unfold ttls_uint32, records. simpl.
  apply Forall_app. split; [exact Ua|]. apply Forall_app. split; assumption.
Qed.

Lemma Rcode_subTTL (res : Msg) (delta : Z) : Rcode (fst (subTTL res delta)) = Rcode res.
Proof.
  unfold subTTL. cbv zeta.
  destruct (subTTL_S delta (Answer res) false) as [an b1].
  destruct (subTTL_S delta (Ns res) b1) as [ns b2].
  destruct (subTTL_S delta (Extra res) b2) as [ex b3].
  reflexivity.
Qed.

Lemma clamped_mono (d1 d2 : Z) (rr : RR) :
  d1 <= d2 -> clamped d1 rr = true -> clamped d2 rr = true.
Proof. unfold clamped. rewrite !Z.leb_le. lia. Qed.

Lemma refresh_needed_mono (d1 d2 : Z) (m : Msg) :
  d1 <= d2 -> refresh_needed d1 m = true -> refresh_needed d2 m = true.
Proof.
  unfold refresh_needed. rewrite !existsb_exists.
  intros Hd (rr & Hin & Hc). exists rr. split; [exact Hin|].
  exact (clamped_mono d1 d2 rr Hd Hc).
Qed.

Lemma set_Ttl_same (rr : RR) : set_Ttl rr (Ttl (Header rr)) = rr.
Proof. destruct rr as [[n t c l d] a | [n t c l d] a]; reflexivity. Qed.

Lemma rewritten_zero (m : Msg) :
  Forall (fun rr => 0 < Ttl (Header rr)) (records m) ->
  rewritten 0 m = m /\ refresh_needed 0 m = false.
Proof.
  intros HF.
  assert (Hmap : forall l, Forall (fun rr => 0 < Ttl (Header rr)) l ->
                           map (rewrite_rr 0) l = l /\ existsb (clamped 0) l = false).
  { induction 1 as [|rr l Hrr _ [IH1 IH2]]; simpl; [auto|].
    unfold rewrite_rr at 1, served_ttl, clamped at 1.
    replace (Ttl (Header rr) - 0) with (Ttl (Header rr)) by lia.
    destruct (Ttl (Header rr) <=? 0) eqn:E; [apply Z.leb_le in E; lia|].
    rewrite set_Ttl_same, IH1, IH2. auto. }
  split.
  - unfold records in HF.
    apply Forall_app in HF as [Ha HF]. apply Forall_app in HF as [Hn He].
    unfold rewritten.
    rewrite (proj1 (Hmap _ Ha)), (proj1 (Hmap _ Hn)), (proj1 (Hmap _ He)).
    destruct m; reflexivity.
  - exact (proj2 (Hmap _ HF)).
Qed.

(** ** The seconds a cache read subtracts *)

(** X25: the seconds [LookupCache] takes off the TTLs.  For an elapsed
    time within the range of [Duration], [int(delta)] is the number of
    whole seconds elapsed or one more; it is exactly the number of whole
    seconds when less than [2 ^ 24] seconds (about 194 days) have elapsed;
    and it never decreases as the elapsed time grows. *)
Theorem Seconds_int_floor_or_next (d : Duration) :
  0 <= d <= maxDuration ->
  d / Second <= Seconds_int d <= d / Second + 1 /\
  (d < 2 ^ 24 * Second -> Seconds_int d = d / Second) /\
  (forall d', d <= d' <= maxDuration -> Seconds_int d <= Seconds_int d').
Proof.
  intros Hd. split; [exact (Seconds_int_bounds d Hd)|]. split.
  - intros Hy. apply Seconds_int_exact. lia.
  - intros d' Hd'. apply Seconds_int_mono; lia.
Qed.

(** After 65 seconds, and one nanosecond short of 16777217 seconds. *)
Lemma Seconds_int_floor_or_next_witness :
  (65 <= Seconds_int (65 * sec) <= 65 + 1 /\
   Seconds_int (65 * sec) = 65 /\
   Seconds_int (65 * sec) <= Seconds_int (70 * sec)) /\
  16777216 <= Seconds_int aged_now <= 16777216 + 1.
Proof.
  split.
  - destruct (Seconds_int_floor_or_next (65 * sec)) as (Hb & He & Hm).
    + vm_compute. split; discriminate.
    + split; [exact Hb|]. split.
      * apply He. vm_compute. reflexivity.
      * apply Hm. vm_compute. split; discriminate.
  - apply (Seconds_int_floor_or_next aged_now). vm_compute. split; discriminate.
Defined.

(** ** The cache path, read after write *)

Section CachePathMore.
Context `{DnsTables}.

(** The reply of a hit in the specification's words, with the server it
    leaves. *)
Lemma LookupCache_hit_elapsed (s : Server) (req : Msg) (net : string)
      (now : Time) (key : string) (c : cacheEntry) :
  genCacheKey req net = Ok key ->
  Cache_find key (items (cache s)) = Some (VEntry c) ->
  ttls_uint32 (reply c) -> putin c <= now ->
  let d := Seconds_int (Time_Sub now (putin c)) in
  LookupCache s req net now =
    Ok (Some (rewritten d (reply c)), true,
        with_cache s (mkCache (capacity (cache s))
                              ((key, VEntry c) :: Cache_remove key (items (cache s)))),
        EvCacheGet key ::
          (if refresh_needed d (reply c) then [EvGo (Refresh req net)] else [])).
Proof.
  intros Hk Hf Hu Hle d.
  rewrite (LookupCache_hit s req net now key c Hk Hf). cbv zeta. fold d.
  destruct (elapsed_delta now (putin c) Hle) as [H0 Hi]. fold d in H0, Hi.
  rewrite (subTTL_spec d (reply c) Hu H0 Hi). reflexivity.
Qed.

(** X9: a stale entry keeps starting refreshes.  When a hit on an entry
    started a refresh goroutine, the entry is still under its key in the
    server that read leaves, and a read at the same or a later instant on
    any server that holds the entry under the key is again a hit, starts
    another refresh goroutine and leaves the entry under the key. *)
Theorem LookupCache_refresh_repeats (s : Server) (req : Msg) (net : string)
        (now1 now2 : Time) (key : string) (c : cacheEntry)
        (r1 : Msg) (s1 : Server) (tr1 : list event) :
  genCacheKey req net = Ok key ->
  Cache_find key (items (cache s)) = Some (VEntry c) ->
  ttls_uint32 (reply c) ->
  putin c <= now1 -> now1 <= now2 ->
  LookupCache s req net now1 = Ok (Some r1, true, s1, tr1) ->
  In (EvGo (Refresh req net)) tr1 ->
  Cache_find key (items (cache s1)) = Some (VEntry c) /\
  forall s2,
    Cache_find key (items (cache s2)) = Some (VEntry c) ->
    exists r2 s3 tr2,
      LookupCache s2 req net now2 = Ok (Some r2, true, s3, tr2) /\
      In (EvGo (Refresh req net)) tr2 /\
      Cache_find key (items (cache s3)) = Some (VEntry c).
Proof.
  intros Hk Hf Hu H1 H12 E Hin.
  rewrite (LookupCache_hit_elapsed s req net now1 key c Hk Hf Hu H1) in E.
  cbv zeta in E. injection E as _ <- <-.
  assert (Hn1 : refresh_needed (Seconds_int (Time_Sub now1 (putin c))) (reply c) = true).
  { destruct (refresh_needed _ (reply c)); [reflexivity|].
    destruct Hin as [Hd|[]]. discriminate. }
  assert (Hfront : forall s0 : Server,
            Cache_find key
              (items (cache (with_cache s0
                 (mkCache (capacity (cache s0))
                    ((key, VEntry c) :: Cache_remove key (items (cache s0)))))))
            = Some (VEntry c)).
  { intros s0. simpl. now rewrite String.eqb_refl. }
  split; [apply Hfront|].
  intros s2 Hf2.
  rewrite (LookupCache_hit_elapsed s2 req net now2 key c Hk Hf2 Hu) by lia.
  cbv zeta.
  rewrite (refresh_needed_mono _ (Seconds_int (Time_Sub now2 (putin c))) _
             (Seconds_int_mono _ _ (proj1 (Time_Sub_nonneg now1 (putin c) H1))
                (Time_Sub_mono now1 now2 (putin c) H12)
                (proj2 (Time_Sub_nonneg now2 (putin c) ltac:(lia)))) Hn1).
  do 3 eexists. split; [reflexivity|]. split; [simpl; auto|apply Hfront].
Qed.

(** X10: [LookupCache] reports a hit exactly when it returns a reply; on a
    miss the key has no entry, the server is as before and no goroutine is
    started. *)
Theorem LookupCache_hit_iff_reply (s : Server) (req : Msg) (net : string)
        (now : Time) (m : option Msg) (hit : bool) (s' : Server) (tr : list event) :
  LookupCache s req net now = Ok (m, hit, s', tr) ->
  (hit = true <-> exists r, m = Some r) /\
  exists key,
    genCacheKey req net = Ok key /\
    (hit = true -> exists c, Cache_find key (items (cache s)) = Some (VEntry c)) /\
    (hit = false ->
     Cache_find key (items (cache s)) = None /\ s' = s /\ tr = [EvCacheGet key]).
Proof.
  unfold LookupCache.
  destruct (genCacheKey req net) as [key|] eqn:Ek; simpl; [|discriminate].
  unfold Cache_Get.
  destruct (Cache_find key (items (cache s))) as [[b|c]|] eqn:Ef; simpl;
    try discriminate.
  - destruct (subTTL (Copy (reply c)) _) as [r nu].
    intros [= <- <- _ _]. split.
    + split; eauto.
    + exists key. split; [reflexivity|]. split; [eauto|discriminate].
  - intros [= <- <- <- <-]. split.
    + split; [discriminate|]. intros [r Hr]. discriminate.
    + exists key. split; [reflexivity|]. split; [discriminate|].
      intros _. split; [first [reflexivity | exact Ef]|]. split; [|reflexivity].
      destruct s as [cf dom [cap its]]; reflexivity.
Qed.

(** X11: what [setCache] stores, [LookupCache] finds: when the cache has
    room for one entry, a request whose key equals the stored reply's key
    gets, at any later instant less than [2 ^ 24] seconds after the write,
    the stored reply with the elapsed whole seconds taken off its TTLs;
    read within the first second, a reply whose TTLs are all positive
    comes back unchanged and starts no refresh. *)
Theorem setCache_LookupCache (s : Server) (res req : Msg) (net : string)
        (t0 now : Time) (s1 : Server) (ev : list event) :
  setCache s res net t0 = Ok (s1, ev) ->
  (1 <= capacity (cache s))%nat ->
  genCacheKey req net = genCacheKey res net ->
  ttls_uint32 res ->
  t0 <= now -> now - t0 < 2 ^ 24 * Second ->
  (exists s2 tr,
     LookupCache s1 req net now =
       Ok (Some (rewritten (elapsed_seconds now t0) res), true, s2, tr)) /\
  (Forall (fun rr => 0 < Ttl (Header rr)) (records res) -> now - t0 < Second ->
   exists s2 key, LookupCache s1 req net now = Ok (Some res, true, s2, [EvCacheGet key])).
Proof.
  intros ES Hcap Hk Hu Hle Hyoung.
  destruct (setCache_inv _ _ _ _ _ _ ES) as (key & Ek & -> & _).
  rewrite Ek in Hk.
  assert (Hf : Cache_find key
                 (items (cache (with_cache s
                    (Cache_Set (cache s) key (VEntry (mkEntry t0 res))))))
               = Some (VEntry (mkEntry t0 res))).
  { simpl. apply Cache_find_Set. exact Hcap. }
  pose proof (LookupCache_hit_elapsed _ req net now key (mkEntry t0 res) Hk Hf Hu Hle) as E.
  cbv zeta in E. simpl putin in E. simpl reply in E.
  rewrite (elapsed_young now t0 Hle Hyoung) in E. split.
  - rewrite E. eauto.
  - intros Hpos Hfirst.
    assert (H0 : elapsed_seconds now t0 = 0).
    { unfold elapsed_seconds. apply Z.div_small. unfold Second in Hfirst. lia. }
    rewrite H0 in E. destruct (rewritten_zero res Hpos) as [Er En].
    rewrite Er, En in E. rewrite E. eauto.
Qed.

(** X23: on a hit less than [2 ^ 24] seconds (about 194 days) after the
    entry was stored, the returned reply is the stored reply with the
    whole seconds elapsed since insertion, rounded down, subtracted from
    every TTL of the three sections, a TTL that would not be positive
    being 3 instead; the refresh goroutine for the same request and
    transport is started exactly when some record was clamped; and the
    entry is moved to the front of the cache. *)
Theorem LookupCache_young_hit_rewrites (s : Server) (req : Msg) (net : string)
        (now : Time) (key : string) (c : cacheEntry) :
  genCacheKey req net = Ok key ->
  Cache_find key (items (cache s)) = Some (VEntry c) ->
  ttls_uint32 (reply c) ->
  putin c <= now -> now - putin c < 2 ^ 24 * Second ->
  let delta := elapsed_seconds now (putin c) in
  LookupCache s req net now =
    Ok (Some (rewritten delta (reply c)), true, after_hit s key c,
        EvCacheGet key ::
          (if refresh_needed delta (reply c) then [EvGo (Refresh req net)] else [])).
Proof.
  intros Hk Hf Hu Hle Hyoung delta.
  rewrite (LookupCache_hit_elapsed s req net now key c Hk Hf Hu Hle). cbv zeta.
  rewrite (elapsed_young now (putin c) Hle Hyoung). reflexivity.
Qed.

End CachePathMore.

(** *** Worked reads, continued *)

Lemma append_default_port_idempotent_witness :
  append_default_port (append_default_port "8.8.8.8") = append_default_port "8.8.8.8" /\
  Contains (append_default_port "8.8.8.8") ":" = true.
Proof.
  destruct (append_default_port_idempotent "8.8.8.8") as [Hi Hp].
  split; [exact Hi|]. apply Hp. reflexivity.
Defined.

Lemma containChinaIP_containA_witness : containA baidu_reply_A = true.
Proof.
  apply (proj2 (proj2 (containChinaIP_containA baidu_reply_A))). reflexivity.
Defined.

Lemma LookupCache_refresh_repeats_witness :
  Cache_find "example.com._A_1_udp" (items (cache touched_server)) =
    Some (VEntry example_entry) /\
  forall s2,
    Cache_find "example.com._A_1_udp" (items (cache s2)) = Some (VEntry example_entry) ->
    exists r2 s3 tr2,
      LookupCache s2 example_req "udp" (70 * sec) = Ok (Some r2, true, s3, tr2) /\
      In (EvGo (Refresh example_req "udp")) tr2 /\
      Cache_find "example.com._A_1_udp" (items (cache s3)) = Some (VEntry example_entry).
Proof.
  apply (LookupCache_refresh_repeats cached_server example_req "udp"
           (65 * sec) (70 * sec) "example.com._A_1_udp" example_entry
           (rewritten 65 example_reply) touched_server
           [EvCacheGet "example.com._A_1_udp"; EvGo (Refresh example_req "udp")]).
  - reflexivity.
  - reflexivity.
  - exact example_ttls_uint32.
  - vm_compute. discriminate.
  - vm_compute. discriminate.
  - vm_compute. reflexivity.
  - simpl. auto.
Defined.

(** A hit on the cached example and a miss on the new server. *)
Lemma LookupCache_hit_iff_reply_witness :
  ((true = true <-> exists r : Msg, Some (rewritten 10 example_reply) = Some r) /\
   exists key,
     genCacheKey example_req "udp" = Ok key /\
     (true = true ->
      exists c, Cache_find key (items (cache cached_server)) = Some (VEntry c)) /\
     (true = false ->
      Cache_find key (items (cache cached_server)) = None /\
      after_hit cached_server "example.com._A_1_udp" example_entry = cached_server /\
      [EvCacheGet "example.com._A_1_udp"] = [EvCacheGet key])) /\
  ((false = true <-> exists r : Msg, None = Some r) /\
   exists key,
     genCacheKey example_req "udp" = Ok key /\
     (false = true ->
      exists c, Cache_find key (items (cache (NewServer sample_cfg))) = Some (VEntry c)) /\
     (false = false ->
      Cache_find key (items (cache (NewServer sample_cfg))) = None /\
      NewServer sample_cfg = NewServer sample_cfg /\
      [EvCacheGet "example.com._A_1_udp"] = [EvCacheGet key])).
Proof.
  split.
  - apply (LookupCache_hit_iff_reply cached_server example_req "udp" (10 * sec)
             (Some (rewritten 10 example_reply)) true
             (after_hit cached_server "example.com._A_1_udp" example_entry)
             [EvCacheGet "example.com._A_1_udp"]).
    vm_compute. reflexivity.
  - apply (LookupCache_hit_iff_reply (NewServer sample_cfg) example_req "udp" 0
             None false (NewServer sample_cfg) [EvCacheGet "example.com._A_1_udp"]).
    reflexivity.
Defined.

(** The cached example read after 10 seconds, and read after half a
    second. *)
Lemma setCache_LookupCache_witness :
  (exists s2 tr,
     LookupCache cached_server example_req "udp" (10 * sec) =
       Ok (Some (rewritten (elapsed_seconds (10 * sec) 0) example_reply), true, s2, tr)) /\
  (exists s2 key,
     LookupCache cached_server example_req "udp" 500000000 =
       Ok (Some example_reply, true, s2, [EvCacheGet key])).
Proof.
  split.
  - apply (setCache_LookupCache (NewServer sample_cfg) example_reply example_req "udp"
             0 (10 * sec) cached_server [EvCacheSet "example.com._A_1_udp"]).
    + reflexivity.
    + vm_compute. lia.
    + reflexivity.
    + exact example_ttls_uint32.
    + vm_compute. discriminate.
    + vm_compute. reflexivity.
  - apply (setCache_LookupCache (NewServer sample_cfg) example_reply example_req "udp"
             0 500000000 cached_server [EvCacheSet "example.com._A_1_udp"]).
    + reflexivity.
    + vm_compute. lia.
    + reflexivity.
    + exact example_ttls_uint32.
    + vm_compute. discriminate.
    + vm_compute. reflexivity.
    + repeat constructor.
    + vm_compute. reflexivity.
Defined.

(** Scenario 5: read at 65 seconds, the TTL is 3 and a refresh is started. *)
Lemma LookupCache_young_hit_rewrites_witness :
  LookupCache cached_server example_req "udp" (65 * sec) =
    Ok (Some (rewritten 65 example_reply), true,
        after_hit cached_server "example.com._A_1_udp" example_entry,
        [EvCacheGet "example.com._A_1_udp"; EvGo (Refresh example_req "udp")]).
Proof.
  apply (LookupCache_young_hit_rewrites cached_server example_req "udp" (65 * sec)
           "example.com._A_1_udp" example_entry).
  - reflexivity.
  - reflexivity.
  - exact example_ttls_uint32.
  - vm_compute. discriminate.
  - vm_compute. reflexivity.
Defined.

(** ** The resolver, beyond the fast path rule *)

Lemma writes_app (a b : list event) : writes (a ++ b) = (writes a ++ writes b)%list.
Proof.
  induction a as [|e a IH]; [reflexivity|].
  destruct e; simpl; rewrite IH; reflexivity.
Qed.

Lemma spawned_app (a b : list event) : spawned (a ++ b) = (spawned a ++ spawned b)%list.
Proof.
  induction a as [|e a IH]; [reflexivity|].
  destruct e; simpl; rewrite IH; reflexivity.
Qed.

Lemma net_events_quiet (tr : list event) :
  forallb is_net_event tr = true -> writes tr = [] /\ spawned tr = [].
Proof.
  induction tr as [|e tr IH]; [auto|].
  simpl. destruct e; simpl; try discriminate; exact IH.
Qed.

Section ResolverMore.
Context `{DnsTables} `{ChinaIP}.

(** X12: the reply the resolver returns is in the cache afterwards exactly
    when its response code is NOERROR: a NOERROR reply is stored under its
    own key with the instant of the call, any other reply comes from the
    clean path and leaves the cache as it was. *)
Theorem LookupNet_caches_iff_noerror (s : Server) (req : Msg) (net : string)
        (env : netenv) (m : option Msg) (label : string) (err : bool)
        (s' : Server) (tr : list event) :
  LookupNet s req net env = Ok (m, label, err, s', tr) ->
  exists r,
    m = Some r /\
    (Rcode r = RcodeSuccess ->
     exists key, genCacheKey r net = Ok key /\ In (EvCacheSet key) tr /\
       cache s' = Cache_Set (cache s) key (VEntry (mkEntry (now_set env) r))) /\
    (Rcode r <> RcodeSuccess ->
     cache s' = cache s /\ label = CleanDNS (config s) /\
     forall key, ~ In (EvCacheSet key) tr).
Proof.
  intros E.
  destruct (LookupNet_shape _ _ _ _ _ _ _ _ _ E)
    as (evc & fastMsg & s1 & evf & r & evs & EC & EF & -> & _ & -> & Hfrom & Hs).
  destruct (goQ_fast_inv _ _ _ _ _ _ _ _ EF) as (_ & Hk & _ & Hacc).
  exists r. split; [reflexivity|]. split.
  - intros Hr. destruct Hs as [(_ & key & Ek & -> & ->) | (Hn & _)]; [|contradiction].
    exists key. split; [exact Ek|]. split.
    + apply in_or_app. right. apply in_or_app. right. now left.
    + simpl. now rewrite Hk.
  - intros Hn. destruct Hs as [(Hr & _) | (_ & -> & ->)]; [contradiction|].
    split; [exact Hk|]. split.
    + destruct Hfrom as [(_ & -> & _) | (_ & Hl & _)]; [|exact Hl].
      destruct (Hacc r eq_refl) as (_ & _ & _ & Hr & _). contradiction.
    + intros key Hin. rewrite app_nil_r in Hin. apply in_app_or in Hin as [Hin|Hin].
      * exact (goQ_events _ _ _ _ _ _ _ _ _ EC key Hin).
      * exact (goQ_events _ _ _ _ _ _ _ _ _ EF key Hin).
Qed.

(** X13: a fast reply that has an A-record and none pointing into China is
    never served: whatever the resolver returns is then the clean
    channel's reply or the synthesized SERVFAIL, under the clean
    upstream's address. *)
Theorem LookupNet_foreign_A_not_served (s : Server) (req : Msg) (net : string)
        (env : netenv) (r : Msg) (m : option Msg) (label : string) (err : bool)
        (s' : Server) (tr : list event) :
  ex_res (fast_ex env) = Some r ->
  containA r = true -> containChinaIP r = false ->
  LookupNet s req net env = Ok (m, label, err, s', tr) ->
  label = CleanDNS (config s) /\
  m = Some (match clean_yield env with
            | Some res => res
            | None => SetRcode empty_Msg req RcodeServerFailure
            end).
Proof.
  intros Er HA HC E.
  destruct (LookupNet_shape _ _ _ _ _ _ _ _ _ E)
    as (evc & fastMsg & s1 & evf & r' & evs & EC & EF & -> & _ & _ & Hfrom & _).
  destruct (goQ_fast_inv _ _ _ _ _ _ _ _ EF) as (_ & _ & _ & Hacc).
  destruct Hfrom as [(_ & -> & _) | (_ & -> & ->)]; [|auto].
  exfalso. destruct (Hacc r' eq_refl) as (_ & Er' & _ & _ & Em).
  rewrite Er in Er'. injection Er' as <-.
  destruct (Questions r) as [|q qs] eqn:EQ.
  - exact (maybePolluted_trust_has_question _ _ _ Em EQ).
  - rewrite (maybePolluted_with_A s r q qs HA EQ), HC in Em. discriminate.
Qed.



(** The call ends with a reply when request and replies have a question
    section and the hint store holds booleans. *)
Lemma LookupNet_returns (s : Server) (req : Msg) (net : string) (env : netenv) :
  Questions req <> [] ->
  has_question (fast_ex env) -> has_question (clean_ex env) ->
  all_values is_hint (chinaDom s) ->
  exists r label s' tr, LookupNet s req net env = Ok (Some r, label, false, s', tr).
Proof.
  intros Hq Hxf Hxc Hs.
  destruct (goQ_clean_Ok s req net (clean_in_time env) (clean_ex env) Hq) as [evc EC].
  destruct (goQ_fast_Ok s req net (fast_in_time env) (fast_ex env) Hq Hxf Hs)
    as (fastMsg & s1 & evf & EF).
  rewrite (LookupNet_unfold _ _ _ _ _ _ _ _ EC EF).
  destruct (goQ_fast_inv _ _ _ _ _ _ _ _ EF) as (_ & _ & _ & Hacc).
  destruct fastMsg as [res|].
  - destruct (Hacc res eq_refl) as (_ & Er & _).
    destruct (setCache_Ok s1 res net (now_set env) (Hxf res Er)) as (key & _ & ->).
    simpl. eauto 6.
  - cbv zeta. unfold clean_yield.
    destruct (if clean_in_time env then ex_res (clean_ex env) else None) as [res|] eqn:EY.
    + assert (Er : ex_res (clean_ex env) = Some res)
        by (destruct (clean_in_time env); congruence).
      destruct (Rcode res =? RcodeSuccess); simpl; [|eauto 6].
      destruct (setCache_Ok s1 res net (now_set env) (Hxc res Er)) as (key & _ & ->).
      simpl. eauto 6.
    + rewrite Rcode_SetRcode. simpl. eauto 6.
Qed.

(** X24: a call of the resolver that returns hands back a reply, never
    [nil], and no error.  On total failure, when the value the call
    receives on the fast channel is the sentinel and the clean channel
    yields the sentinel too, a call for a request with a question returns
    the synthesized reply with code SERVFAIL under the clean upstream's
    address and has not written the answer cache.  And the call does
    return when the request and the replies of both upstreams have a
    question section and the hint store holds booleans. *)
Theorem LookupNet_total_failure (s : Server) (req : Msg) (net : string) (env : netenv) :
  (forall m label err s' tr,
     LookupNet s req net env = Ok (m, label, err, s', tr) ->
     err = false /\ exists r, m = Some r) /\
  (forall s1 evf,
     Questions req <> [] ->
     goQ s req net false (fast_in_time env) (fast_ex env) = Ok (None, s1, evf) ->
     clean_yield env = None ->
     exists tr,
       LookupNet s req net env =
         Ok (Some (SetRcode empty_Msg req RcodeServerFailure),
             CleanDNS (config s), false, s1, tr) /\
       Rcode (SetRcode empty_Msg req RcodeServerFailure) = RcodeServerFailure /\
       cache s1 = cache s /\
       forall key, ~ In (EvCacheSet key) tr) /\
  (Questions req <> [] ->
   has_question (fast_ex env) -> has_question (clean_ex env) ->
   all_values is_hint (chinaDom s) ->
   exists r label s' tr, LookupNet s req net env = Ok (Some r, label, false, s', tr)).
Proof.
  split; [|split].
  - intros m label err s' tr E.
    destruct (LookupNet_shape _ _ _ _ _ _ _ _ _ E)
      as (_ & _ & _ & _ & r & _ & _ & _ & -> & -> & _).
    split; [reflexivity|]. eauto.
  - intros s1 evf Hq EF Hy.
    destruct (goQ_clean_Ok s req net (clean_in_time env) (clean_ex env) Hq) as [evc EC].
    fold (clean_yield env) in EC.
    rewrite (LookupNet_unfold _ _ _ _ _ _ _ _ EC EF), Hy. cbv zeta.
    rewrite Rcode_SetRcode. simpl.
    destruct (goQ_fast_inv _ _ _ _ _ _ _ _ EF) as (Hcfg & Hk & _).
    rewrite Hcfg. eexists. split; [reflexivity|]. split; [reflexivity|].
    split; [exact Hk|].
    intros key Hin. rewrite app_nil_r in Hin. apply in_app_or in Hin as [Hin|Hin].
    + exact (goQ_events _ _ _ _ _ _ _ _ _ EC key Hin).
    + exact (goQ_events _ _ _ _ _ _ _ _ _ EF key Hin).
  - apply LookupNet_returns.
Qed.

End ResolverMore.

(** ** The dispatcher, case by case *)

Lemma len_lt_1 {A : Type} (l : list A) : (len l <? 1) = match l with [] => true | _ => false end.
Proof.
  unfold len. destruct l as [|x l]; [reflexivity|].
  apply Z.ltb_ge. change (List.length (x :: l)) with (S (List.length l)). lia.
Qed.

Section DispatcherFacts.
Context `{DnsTables} `{ChinaIP}.

Lemma LookupCache_miss (s : Server) (req : Msg) (net : string) (now : Time) (key : string) :
  genCacheKey req net = Ok key ->
  Cache_find key (items (cache s)) = None ->
  LookupCache s req net now = Ok (None, false, s, [EvCacheGet key]).
Proof.
  intros Hk Hf. unfold LookupCache, Cache_Get. rewrite Hk. simpl. rewrite Hf.
  destruct s as [cf dom [cap its]]; reflexivity.
Qed.

Lemma LookupCache_wrong_type (s : Server) (req : Msg) (net : string) (now : Time)
      (key : string) (b : bool) :
  genCacheKey req net = Ok key ->
  Cache_find key (items (cache s)) = Some (VBool b) ->
  LookupCache s req net now = Panic TypeAssertion.
Proof.
  intros Hk Hf. unfold LookupCache, Cache_Get. rewrite Hk. simpl. rewrite Hf.
  reflexivity.
Qed.

(** Every way a call of the dispatcher can return. *)
Lemma handle_cases (s : Server) (req : Msg) (net : string) (env : handleenv)
      (s' : Server) (tr : list event) :
  handle s req net env = Ok (s', tr) ->
  (Questions req = [] /\ s' = s /\
   exists fields, tr = [EvWriteMsg (SetRcode empty_Msg req RcodeBadName); EvLog Warn fields])
  \/
  exists q qs key lvl fields,
    Questions req = q :: qs /\ genCacheKey req net = Ok key /\
    ((exists c,
        Cache_find key (items (cache s)) = Some (VEntry c) /\
        let out := subTTL (reply c) (Seconds_int (Time_Sub (now_get env) (putin c))) in
        s' = after_hit s key c /\
        tr = (EvLookupHosts :: EvCacheGet key
                :: (if snd out then [EvGo (Refresh req net)] else [])
                ++ [EvWriteMsg (SetRcode (fst out) req (Rcode (fst out)));
                    EvLog lvl fields])%list)
     \/
     (Cache_find key (items (cache s)) = None /\
      exists r label sN evn,
        LookupNet s req net (net_env env) = Ok (Some r, label, false, sN, evn) /\
        s' = stamp_stored sN (stored_key evn) (SetRcode r req (Rcode r)) /\
        tr = (EvLookupHosts :: EvCacheGet key
                :: evn ++ [EvWriteMsg (SetRcode r req (Rcode r)); EvLog lvl fields])%list)).
Proof.
  unfold handle, LookupHosts. rewrite len_lt_1.
  destruct (Questions req) as [|q qs] eqn:EQ.
  { intros [= <- <-]. left. split; [reflexivity|]. split; [reflexivity|].
    eexists. reflexivity. }
  cbn [index0 bind].
  assert (Hk : exists key, genCacheKey req net = Ok key).
  { unfold genCacheKey. rewrite EQ. simpl. eexists. reflexivity. }
  destruct Hk as [key Hk].
  destruct (Cache_find key (items (cache s))) as [[b|c]|] eqn:Ef.
  - rewrite (LookupCache_wrong_type s req net _ key b Hk Ef). discriminate.
  - rewrite (LookupCache_hit s req net _ key c Hk Ef). cbv zeta. cbn [bind].
    intros [= <- <-]. right. exists q, qs, key. do 2 eexists.
    split; [reflexivity|]. split; [exact Hk|]. left. exists c.
    split; [exact Ef|]. split; [reflexivity|].
    simpl. reflexivity.
  - rewrite (LookupCache_miss s req net _ key Hk Ef). cbn [bind].
    destruct (LookupNet s req net (net_env env)) as [[[[[m label] err] s2] evn]|] eqn:EN;
      cbn [bind]; [|discriminate].
    destruct (LookupNet_shape _ _ _ _ _ _ _ _ _ EN)
      as (_ & _ & _ & _ & r & _ & _ & _ & -> & -> & _).
    cbn [bind]. intros [= <- <-]. right. exists q, qs, key. do 2 eexists.
    split; [reflexivity|]. split; [exact Hk|]. right.
    split; [exact Ef|]. exists r, label, s2, evn. split; [reflexivity|].
    split; [reflexivity|].
    simpl. rewrite ?app_nil_r, <- ?app_assoc. reflexivity.
Qed.

Lemma stamp_stored_config (s : Server) (stored : option string) (m : Msg) :
  config (stamp_stored s stored m) = config s /\
  chinaDom (stamp_stored s stored m) = chinaDom s.
Proof. destruct stored; split; reflexivity. Qed.

(** X15: every call of the dispatcher that returns has written exactly one
    reply, and that reply is stamped with the request: its transaction ID
    and opcode, the response bit, and as question section the request's
    first question (none when the request has none); the configuration is
    untouched. *)
Theorem handle_writes_one (s : Server) (req : Msg) (net : string) (env : handleenv)
        (s' : Server) (tr : list event) :
  handle s req net env = Ok (s', tr) ->
  config s' = config s /\
  exists w,
    writes tr = [w] /\
    Id w = Id req /\ Response w = true /\ Opcode w = Opcode req /\
    Questions w = firstn 1 (Questions req).
Proof.
  intros E.
  destruct (handle_cases _ _ _ _ _ _ E)
    as [(EQ & -> & fields & ->)
       | (q & qs & key & lvl & fields & EQ & Hk &
          [(c & Hf & Hs & Ht) | (Hf & r & label & sN & evn & EN & -> & Ht)])].
  - split; [reflexivity|]. eexists. split; [reflexivity|].
    simpl. rewrite EQ. auto.
  - cbv zeta in Hs, Ht. subst s' tr. split; [reflexivity|].
    eexists. split.
    + simpl. rewrite writes_app.
      destruct (snd (subTTL _ _)); reflexivity.
    + simpl. rewrite EQ. auto.
  - subst tr. split.
    + rewrite (proj1 (stamp_stored_config _ _ _)).
      apply (LookupNet_effect _ _ _ _ _ _ _ _ _ EN).
    + eexists. split.
      * simpl. rewrite writes_app.
        rewrite (proj1 (net_events_quiet evn (proj1 (LookupNet_trace _ _ _ _ _ _ _ _ _ EN)))).
        reflexivity.
      * simpl. rewrite EQ. auto.
Qed.

(** X16: a request the cache can answer is served without the network:
    whatever the upstreams would do, the call returns, contacts neither of
    them, leaves the hint store alone and writes the stored reply with its
    TTLs rewritten and the request's stamp. *)
Theorem handle_cache_hit (s : Server) (req : Msg) (net : string) (env : handleenv)
        (key : string) (c : cacheEntry) :
  genCacheKey req net = Ok key ->
  Cache_find key (items (cache s)) = Some (VEntry c) ->
  let r := fst (subTTL (reply c) (Seconds_int (Time_Sub (now_get env) (putin c)))) in
  exists tr,
    handle s req net env = Ok (after_hit s key c, tr) /\
    existsb is_exchange tr = false /\
    writes tr = [SetRcode r req (Rcode r)].
Proof.
  intros Hk Hf r.
  assert (HQ : exists q qs, Questions req = q :: qs).
  { destruct (Questions req) as [|q qs] eqn:EQ; [|eauto].
    unfold genCacheKey in Hk. rewrite EQ in Hk. discriminate. }
  destruct HQ as (q & qs & EQ).
  unfold handle, LookupHosts. rewrite len_lt_1, EQ. cbn [index0 bind].
  rewrite (LookupCache_hit s req net _ key c Hk Hf). cbv zeta. cbn [bind].
  fold r. eexists. split; [reflexivity|].
  destruct (snd (subTTL _ _)); split; reflexivity.
Qed.

(** X17: a request the cache cannot answer goes to both upstreams: when
    the key has no entry, a call that returns has sent one exchange to the
    fast upstream and one to the clean upstream, on the request's
    transport; the reply it writes is the resolver's, stamped with the
    request; and the server it leaves is the one the resolver left, except
    that the entry the resolver stored, when it stored one, holds the
    reply as it was written, stamp included. *)
Theorem handle_cache_miss (s : Server) (req : Msg) (net : string) (env : handleenv)
        (key : string) (s' : Server) (tr : list event) :
  genCacheKey req net = Ok key ->
  Cache_find key (items (cache s)) = None ->
  handle s req net env = Ok (s', tr) ->
  In (EvExchange (FastDNS (config s)) net) tr /\
  In (EvExchange (CleanDNS (config s)) net) tr /\
  exists r label sN evn,
    LookupNet s req net (net_env env) = Ok (Some r, label, false, sN, evn) /\
    writes tr = [SetRcode r req (Rcode r)] /\
    s' = stamp_stored sN (stored_key evn) (SetRcode r req (Rcode r)).
Proof.
  intros Hk Hf E.
  destruct (handle_cases _ _ _ _ _ _ E)
    as [(EQ & _) | (q & qs & key' & lvl & fields & EQ & Hk' &
                    [(c & Hf' & _) | (_ & r & label & sN & evn & EN & -> & ->)])].
  - unfold genCacheKey in Hk. rewrite EQ in Hk. discriminate.
  - rewrite Hk in Hk'. injection Hk' as <-. congruence.
  - destruct (LookupNet_trace _ _ _ _ _ _ _ _ _ EN) as (Hq & Hc & Hfa).
    split; [|split].
    + right. right. apply in_or_app. now left.
    + right. right. apply in_or_app. now left.
    + exists r, label, sN, evn. split; [exact EN|]. split; [|reflexivity].
      simpl. rewrite writes_app, (proj1 (net_events_quiet evn Hq)). reflexivity.
Qed.

End DispatcherFacts.

(** ** The running server, beyond the stores *)

Section RunningFacts.
Context `{DnsTables} `{ChinaIP}.

Lemma Q_panics (s : Server) (req : Msg) (net : string) (useClean : bool)
      (ex : exchange) (p : panic) :
  Q s req net useClean ex = Panic p -> p <> NilDereference.
Proof.
  unfold Q, resolve.
  destruct (ex_err ex).
  - destruct (Questions req) as [|q qs]; simpl; [intros [= <-]; discriminate|].
    destruct (ex_res ex) as [res|]; simpl; [|discriminate].
    destruct useClean; simpl; [discriminate|].
    rewrite orb_true_r. simpl. discriminate.
  - simpl. destruct (ex_res ex) as [res|]; simpl; [|discriminate].
    destruct useClean; simpl; [discriminate|].
    rewrite orb_false_r.
    destruct (negb (Rcode res =? RcodeSuccess)); simpl; [discriminate|].
    destruct (maybePolluted s res) as [[[|] s1]|p'] eqn:EM; simpl; try discriminate.
    intros [= <-].
    destruct (maybePolluted_panics s res p' EM) as [[-> _]|[-> _]]; discriminate.
Qed.

Lemma LookupNet_panics (s : Server) (req : Msg) (net : string) (env : netenv) (p : panic) :
  LookupNet s req net env = Panic p -> p <> NilDereference.
Proof.
  assert (HQ : forall s0 useClean in_time ex p0,
            goQ s0 req net useClean in_time ex = Panic p0 -> p0 <> NilDereference).
  { intros s0 useClean in_time ex p0. unfold goQ. destruct in_time; [|discriminate].
    apply Q_panics. }
  unfold LookupNet.
  destruct (goQ s req net true (clean_in_time env) (clean_ex env))
    as [[[cleanMsg s0] evc]|p0] eqn:EC; simpl.
  2:{ intros [= <-]. exact (HQ _ _ _ _ _ EC). }
  destruct (goQ s0 req net false (fast_in_time env) (fast_ex env))
    as [[[fastMsg s1] evf]|p0] eqn:EF; simpl.
  2:{ intros [= <-]. exact (HQ _ _ _ _ _ EF). }
  assert (Hset : forall res p1, setCache s1 res net (now_set env) = Panic p1 ->
                                p1 <> NilDereference).
  { intros res p1. unfold setCache.
    destruct (genCacheKey res net) as [key|p2] eqn:Ek; simpl; [discriminate|].
    intros [= <-]. rewrite (proj2 (genCacheKey_panics_iff res net) p2 Ek). discriminate. }
  destruct fastMsg as [res|].
  - destruct (setCache s1 res net (now_set env)) as [[s2 evs]|p1] eqn:ES; simpl;
      [discriminate|].
    intros [= <-]. exact (Hset _ _ ES).
  - cbv zeta.
    destruct (Rcode _ =? RcodeSuccess).
    + destruct (setCache s1 _ net (now_set env)) as [[s2 evs]|p1] eqn:ES; simpl;
        [discriminate|].
      intros [= <-]. exact (Hset _ _ ES).
    + simpl. discriminate.
Qed.

Lemma handle_hit_eq (s : Server) (req : Msg) (net : string) (env : handleenv)
      (key : string) (c : cacheEntry) :
  genCacheKey req net = Ok key ->
  Cache_find key (items (cache s)) = Some (VEntry c) ->
  exists tr, handle s req net env = Ok (after_hit s key c, tr).
Proof.
  intros Hk Hf.
  assert (HQ : exists q qs, Questions req = q :: qs).
  { destruct (Questions req) as [|q qs] eqn:EQ; [|eauto].
    unfold genCacheKey in Hk. rewrite EQ in Hk. discriminate. }
  destruct HQ as (q & qs & EQ).
  unfold handle, LookupHosts. rewrite len_lt_1, EQ. cbn [index0 bind].
  rewrite (LookupCache_hit s req net _ key c Hk Hf). cbv zeta. cbn [bind].
  eexists. reflexivity.
Qed.

Lemma handle_total (s : Server) (req : Msg) (net : string) (env : handleenv) :
  stores_ok s ->
  has_question (fast_ex (net_env env)) -> has_question (clean_ex (net_env env)) ->
  exists s' tr, handle s req net env = Ok (s', tr).
Proof.
  intros [Hh Hc] Hxf Hxc.
  destruct (Questions req) as [|q qs] eqn:EQ.
  { unfold handle. rewrite len_lt_1, EQ. eauto. }
  assert (Hk : exists key, genCacheKey req net = Ok key).
  { unfold genCacheKey. rewrite EQ. simpl. eexists. reflexivity. }
  destruct Hk as [key Hk].
  destruct (Cache_find key (items (cache s))) as [[b|c]|] eqn:Ef.
  - destruct (Cache_find_all_values is_noerror_entry key _ _ Hc Ef) as (e & He & _).
    discriminate.
  - destruct (handle_hit_eq s req net env key c Hk Ef) as [tr E]. eauto.
  - unfold handle, LookupHosts. rewrite len_lt_1, EQ. cbn [index0 bind].
    rewrite (LookupCache_miss s req net _ key Hk Ef). cbn [bind].
    destruct (LookupNet_returns s req net (net_env env)) as (r & label & s' & tr & ->);
      try assumption.
    { rewrite EQ. discriminate. }
    cbn [bind]. eauto.
Qed.

(** X18: the dispatcher's two nil checks never fire, and in every state
    the server reaches a call of the dispatcher returns, for every
    message, when the replies the upstreams give have a question
    section. *)
Theorem handle_returns (cfg : Config) (sys : system) (req : Msg) (net : string)
        (env : handleenv) :
  (forall s, handle s req net env <> Panic NilDereference) /\
  (reachable cfg sys ->
   has_question (fast_ex (net_env env)) -> has_question (clean_ex (net_env env)) ->
   exists s' tr, handle (srv sys) req net env = Ok (s', tr)).
Proof.
  split.
  - intros s E. revert E. unfold handle, LookupHosts. rewrite len_lt_1.
    destruct (Questions req) as [|q qs] eqn:EQ; [discriminate|].
    cbn [index0 bind].
    destruct (LookupCache s req net (now_get env)) as [[[[m hit] s1] evc]|p] eqn:EC;
      cbn [bind].
    2:{ intros [= ->]. revert EC. unfold LookupCache.
        destruct (genCacheKey req net) as [key|p] eqn:Ek; simpl.
        - destruct (Cache_Get (cache s) key) as [[[b|c]|] c']; simpl; try discriminate.
          destruct (subTTL _ _); discriminate.
        - intros [= ->]. rewrite (proj2 (genCacheKey_panics_iff req net) _ Ek) in Ek.
          unfold genCacheKey in Ek. rewrite EQ in Ek. discriminate. }
    destruct hit.
    + cbn [bind]. destruct m as [r|]; [discriminate|].
      exfalso. revert EC. unfold LookupCache.
      destruct (genCacheKey req net) as [key|]; simpl; [|discriminate].
      destruct (Cache_Get (cache s) key) as [[[b|c]|] c']; simpl; try discriminate.
      destruct (subTTL _ _); discriminate.
    + destruct (LookupNet s1 req net (net_env env)) as [[[[[m' label] err] s2] evn]|p]
        eqn:EN; cbn [bind].
      * destruct m'; discriminate.
      * intros [= ->]. exact (LookupNet_panics _ _ _ _ _ EN eq_refl).
  - intros Hr. apply handle_total. exact (reachable_stores_ok cfg sys Hr).
Qed.

Lemma handle_spawned (s : Server) (req : Msg) (net : string) (env : handleenv)
      (s' : Server) (tr : list event) :
  handle s req net env = Ok (s', tr) ->
  spawned tr = [] \/ (spawned tr = [Refresh req net] /\ Questions req <> []).
Proof.
  intros E.
  destruct (handle_cases _ _ _ _ _ _ E)
    as [(EQ & _ & fields & ->)
       | (q & qs & key & lvl & fields & EQ & Hk &
          [(c & Hf & _ & Ht) | (Hf & r & label & sN & evn & EN & _ & ->)])].
  - now left.
  - cbv zeta in Ht. subst tr. simpl. rewrite spawned_app. simpl.
    destruct (snd (subTTL _ _)); simpl; [|now left].
    right. split; [reflexivity|]. rewrite EQ. discriminate.
  - left. simpl. rewrite spawned_app. simpl.
    rewrite (proj2 (net_events_quiet evn (proj1 (LookupNet_trace _ _ _ _ _ _ _ _ _ EN)))).
    reflexivity.
Qed.

Lemma left_running_app (a b : list event) :
  left_running (a ++ b) = (left_running a ++ left_running b)%list.
Proof.
  induction a as [|e a IH]; [reflexivity|].
  destruct e; simpl; rewrite IH; reflexivity.
Qed.

Lemma Q_left_running (s : Server) (req : Msg) (net : string) (useClean : bool)
      (ex : exchange) (m : option Msg) (s' : Server) (ev : list event) :
  Q s req net useClean ex = Ok (m, s', ev) -> left_running ev = [].
Proof.
  unfold Q, resolve. intros E.
  destruct (if ex_err ex then _ else _) as [logged|] eqn:EL; simpl in E; [|discriminate].
  assert (Hl : left_running logged = []).
  { destruct (ex_err ex).
    - destruct (index0 (Questions req)); simpl in EL; [|discriminate].
      injection EL as <-. reflexivity.
    - injection EL as <-. reflexivity. }
  destruct (ex_res ex) as [res|]; simpl in E.
  - destruct (if negb useClean then _ else _) as [[d s1]|]; simpl in E; [|discriminate].
    destruct d; injection E as _ _ <-; exact Hl.
  - injection E as _ _ <-. exact Hl.
Qed.

(** The queries a call of the resolver leaves running are for its own
    request. *)
Lemma LookupNet_left_running (s : Server) (req : Msg) (net : string) (env : netenv)
      (m : option Msg) (label : string) (err : bool) (s' : Server) (tr : list event) :
  LookupNet s req net env = Ok (m, label, err, s', tr) ->
  left_running tr = [] \/ left_running tr = [Late req net (fast_ex env)].
Proof.
  intros E.
  destruct (LookupNet_shape _ _ _ _ _ _ _ _ _ E)
    as (evc & fastMsg & s1 & evf & r & evs & EC & EF & _ & _ & -> & _ & Hs).
  assert (Hevs : left_running evs = []).
  { destruct Hs as [(_ & key & _ & -> & _) | (_ & -> & _)]; reflexivity. }
  assert (Hc : left_running evc = []).
  { revert EC. unfold goQ. destruct (clean_in_time env).
    - apply Q_left_running.
    - intros [= _ <-]. reflexivity. }
  rewrite !left_running_app, Hc, Hevs, app_nil_r. simpl.
  revert EF. unfold goQ. destruct (fast_in_time env).
  - intros EF. left. exact (Q_left_running _ _ _ _ _ _ _ _ EF).
  - intros [= _ _ <-]. right. reflexivity.
Qed.

Lemma handle_left_running (s : Server) (req : Msg) (net : string) (env : handleenv)
      (s' : Server) (tr : list event) :
  handle s req net env = Ok (s', tr) -> Forall task_has_question (left_running tr).
Proof.
  intros E.
  destruct (handle_cases _ _ _ _ _ _ E)
    as [(EQ & _ & fields & ->)
       | (q & qs & key & lvl & fields & EQ & Hk &
          [(c & Hf & _ & Ht) | (Hf & r & label & sN & evn & EN & _ & ->)])].
  - constructor.
  - cbv zeta in Ht. subst tr. simpl. rewrite left_running_app. simpl.
    destruct (snd (subTTL _ _)); constructor.
  - simpl. rewrite left_running_app. simpl. rewrite app_nil_r.
    destruct (LookupNet_left_running _ _ _ _ _ _ _ _ _ EN) as [-> | ->]; [constructor|].
    constructor; [|constructor]. simpl. rewrite EQ. discriminate.
Qed.

Lemma refresh_left_running (s : Server) (req : Msg) (net : string) (env : netenv)
      (s' : Server) (tr : list event) :
  refresh s req net env = Ok (s', tr) -> Forall task_has_question (left_running tr).
Proof.
  unfold refresh.
  destruct (LookupNet s req net env) as [[[[[m label] err] s1] ev]|] eqn:E;
    simpl; [|discriminate].
  destruct (index0 (Questions req)) as [q|] eqn:Eq; simpl; [|discriminate].
  destruct m; [|discriminate].
  intros [= _ <-]. rewrite left_running_app. simpl. rewrite app_nil_r.
  destruct (LookupNet_left_running _ _ _ _ _ _ _ _ _ E) as [-> | ->]; [constructor|].
  constructor; [|constructor]. simpl. exact (index0_Ok _ _ Eq).
Qed.

Lemma reachable_pending (cfg : Config) (sys : system) :
  reachable cfg sys -> Forall task_has_question (pending sys).
Proof.
  induction 1 as [|sys sys' _ IH Hstep]; [constructor|].
  destruct Hstep as [sys req net env s' tr E | sys pre post req net env s' tr Hp E
                    | sys pre post req net ex m s' ev Hp E]; simpl.
  - apply Forall_app. split; [exact IH|]. apply Forall_app. split.
    + destruct (handle_spawned _ _ _ _ _ _ E) as [-> | [-> Hq]]; [constructor|].
      constructor; [exact Hq|constructor].
    + exact (handle_left_running _ _ _ _ _ _ E).
  - rewrite Hp in IH. apply Forall_app in IH as [Hpre Hpost].
    apply Forall_app. split; [exact Hpre|]. apply Forall_app. split.
    + inversion Hpost; assumption.
    + exact (refresh_left_running _ _ _ _ _ _ E).
  - rewrite Hp in IH. apply Forall_app in IH as [Hpre Hpost].
    apply Forall_app. split; [exact Hpre|].
    inversion Hpost; assumption.
Qed.


(** X26: a fast query that is left running in a reachable state belongs
    to a request with a question; when the reply it gets, if any, has a
    question section, the rest of its closure runs to the end without a
    panic, writes nothing to a client, starts no goroutine and leaves the
    configuration and the answer cache as they are: only the hint store
    can change, through the classifier. *)
Theorem pending_late_returns (cfg : Config) (sys : system) (req : Msg)
        (net : string) (ex : exchange) :
  reachable cfg sys ->
  In (Late req net ex) (pending sys) ->
  has_question ex ->
  Questions req <> [] /\
  exists m s' ev,
    Q (srv sys) req net false ex = Ok (m, s', ev) /\
    config s' = config (srv sys) /\ cache s' = cache (srv sys) /\
    writes ev = [] /\ spawned ev = [].
Proof.
  intros Hr Hin Hx.
  pose proof (reachable_pending cfg sys Hr) as HF.
  rewrite Forall_forall in HF. pose proof (HF _ Hin) as Hq. simpl in Hq.
  split; [exact Hq|].
  destruct (reachable_stores_ok cfg sys Hr) as [Hh _].
  destruct (Q_fast_Ok (srv sys) req net ex Hq Hx Hh) as (m & s' & ev & E).
  destruct (Q_fast_inv _ _ _ _ _ _ _ E) as (Hc & Hk & _).
  destruct (Q_trace _ _ _ _ _ _ _ _ E) as (logged & -> & Hl).
  exists m, s'. eexists. split; [exact E|]. split; [exact Hc|]. split; [exact Hk|].
  apply (net_events_quiet (EvExchange (FastDNS (config (srv sys))) net :: logged)).
  simpl. exact Hl.
Qed.

End RunningFacts.

(** ** Reads, misses and hits in sequence *)

Section SequenceFacts.
Context `{DnsTables} `{ChinaIP}.

(** X20: in every state the server reaches, a cache read for a request
    with a question returns, its type assertion holds, and a reply it
    serves has response code NOERROR. *)
Theorem LookupCache_reachable (cfg : Config) (sys : system) (req : Msg)
        (net : string) (now : Time) :
  reachable cfg sys -> Questions req <> [] ->
  exists m hit s' tr,
    LookupCache (srv sys) req net now = Ok (m, hit, s', tr) /\
    (forall r, m = Some r -> Rcode r = RcodeSuccess).
Proof.
  intros Hr Hq. destruct (reachable_stores_ok cfg sys Hr) as [_ Hc].
  destruct (index0_nonempty _ Hq) as [q Eq].
  assert (Hk : exists key, genCacheKey req net = Ok key).
  { unfold genCacheKey. rewrite Eq. simpl. eexists. reflexivity. }
  destruct Hk as [key Hk].
  destruct (Cache_find key (items (cache (srv sys)))) as [[b|c]|] eqn:Ef.
  - destruct (Cache_find_all_values is_noerror_entry key _ _ Hc Ef) as (e & He & _).
    discriminate.
  - destruct (Cache_find_all_values is_noerror_entry key _ _ Hc Ef) as (e & He & Hcode).
    injection He as <-.
    rewrite (LookupCache_hit _ req net now key c Hk Ef). cbv zeta.
    do 4 eexists. split; [reflexivity|].
    intros r [= <-]. rewrite Rcode_subTTL. exact Hcode.
  - rewrite (LookupCache_miss _ req net now key Hk Ef).
    do 4 eexists. split; [reflexivity|]. discriminate.
Qed.

Lemma handle_hit_trace (s : Server) (req : Msg) (net : string) (env : handleenv)
      (key : string) (c : cacheEntry) :
  genCacheKey req net = Ok key ->
  Cache_find key (items (cache s)) = Some (VEntry c) ->
  exists tr,
    handle s req net env = Ok (after_hit s key c, tr) /\
    existsb is_exchange tr = false.
Proof.
  intros Hk Hf.
  assert (HQ : exists q qs, Questions req = q :: qs).
  { destruct (Questions req) as [|q qs] eqn:EQ; [|eauto].
    unfold genCacheKey in Hk. rewrite EQ in Hk. discriminate. }
  destruct HQ as (q & qs & EQ).
  unfold handle, LookupHosts. rewrite len_lt_1, EQ. cbn [index0 bind].
  rewrite (LookupCache_hit s req net _ key c Hk Hf). cbv zeta. cbn [bind].
  eexists. split; [reflexivity|].
  destruct (snd (subTTL _ _)); reflexivity.
Qed.

Lemma Cache_stamp_Set (c : Cache) (key : string) (t : Time) (r m : Msg) :
  (1 <= capacity c)%nat ->
  Cache_find key (items (Cache_stamp (Cache_Set c key (VEntry (mkEntry t r))) key m))
  = Some (VEntry (mkEntry t m)).
Proof.
  intros Hcap. unfold Cache_stamp, Cache_Set. cbn [items capacity].
  destruct (capacity c) as [|n]; [inversion Hcap|].
  cbn [firstn]. rewrite String.eqb_refl. cbn [items Cache_find putin].
  rewrite String.eqb_refl. reflexivity.
Qed.

(** X21: first a miss, then a hit: when a request that misses the cache
    is answered from the network with response code NOERROR, the upstreams
    echo the question and the cache has room for one entry, the cache
    afterwards holds under the request's key the reply as it was written
    to the client, with the instant of the cache write; and the next call
    for that request, on the server the first call left, is served from
    the cache without an exchange, whatever the upstreams would answer
    then. *)
Theorem handle_miss_then_hit (s : Server) (req : Msg) (net : string)
        (env env2 : handleenv) (key : string) (s1 : Server) (tr1 : list event)
        (w : Msg) :
  genCacheKey req net = Ok key ->
  Cache_find key (items (cache s)) = None ->
  (1 <= capacity (cache s))%nat ->
  echoes (net_env env) net key ->
  handle s req net env = Ok (s1, tr1) ->
  writes tr1 = [w] -> Rcode w = RcodeSuccess ->
  Cache_find key (items (cache s1)) = Some (VEntry (mkEntry (now_set (net_env env)) w)) /\
  exists s2 tr2,
    handle s1 req net env2 = Ok (s2, tr2) /\
    existsb is_exchange tr2 = false.
Proof.
  intros Hk Hf Hcap Hecho E Hw Hcode.
  destruct (handle_cases _ _ _ _ _ _ E)
    as [(EQ & _) | (q & qs & key' & lvl & fields & EQ & Hk' &
                    [(c & Hf' & _) | (_ & r & label & sN & evn & EN & -> & ->)])].
  - unfold genCacheKey in Hk. rewrite EQ in Hk. discriminate.
  - rewrite Hk in Hk'. injection Hk' as <-. congruence.
  - destruct (LookupNet_trace _ _ _ _ _ _ _ _ _ EN) as (Hq & _).
    simpl in Hw. rewrite writes_app, (proj1 (net_events_quiet evn Hq)) in Hw.
    simpl in Hw. injection Hw as <-. rewrite Rcode_SetRcode in Hcode.
    destruct (LookupNet_shape _ _ _ _ _ _ _ _ _ EN)
      as (evc & fastMsg & s0 & evf & r' & evs & _ & EF & Hr' & _ & _ & Hfrom & _).
    injection Hr' as <-.
    destruct (goQ_fast_inv _ _ _ _ _ _ _ _ EF) as (_ & _ & _ & Hacc).
    assert (Hkey : genCacheKey r net = Ok key).
    { destruct Hfrom as [(_ & -> & _) | (_ & _ & Hr)].
      - apply Hecho. left. apply (Hacc r eq_refl).
      - unfold clean_yield in Hr.
        destruct (clean_in_time (net_env env)).
        + destruct (ex_res (clean_ex (net_env env))) as [res|] eqn:Ec.
          * subst r. apply Hecho. now right.
          * subst r. discriminate.
        + subst r. discriminate. }
    destruct (LookupNet_stored_key _ _ _ _ _ _ _ _ _ EN)
      as [(_ & key0 & Ek0 & Hst & Hc) | (Hn & _)]; [|contradiction].
    rewrite Hkey in Ek0. injection Ek0 as <-.
    assert (Hfound : Cache_find key
                       (items (cache (stamp_stored sN (stored_key evn)
                                        (SetRcode r req (Rcode r)))))
                     = Some (VEntry (mkEntry (now_set (net_env env))
                                             (SetRcode r req (Rcode r))))).
    { rewrite Hst. simpl. rewrite Hc. apply Cache_stamp_Set. exact Hcap. }
    split; [exact Hfound|].
    destruct (handle_hit_trace _ req net env2 key _ Hk Hfound) as (tr2 & E2 & Hx).
    eauto.
Qed.

(** X22: a fast reply that came in time, without transport error, with
    code NOERROR, a question and an A-record pointing into China is always
    served: the resolver returns it under the fast upstream's address
    whatever the clean upstream did, and the hint store then holds [true]
    for its query name when it has room for one entry. *)
Theorem LookupNet_china_A_served (s : Server) (req : Msg) (net : string)
        (env : netenv) (r : Msg) (q : Question) (qs : list Question) :
  Questions req <> [] ->
  ex_res (fast_ex env) = Some r -> ex_err (fast_ex env) = false ->
  fast_in_time env = true -> Rcode r = RcodeSuccess ->
  Questions r = q :: qs -> containChinaIP r = true ->
  exists s' tr,
    LookupNet s req net env = Ok (Some r, FastDNS (config s), false, s', tr) /\
    ((1 <= capacity (chinaDom s))%nat ->
     Cache_find (Name q) (items (chinaDom s')) = Some (VBool true)).
Proof.
  intros Hq Er Ee Et Hr EQ HC.
  assert (HA : containA r = true).
  { apply containA_In. apply containChinaIP_In in HC as (h & a & Hin & _). eauto. }
  pose proof (maybePolluted_with_A s r q qs HA EQ) as Em.
  rewrite HC in Em. simpl negb in Em.
  set (s1 := with_chinaDom s (Cache_Set (chinaDom s) (Name q) (VBool true))) in *.
  assert (Hf : (1 <= capacity (chinaDom s))%nat ->
               Cache_find (Name q) (items (chinaDom s1)) = Some (VBool true)).
  { intros Hcap. simpl. apply Cache_find_Set. exact Hcap. }
  destruct (goQ_clean_Ok s req net (clean_in_time env) (clean_ex env) Hq) as [evc EC].
  pose proof (goQ_fast_accept s req net (fast_ex env) r s1 Er Ee Hr Em) as EF.
  rewrite <- Et in EF.
  rewrite (LookupNet_unfold _ _ _ _ _ _ _ _ EC EF).
  destruct (setCache_Ok s1 r net (now_set env)) as (key & Ek & ->).
  { rewrite EQ. discriminate. }
  cbn [bind]. do 2 eexists. split; [reflexivity|]. exact Hf.
Qed.

End SequenceFacts.

(** *** Worked calls, continued *)

Lemma LookupNet_caches_iff_noerror_witness :
  exists r,
    Some clean_reply_A = Some r /\
    (Rcode r = RcodeSuccess ->
     exists key, genCacheKey r "udp" = Ok key /\
       In (EvCacheSet key) (trace_of polluted_outcome) /\
       cache (server_after polluted_outcome (NewServer sample_cfg)) =
         Cache_Set (cache (NewServer sample_cfg)) key
                   (VEntry (mkEntry (now_set polluted_env) r))) /\
    (Rcode r <> RcodeSuccess ->
     cache (server_after polluted_outcome (NewServer sample_cfg)) =
       cache (NewServer sample_cfg) /\
     "8.8.8.8:53" = CleanDNS (config (NewServer sample_cfg)) /\
     forall key, ~ In (EvCacheSet key) (trace_of polluted_outcome)).
Proof.
  apply (LookupNet_caches_iff_noerror (NewServer sample_cfg) baidu_req_A "udp"
           polluted_env (Some clean_reply_A) "8.8.8.8:53" false
           (server_after polluted_outcome (NewServer sample_cfg))
           (trace_of polluted_outcome)).
  reflexivity.
Defined.

Lemma LookupNet_foreign_A_not_served_witness :
  "8.8.8.8:53" = CleanDNS (config (NewServer sample_cfg)) /\
  Some clean_reply_A =
    Some (match clean_yield polluted_env with
          | Some res => res
          | None => SetRcode empty_Msg baidu_req_A RcodeServerFailure
          end).
Proof.
  apply (LookupNet_foreign_A_not_served (NewServer sample_cfg) baidu_req_A "udp"
           polluted_env foreign_reply_A (Some clean_reply_A) "8.8.8.8:53" false
           (server_after polluted_outcome (NewServer sample_cfg))
           (trace_of polluted_outcome)); reflexivity.
Defined.


Lemma LookupNet_china_A_served_witness :
  exists s' tr,
    LookupNet (NewServer sample_cfg) baidu_req_A "udp" both_answer_env =
      Ok (Some baidu_reply_A, FastDNS (config (NewServer sample_cfg)), false, s', tr) /\
    ((1 <= capacity (chinaDom (NewServer sample_cfg)))%nat ->
     Cache_find "baidu.com." (items (chinaDom s')) = Some (VBool true)).
Proof.
  apply (LookupNet_china_A_served (NewServer sample_cfg) baidu_req_A "udp"
           both_answer_env baidu_reply_A (mkQuestion "baidu.com." TypeA ClassINET) []).
  - exact baidu_req_has_question.
  - reflexivity.
  - reflexivity.
  - reflexivity.
  - reflexivity.
  - reflexivity.
  - reflexivity.
Defined.

Lemma handle_writes_one_witness :
  config (state_of first_call (NewServer sample_cfg)) = config (NewServer sample_cfg) /\
  exists w,
    writes (events_of first_call) = [w] /\
    Id w = Id baidu_req_A /\ Response w = true /\ Opcode w = Opcode baidu_req_A /\
    Questions w = firstn 1 (Questions baidu_req_A).
Proof.
  apply (handle_writes_one (NewServer sample_cfg) baidu_req_A "udp"
           (mkHandleenv (4 * sec) both_answer_env)
           (state_of first_call (NewServer sample_cfg)) (events_of first_call)).
  reflexivity.
Defined.

Lemma handle_cache_hit_witness :
  exists tr,
    handle cached_server example_req "udp" (mkHandleenv (65 * sec) both_answer_env) =
      Ok (after_hit cached_server "example.com._A_1_udp" example_entry, tr) /\
    existsb is_exchange tr = false /\
    writes tr = [SetRcode (rewritten 65 example_reply) example_req RcodeSuccess].
Proof.
  exact (handle_cache_hit cached_server example_req "udp"
           (mkHandleenv (65 * sec) both_answer_env)
           "example.com._A_1_udp" example_entry eq_refl eq_refl).
Defined.

Lemma handle_cache_miss_witness :
  In (EvExchange (FastDNS (config (NewServer sample_cfg))) "udp") (events_of first_call) /\
  In (EvExchange (CleanDNS (config (NewServer sample_cfg))) "udp") (events_of first_call) /\
  exists r label sN evn,
    LookupNet (NewServer sample_cfg) baidu_req_A "udp" both_answer_env =
      Ok (Some r, label, false, sN, evn) /\
    writes (events_of first_call) = [SetRcode r baidu_req_A (Rcode r)] /\
    state_of first_call (NewServer sample_cfg) =
      stamp_stored sN (stored_key evn) (SetRcode r baidu_req_A (Rcode r)).
Proof.
  apply (handle_cache_miss (NewServer sample_cfg) baidu_req_A "udp"
           (mkHandleenv (4 * sec) both_answer_env) "baidu.com._A_1_udp"
           (state_of first_call (NewServer sample_cfg)) (events_of first_call));
    reflexivity.
Defined.

Lemma both_answer_have_question :
  has_question (fast_ex both_answer_env) /\ has_question (clean_ex both_answer_env).
Proof. split; intros r [= <-]; simpl; discriminate. Defined.


Lemma handle_returns_witness :
  exists s' tr,
    handle (srv served_system) baidu_req_AAAA "udp" (mkHandleenv (9 * sec) both_answer_env) =
      Ok (s', tr).
Proof.
  apply (proj2 (handle_returns sample_cfg served_system baidu_req_AAAA "udp"
                  (mkHandleenv (9 * sec) both_answer_env))).
  - exact served_system_reachable.
  - exact (proj1 both_answer_have_question).
  - exact (proj2 both_answer_have_question).
Defined.

Lemma answered_system_reachable : reachable sample_cfg answered_system.
Proof.
  unfold answered_system.
  destruct (handle (NewServer sample_cfg) example_req "udp"
                   (mkHandleenv 0 clean_example_env)) as [[s' tr]|p] eqn:E.
  - apply (reach_step sample_cfg (mkSystem (NewServer sample_cfg) [])).
    + apply reach_init.
    + exact (step_handle (mkSystem (NewServer sample_cfg) []) example_req "udp"
                         (mkHandleenv 0 clean_example_env) s' tr E).
  - apply reach_init.
Defined.

Lemma stale_system_reachable : reachable sample_cfg stale_system.
Proof.
  unfold stale_system.
  destruct (handle (srv answered_system) example_req "udp"
                   (mkHandleenv (65 * sec) both_fail_env)) as [[s' tr]|p] eqn:E.
  - apply (reach_step sample_cfg answered_system).
    + exact answered_system_reachable.
    + exact (step_handle answered_system example_req "udp"
                         (mkHandleenv (65 * sec) both_fail_env) s' tr E).
  - exact answered_system_reachable.
Defined.


Lemma LookupCache_reachable_witness :
  exists m hit s' tr,
    LookupCache (srv stale_system) example_req "udp" (70 * sec) = Ok (m, hit, s', tr) /\
    (forall r, m = Some r -> Rcode r = RcodeSuccess).
Proof.
  apply (LookupCache_reachable sample_cfg stale_system example_req "udp" (70 * sec)).
  - exact stale_system_reachable.
  - simpl. discriminate.
Defined.

Lemma clean_example_echoes : echoes clean_example_env "udp" "example.com._A_1_udp".
Proof.
  intros r [Hr|Hr].
  - discriminate Hr.
  - injection Hr as <-. reflexivity.
Defined.

Lemma handle_miss_then_hit_witness :
  Cache_find "example.com._A_1_udp"
    (items (cache (state_of first_example_call (NewServer sample_cfg)))) =
    Some (VEntry (mkEntry (now_set (net_env (mkHandleenv 0 clean_example_env)))
                          (SetRcode example_reply example_req RcodeSuccess))) /\
  exists s2 tr2,
    handle (state_of first_example_call (NewServer sample_cfg)) example_req "udp"
           (mkHandleenv (10 * sec) both_fail_env) = Ok (s2, tr2) /\
    existsb is_exchange tr2 = false.
Proof.
  apply (handle_miss_then_hit (NewServer sample_cfg) example_req "udp"
           (mkHandleenv 0 clean_example_env) (mkHandleenv (10 * sec) both_fail_env)
           "example.com._A_1_udp"
           (state_of first_example_call (NewServer sample_cfg))
           (events_of first_example_call)
           (SetRcode example_reply example_req RcodeSuccess)).
  - reflexivity.
  - reflexivity.
  - vm_compute. lia.
  - exact clean_example_echoes.
  - reflexivity.
  - reflexivity.
  - reflexivity.
Defined.

(** Scenario 1 returns a reply; scenario 4: both upstreams fail, the reply
    is SERVFAIL and the cache stays empty; scenario 2: both answer and the
    call returns. *)
Lemma LookupNet_total_failure_witness :
  (false = false /\ exists r, Some clean_reply_A = Some r) /\
  (exists tr,
     LookupNet (NewServer sample_cfg) baidu_req_A "udp" both_fail_env =
       Ok (Some (SetRcode empty_Msg baidu_req_A RcodeServerFailure),
           CleanDNS (config (NewServer sample_cfg)), false, NewServer sample_cfg, tr) /\
     Rcode (SetRcode empty_Msg baidu_req_A RcodeServerFailure) = RcodeServerFailure /\
     cache (NewServer sample_cfg) = cache (NewServer sample_cfg) /\
     forall key, ~ In (EvCacheSet key) tr) /\
  (exists r label s' tr,
     LookupNet (NewServer sample_cfg) baidu_req_A "udp" both_answer_env =
       Ok (Some r, label, false, s', tr)).
Proof.
  split; [|split].
  - apply (proj1 (LookupNet_total_failure (NewServer sample_cfg) baidu_req_A "udp"
                    polluted_env)
                 (Some clean_reply_A) "8.8.8.8:53" false
                 (server_after polluted_outcome (NewServer sample_cfg))
                 (trace_of polluted_outcome)).
    reflexivity.
  - eapply (proj1 (proj2 (LookupNet_total_failure (NewServer sample_cfg) baidu_req_A "udp"
                            both_fail_env))).
    + exact baidu_req_has_question.
    + reflexivity.
    + reflexivity.
  - apply (proj2 (proj2 (LookupNet_total_failure (NewServer sample_cfg) baidu_req_A "udp"
                           both_answer_env))).
    + exact baidu_req_has_question.
    + exact (proj1 both_answer_have_question).
    + exact (proj2 both_answer_have_question).
    + constructor.
Defined.

Lemma late_system_reachable : reachable sample_cfg late_system.
Proof.
  unfold late_system.
  destruct (handle (NewServer sample_cfg) baidu_req_A "udp"
                   (mkHandleenv (4 * sec) late_fast_env)) as [[s' tr]|p] eqn:E.
  - apply (reach_step sample_cfg (mkSystem (NewServer sample_cfg) [])).
    + apply reach_init.
    + exact (step_handle (mkSystem (NewServer sample_cfg) []) baidu_req_A "udp"
                         (mkHandleenv (4 * sec) late_fast_env) s' tr E).
  - apply reach_init.
Defined.

(** The fast query of scenario 2 left running: when its reply comes, the
    classifier runs on the server as the call left it. *)
Lemma pending_late_returns_witness :
  Questions baidu_req_A <> [] /\
  exists m s' ev,
    Q (srv late_system) baidu_req_A "udp" false (fast_ex late_fast_env) = Ok (m, s', ev) /\
    config s' = config (srv late_system) /\ cache s' = cache (srv late_system) /\
    writes ev = [] /\ spawned ev = [].
Proof.
  apply (pending_late_returns sample_cfg late_system baidu_req_A "udp"
           (fast_ex late_fast_env)).
  - exact late_system_reachable.
  - vm_compute. left. reflexivity.
  - intros r [= <-]. simpl. discriminate.
Defined.
